(** * Invoice extraction, validation, rate limiting and duplicate detection

    A shallow embedding of
      - [backend/models/invoice_model.py]   (class [InvoiceModel]),
      - [backend/utils/rate_limiter.py]     (class [InMemoryRateLimiter]),
      - [backend/utils/duplicate_detector.py] (class [DuplicateDetector]),
    followed by the properties of these programs.

    Conventions of the embedding.
      - Python [str] is Rocq's [string]; the model covers ASCII text, and
        the case mappings, [\s] and [\d] are the ASCII restrictions of
        Python's. [Unicode] gives [title] on two characters beyond
        ASCII, where it behaves otherwise.
      - A Python [float] holding a parsed amount is an exact decimal
        [m * 10^e], or an infinity, or NaN ([pyfloat]); binary rounding,
        overflow to infinity, the limit of 17 significant digits and the
        sign of zero are abstracted.
        Confidence scores are exact rationals ([Q]), and [Invoice]
        computes with them exactly. [FloatInvoice] gives the overall
        confidence again as Python computes it, in binary64
        ([Binary64]).
      - A Python [dict] of the invoice model is an association list in
        insertion order ([dict]); the process-wide tables of the rate
        limiter and of the duplicate detector are [gmap]s.
      - [time.time()] is an explicit argument [now : Z], in seconds; the
        two readings of the clock within one call of [check_duplicate]
        are the same [now].
      - A raised exception is [None] in the [option] monad where the
        source lets it escape, and is handled in place where the source
        catches it. *)

From Stdlib Require Import ZArith QArith Qround Qminmax Ascii String List Bool Lia Lqa
  Sorted SpecFloat.
From Stdlib Require Import Decimal DecimalString DecimalPos DecimalN.
From stdpp Require Import base option list gmap strings.

Local Open Scope string_scope.
Local Open Scope Z_scope.

(** ** Characters and strings (Python [str] on ASCII text) *)

Module Str.

Definition code (c : ascii) : N := N_of_ascii c.

Definition in_range (lo hi c : ascii) : bool :=
  (code lo <=? code c)%N && (code c <=? code hi)%N.

Definition is_upper (c : ascii) : bool := in_range "A" "Z" c.
Definition is_lower (c : ascii) : bool := in_range "a" "z" c.
Definition is_digit (c : ascii) : bool := in_range "0" "9" c.
Definition is_cased (c : ascii) : bool := is_upper c || is_lower c.

(** [str.isspace] and [\s] on ASCII: TAB, LF, VT, FF, CR, FS, GS, RS, US
    and the space. *)
Definition is_space (c : ascii) : bool :=
  in_range "009" "013" c || in_range "028" "032" c.

(** C [isspace], the set that [float()] strips: TAB, LF, VT, FF, CR and
    the space. *)
Definition is_c_space (c : ascii) : bool :=
  in_range "009" "013" c || Ascii.eqb c " ".

Definition lower_char (c : ascii) : ascii :=
  if is_upper c then ascii_of_N (code c + 32) else c.

Definition upper_char (c : ascii) : ascii :=
  if is_lower c then ascii_of_N (code c - 32) else c.

Fixpoint map (f : ascii -> ascii) (s : string) : string :=
  match s with
  | EmptyString => EmptyString
  | String c s' => String (f c) (map f s')
  end.

(** [s.lower()] and [s.upper()]. *)
Definition lower (s : string) : string := map lower_char s.
Definition upper (s : string) : string := map upper_char s.

(** [s.title()]: CPython's [do_title] walks the string with the flag
    [previous_is_cased]; a character after a cased one is lower-cased,
    any other is title-cased (upper-cased, on ASCII). *)
Fixpoint title_from (previous_is_cased : bool) (s : string) : string :=
  match s with
  | EmptyString => EmptyString
  | String c s' =>
      String (if previous_is_cased then lower_char c else upper_char c)
             (title_from (is_cased c) s')
  end.

Definition title (s : string) : string := title_from false s.

(** Truth value of a string: [if not value]. *)
Definition truthy (s : string) : bool :=
  match s with EmptyString => false | _ => true end.

Fixpoint drop_while (p : ascii -> bool) (s : string) : string :=
  match s with
  | EmptyString => EmptyString
  | String c s' => if p c then drop_while p s' else s
  end.

Fixpoint rev_onto (s acc : string) : string :=
  match s with
  | EmptyString => acc
  | String c s' => rev_onto s' (String c acc)
  end.

Definition rev (s : string) : string := rev_onto s EmptyString.

Definition strip_with (p : ascii -> bool) (s : string) : string :=
  rev (drop_while p (rev (drop_while p s))).

(** [s.strip()]. *)
Definition strip (s : string) : string := strip_with is_space s.

(** [s.split(sep)] for a one-character separator: the current piece is
    accumulated in reverse in [cur]. *)
Fixpoint split_on (sep : ascii) (cur : string) (s : string) : list string :=
  match s with
  | EmptyString => [rev cur]
  | String c s' =>
      if Ascii.eqb c sep then rev cur :: split_on sep EmptyString s'
      else split_on sep (String c cur) s'
  end.

Definition split_char (sep : ascii) (s : string) : list string :=
  split_on sep EmptyString s.

(** [s.split()]: pieces between runs of white space, none of them empty. *)
Fixpoint words_from (cur : string) (s : string) : list string :=
  match s with
  | EmptyString => if truthy cur then [rev cur] else []
  | String c s' =>
      if is_space c
      then (if truthy cur then rev cur :: words_from EmptyString s'
            else words_from EmptyString s')
      else words_from (String c cur) s'
  end.

Definition split (s : string) : list string := words_from EmptyString s.

(** [sep.join(parts)]. *)
Fixpoint join (sep : string) (parts : list string) : string :=
  match parts with
  | [] => EmptyString
  | [p] => p
  | p :: rest => p ++ sep ++ join sep rest
  end.

(** [sub in s]. *)
Fixpoint contains (sub s : string) : bool :=
  String.prefix sub s ||
  match s with
  | EmptyString => false
  | String _ s' => contains sub s'
  end.

Fixpoint filter (p : ascii -> bool) (s : string) : string :=
  match s with
  | EmptyString => EmptyString
  | String c s' => if p c then String c (filter p s') else filter p s'
  end.

Fixpoint forallb (p : ascii -> bool) (s : string) : bool :=
  match s with
  | EmptyString => true
  | String c s' => p c && forallb p s'
  end.

(** [s.isascii()]: every character is below U+0080. *)
Definition is_ascii (c : ascii) : bool := (code c <? 128)%N.
Definition isascii (s : string) : bool := forallb is_ascii s.

End Str.

(** ** Regular expressions (the fragment of Python's [re] the source uses)

    A backtracking matcher in continuation-passing style: alternatives
    are tried left to right, a greedy quantifier tries the longer match
    first and a lazy one the shorter, and [search] takes the leftmost
    start position, which is the order in which [re] explores matches. *)

Module Re.

Inductive item : Type :=
| Chr (c : ascii)            (* a character *)
| Range (lo hi : ascii)      (* lo-hi *)
| Digit                      (* \d *)
| Space.                     (* \s *)

Inductive atom : Type :=
| ASet (cs : list item)      (* [...], or one of its items alone *)
| ADot.                      (* . *)

Inductive regex : Type :=
| Lit (s : string)                                       (* literal text *)
| One (a : atom)                                         (* one character *)
| Rep (greedy : bool) (lo : nat) (hi : option nat) (a : atom)
                                                         (* a{lo,hi}, a*, a+, a?, a+? *)
| Opt (r : regex)                                        (* (?:r)? *)
| Cat (r1 r2 : regex)                                    (* r1r2 *)
| Alt (r1 r2 : regex)                                    (* r1|r2 *)
| Group (r : regex)                                      (* (r), group 1 *)
| Bol                                                    (* ^ *)
| Eol.                                                   (* $ *)

Record flags : Type := { ignorecase : bool; multiline : bool }.

(** A position in the subject: the character before it, the text from it
    on, and what group 1 holds so far. *)
Record state : Type := { prev : option ascii; rest : string; grp : option string }.

Definition LF : ascii := "010".

Definition item_has (i : item) (c : ascii) : bool :=
  match i with
  | Chr l => Ascii.eqb l c
  | Range lo hi => Str.in_range lo hi c
  | Digit => Str.is_digit c
  | Space => Str.is_space c
  end.

(** Under IGNORECASE the subject character is lower-cased and looked up
    as itself and as its upper case; a literal of the pattern is compared
    in lower case. *)
Definition item_ok (f : flags) (i : item) (c : ascii) : bool :=
  if ignorecase f then
    match i with
    | Chr l => Ascii.eqb (Str.lower_char l) (Str.lower_char c)
    | _ => item_has i (Str.lower_char c)
           || item_has i (Str.upper_char (Str.lower_char c))
    end
  else item_has i c.

Definition atom_ok (f : flags) (a : atom) (c : ascii) : bool :=
  match a with
  | ASet cs => existsb (fun i => item_ok f i c) cs
  | ADot => negb (Ascii.eqb c LF)
  end.

Definition lit_ok (f : flags) (l c : ascii) : bool := item_ok f (Chr l) c.

Definition orelse {A} (x y : option A) : option A :=
  match x with Some _ => x | None => y end.

Definition at_bol (f : flags) (st : state) : bool :=
  match prev st with
  | None => true
  | Some c => multiline f && Ascii.eqb c LF
  end.

Definition at_eol (f : flags) (st : state) : bool :=
  match rest st with
  | EmptyString => true
  | String c EmptyString => Ascii.eqb c LF
  | String c _ => multiline f && Ascii.eqb c LF
  end.

(** The text between two positions of the same subject. *)
Definition consumed (before after : string) : string :=
  String.substring 0 (String.length before - String.length after) before.

Section Matcher.
Variable f : flags.
Context {R : Type}.

Fixpoint lit (s : string) (k : state -> option R)
    (p : option ascii) (g : option string) (t : string) : option R :=
  match s with
  | EmptyString => k {| prev := p; rest := t; grp := g |}
  | String l s' =>
      match t with
      | String c t' => if lit_ok f l c then lit s' k (Some c) g t' else None
      | EmptyString => None
      end
  end.

Definition decr (hi : option nat) : option nat := Nat.pred <$> hi.

Definition exhausted (hi : option nat) : bool :=
  match hi with Some O => true | _ => false end.

Fixpoint rep (ok : ascii -> bool) (greedy : bool) (lo : nat) (hi : option nat)
    (k : state -> option R)
    (p : option ascii) (g : option string) (t : string) : option R :=
  let stop := k {| prev := p; rest := t; grp := g |} in
  if exhausted hi then stop
  else
    let more :=
      match t with
      | String c t' =>
          if ok c then rep ok greedy (Nat.pred lo) (decr hi) k (Some c) g t'
          else None
      | EmptyString => None
      end in
    match lo with
    | S _ => more
    | O => if greedy then orelse more stop else orelse stop more
    end.

Fixpoint go (r : regex) (k : state -> option R) (st : state) : option R :=
  match r with
  | Lit s => lit s k (prev st) (grp st) (rest st)
  | One a => rep (atom_ok f a) true 1 (Some 1%nat) k (prev st) (grp st) (rest st)
  | Rep greedy lo hi a =>
      rep (atom_ok f a) greedy lo hi k (prev st) (grp st) (rest st)
  | Opt r' => orelse (go r' k st) (k st)
  | Cat r1 r2 => go r1 (go r2 k) st
  | Alt r1 r2 => orelse (go r1 k st) (go r2 k st)
  | Group r' =>
      go r' (fun st' =>
               k {| prev := prev st'; rest := rest st';
                    grp := Some (consumed (rest st) (rest st')) |}) st
  | Bol => if at_bol f st then k st else None
  | Eol => if at_eol f st then k st else None
  end.
End Matcher.

(** A match object, reduced to what the source reads from it: the text
    of group 1, [None] when the pattern has no such group. *)
Definition match_obj : Type := option string.

(** [re.match(r, s, flags)]: a match at the start of [s], if any. *)
Definition match_ (f : flags) (r : regex) (s : string) : option match_obj :=
  go f r (fun st => Some (grp st)) {| prev := None; rest := s; grp := None |}.

Fixpoint search_from (f : flags) (r : regex) (p : option ascii) (t : string)
    : option match_obj :=
  orelse
    (go f r (fun st => Some (grp st)) {| prev := p; rest := t; grp := None |})
    match t with
    | String c t' => search_from f r (Some c) t'
    | EmptyString => None
    end.

(** [re.search(r, s, flags)]: the match at the leftmost position. *)
Definition search (f : flags) (r : regex) (s : string) : option match_obj :=
  search_from f r None s.

Definition no_flags : flags := {| ignorecase := false; multiline := false |}.
Definition IM : flags := {| ignorecase := true; multiline := true |}.

(** Abbreviations for the patterns. *)
Definition chr (c : ascii) : atom := ASet [Chr c].
Definition dig : atom := ASet [Digit].
Definition spc : atom := ASet [Space].
Definition star (a : atom) : regex := Rep true 0 None a.
Definition plus (a : atom) : regex := Rep true 1 None a.
Definition plus_lazy (a : atom) : regex := Rep false 1 None a.
Definition opt (a : atom) : regex := Rep true 0 (Some 1%nat) a.
Definition times (lo hi : nat) (a : atom) : regex := Rep true lo (Some hi) a.

Fixpoint cat (rs : list regex) : regex :=
  match rs with
  | [] => Lit EmptyString
  | [r] => r
  | r :: rs' => Cat r (cat rs')
  end.

Fixpoint alt (rs : list regex) : regex :=
  match rs with
  | [] => Lit EmptyString
  | [r] => r
  | r :: rs' => Alt r (alt rs')
  end.

End Re.

(** ** Python floats holding decimal amounts *)

Module Float.

(** [Fin m e] is the number [m * 10^e]. Values are kept in normal form:
    [m] is not a multiple of ten, and zero is [Fin 0 0]. *)
Inductive pyfloat : Type :=
| Fin (m e : Z)
| PInf
| NInf
| NaN.

Fixpoint strip_zeros (fuel : nat) (m e : Z) : Z * Z :=
  match fuel with
  | O => (m, e)
  | S fuel' =>
      if m mod 10 =? 0 then strip_zeros fuel' (m / 10) (e + 1) else (m, e)
  end.

Definition normal (m e : Z) : pyfloat :=
  if m =? 0 then Fin 0 0
  else let '(m', e') := strip_zeros (S (Z.to_nat (Z.log2 (Z.abs m)))) m e in
       Fin m' e'.

Definition zero : pyfloat := Fin 0 0.

(** Both mantissas over the smaller of the two exponents. *)
Definition align (m1 e1 m2 e2 : Z) : Z * Z * Z :=
  let e0 := Z.min e1 e2 in
  (m1 * 10 ^ (e1 - e0), m2 * 10 ^ (e2 - e0), e0).

Definition neg (x : pyfloat) : pyfloat :=
  match x with
  | Fin m e => Fin (- m) e
  | PInf => NInf
  | NInf => PInf
  | NaN => NaN
  end.

Definition add (x y : pyfloat) : pyfloat :=
  match x, y with
  | NaN, _ | _, NaN => NaN
  | PInf, NInf | NInf, PInf => NaN
  | PInf, _ | _, PInf => PInf
  | NInf, _ | _, NInf => NInf
  | Fin m1 e1, Fin m2 e2 =>
      let '(a, b, e0) := align m1 e1 m2 e2 in normal (a + b) e0
  end.

Definition sub (x y : pyfloat) : pyfloat := add x (neg y).

Definition abs (x : pyfloat) : pyfloat :=
  match x with
  | Fin m e => Fin (Z.abs m) e
  | PInf | NInf => PInf
  | NaN => NaN
  end.

(** [x < y]; every comparison with NaN is false. *)
Definition ltb (x y : pyfloat) : bool :=
  match x, y with
  | NaN, _ | _, NaN => false
  | _, NInf => false
  | NInf, _ => true
  | PInf, _ => false
  | _, PInf => true
  | Fin m1 e1, Fin m2 e2 =>
      let '(a, b, _) := align m1 e1 m2 e2 in a <? b
  end.

(** Truth value of a float: [x != 0.0]. *)
Definition truthy (x : pyfloat) : bool :=
  match x with
  | Fin m _ => negb (m =? 0)
  | _ => true
  end.

(** *** [float(s)] on ASCII text

    As CPython's [PyFloat_FromString]: strip C white space; if the text
    has underscores, each must stand between two digits and they are
    dropped; then a decimal literal (sign, digits, fraction, exponent)
    or, failing digits, a spelling of infinity or NaN, and nothing may
    remain. [None] is the [ValueError]. *)

Fixpoint span_digits (s : string) : string * string :=
  match s with
  | String c s' =>
      if Str.is_digit c
      then let '(ds, r) := span_digits s' in (String c ds, r)
      else (EmptyString, s)
  | EmptyString => (EmptyString, EmptyString)
  end.

(** The number written by a string of digits, read from the left;
    [None] on any other character. The empty string writes zero. *)
Definition digit_of (c : ascii) : Z := Z.of_N (Str.code c) - 48.

Fixpoint digits_from (acc : Z) (ds : string) : option Z :=
  match ds with
  | EmptyString => Some acc
  | String c ds' =>
      if Str.is_digit c then digits_from (10 * acc + digit_of c) ds' else None
  end.

Definition digits_value (ds : string) : option Z := digits_from 0 ds.

Definition take_sign (s : string) : bool * string :=
  match s with
  | String "-" s' => (true, s')
  | String "+" s' => (false, s')
  | _ => (false, s)
  end.

Definition signed (negative : bool) (n : Z) : Z := if negative then - n else n.

(** The exponent part: [e] or [E], an optional sign and at least one
    digit; anything else is left unread, with exponent zero. *)
Definition take_exponent (s : string) : Z * string :=
  match s with
  | String c s' =>
      if Ascii.eqb c "e" || Ascii.eqb c "E" then
        let '(negative, s1) := take_sign s' in
        let '(ds, s2) := span_digits s1 in
        match ds, digits_value ds with
        | String _ _, Some n => (signed negative n, s2)
        | _, _ => (0, s)
        end
      else (0, s)
  | EmptyString => (0, s)
  end.

Definition take_fraction (s : string) : string * string :=
  match s with
  | String "." s' => span_digits s'
  | _ => (EmptyString, s)
  end.

(** A decimal literal that takes the whole of [s]. The outer [None]
    says that no digit was found, the inner one that text remains. *)
Definition parse_decimal (s : string) : option (option pyfloat) :=
  let '(negative, s0) := take_sign s in
  let '(ip, s1) := span_digits s0 in
  let '(fp, s2) := take_fraction s1 in
  match ip ++ fp with
  | EmptyString => None
  | all_digits =>
      let '(ex, s3) := take_exponent s2 in
      Some
        match s3, digits_value all_digits with
        | EmptyString, Some n =>
            Some (normal (signed negative n) (ex - Z.of_nat (String.length fp)))
        | _, _ => None
        end
  end.

Definition parse_inf_or_nan (s : string) : option pyfloat :=
  let '(negative, s0) := take_sign s in
  let w := Str.lower s0 in
  if String.eqb w "inf" || String.eqb w "infinity"
  then Some (if negative then NInf else PInf)
  else if String.eqb w "nan" then Some NaN
  else None.

Definition parse (s : string) : option pyfloat :=
  match parse_decimal s with
  | Some r => r
  | None => parse_inf_or_nan s
  end.

Definition is_underscore (c : ascii) : bool := Ascii.eqb c "_".

(** The placement check of [_Py_string_to_number_with_underscores]:
    an underscore only after a digit, only before a digit, and not
    last; [before] is the previous character. *)
Fixpoint underscores_ok (before : ascii) (s : string) : bool :=
  match s with
  | EmptyString => negb (is_underscore before)
  | String c s' =>
      (if is_underscore c then Str.is_digit before
       else negb (is_underscore before) || Str.is_digit c)
      && underscores_ok c s'
  end.

Definition py_float (s : string) : option pyfloat :=
  let s1 := Str.strip_with Str.is_c_space s in
  if Str.forallb (fun c => negb (is_underscore c)) s1 then parse s1
  else if underscores_ok "000" s1
       then parse (Str.filter (fun c => negb (is_underscore c)) s1)
       else None.

(** *** [repr(x)], which is [str(x)]

    As CPython's [float_repr] (format code [r]): the digits of the
    number, in fixed notation when the decimal point falls within
    [-4 < decpt <= 16] and in exponent notation otherwise. *)

Definition digits_of (n : Z) : string :=
  NilEmpty.string_of_uint (N.to_uint (Z.to_N n)).

Fixpoint zeros (n : nat) : string :=
  match n with
  | O => EmptyString
  | S k => String "0" (zeros k)
  end.

(** The exponent: a sign and at least two digits. *)
Definition exponent_text (x : Z) : string :=
  let ds := digits_of (Z.abs x) in
  (if x <? 0 then "-" else "+")
  ++ (if (String.length ds <? 2)%nat then "0" ++ ds else ds).

Definition scientific (ds : string) (decpt : Z) : string :=
  match ds with
  | String c EmptyString => String c EmptyString
  | String c more => String c ("." ++ more)
  | EmptyString => EmptyString
  end ++ "e" ++ exponent_text (decpt - 1).

Definition fixed (ds : string) (decpt : Z) : string :=
  let n := String.length ds in
  if decpt <=? 0 then "0." ++ zeros (Z.to_nat (- decpt)) ++ ds
  else if Z.of_nat n <=? decpt
       then ds ++ zeros (Z.to_nat decpt - n) ++ ".0"
       else String.substring 0 (Z.to_nat decpt) ds ++ "."
            ++ String.substring (Z.to_nat decpt) (n - Z.to_nat decpt) ds.

Definition repr_finite (m e : Z) : string :=
  let ds := digits_of (Z.abs m) in
  let decpt := Z.of_nat (String.length ds) + e in
  (if m <? 0 then "-" else "")
  ++ (if (decpt <=? -4) || (16 <? decpt) then scientific ds decpt
      else fixed ds decpt).

Definition float_repr (x : pyfloat) : string :=
  match x with
  | Fin m e => repr_finite m e
  | PInf => "inf"
  | NInf => "-inf"
  | NaN => "nan"
  end.

(** The normal form of a float: the mantissa is not a multiple of ten,
    and zero is [Fin 0 0]. *)
Definition is_normal (x : pyfloat) : Prop :=
  match x with
  | Fin m e => m = 0 /\ e = 0 \/ m mod 10 <> 0
  | _ => True
  end.

(** The characters that [float] and [clean_number] do not skip or drop. *)
Definition plain (c : ascii) : bool :=
  negb (Str.is_c_space c) && negb (is_underscore c)
  && negb (Ascii.eqb c "$" || Ascii.eqb c ",").

(** Whether a text does not go on with a digit. *)
Definition no_digit_next (s : string) : bool :=
  match s with
  | String c _ => negb (Str.is_digit c)
  | EmptyString => true
  end.

(** The sign that [repr] writes. *)
Definition sign_text (negative : bool) : string := if negative then "-" else "".

End Float.

(** ** Python values and dictionaries of the invoice model *)

Module Py.

Import Float.

(** A row of the line-item table: the dict that [extract_line_items]
    builds, whose three numbers are each a float or [None]. *)
Record line_item : Type := {
  description : string;
  quantity : option pyfloat;
  unit_price : option pyfloat;
  line_total : option pyfloat
}.

(** The values that the dicts of the model hold ([Dict[str, Any]]). *)
Inductive pyval : Type :=
| PNone
| PStr (s : string)
| PFloat (x : pyfloat)
| PItems (l : list line_item).

(** [bool(v)]. *)
Definition truthy (v : pyval) : bool :=
  match v with
  | PNone => false
  | PStr s => Str.truthy s
  | PFloat x => Float.truthy x
  | PItems l => match l with [] => false | _ => true end
  end.

(** Binary [+] and [-], [abs] and [<]; [None] is the [TypeError]. *)
Definition py_add (a b : pyval) : option pyval :=
  match a, b with
  | PFloat x, PFloat y => Some (PFloat (Float.add x y))
  | PStr x, PStr y => Some (PStr (x ++ y))
  | PItems x, PItems y => Some (PItems (x ++ y))
  | _, _ => None
  end.

Definition py_sub (a b : pyval) : option pyval :=
  match a, b with
  | PFloat x, PFloat y => Some (PFloat (Float.sub x y))
  | _, _ => None
  end.

Definition py_abs (a : pyval) : option pyval :=
  match a with
  | PFloat x => Some (PFloat (Float.abs x))
  | _ => None
  end.

Definition py_lt_float (a : pyval) (y : pyfloat) : option bool :=
  match a with
  | PFloat x => Some (Float.ltb x y)
  | _ => None
  end.

(** A dict in insertion order. *)
Definition dict (V : Type) : Type := list (string * V).

Fixpoint get {V} (d : dict V) (k : string) : option V :=
  match d with
  | [] => None
  | (k', v) :: d' => if String.eqb k' k then Some v else get d' k
  end.

(** [d[k] = v]: in place when the key is there, at the end otherwise. *)
Fixpoint set {V} (d : dict V) (k : string) (v : V) : dict V :=
  match d with
  | [] => [(k, v)]
  | (k', v') :: d' =>
      if String.eqb k' k then (k', v) :: d' else (k', v') :: set d' k v
  end.

(** [k in d]. *)
Definition has_key {V} (d : dict V) (k : string) : bool :=
  match get d k with Some _ => true | None => false end.

Definition keys {V} (d : dict V) : list string := List.map fst d.
Definition values {V} (d : dict V) : list V := List.map snd d.

(** [k in l] for a list of strings. *)
Definition mem (k : string) (l : list string) : bool :=
  existsb (String.eqb k) l.

End Py.

(** ** [InvoiceModel]: the pattern table *)

Module Patterns.

Import Re.

Definition nl : string := String LF EmptyString.

Definition AZ : item := Range "A" "Z".
Definition az : item := Range "a" "z".
Definition n09 : item := Range "0" "9".

(** [\s*], [#?], [:?], [\$?] and the separator runs [[:\s]*], [[:\s#]*]. *)
Definition ws : regex := star spc.
Definition hash_opt : regex := opt (chr "#").
Definition colon_opt : regex := opt (chr ":").
Definition dollar_opt : regex := opt (chr "$").
Definition sep : regex := star (ASet [Chr ":"; Space]).
Definition sep_hash : regex := star (ASet [Chr ":"; Space; Chr "#"]).

(** [([A-Z0-9\-]+)] *)
Definition ident : regex := Group (plus (ASet [AZ; n09; Chr "-"])).

(** The amount group: one or more of [[0-9,]], an optional point, any
    number of digits. *)
Definition amount : regex :=
  Group (cat [plus (ASet [n09; Chr ","]); opt (chr "."); star dig]).

(** [(\d{1,2}[\/\-]\d{1,2}[\/\-]\d{2,4})], and the same without the
    group as [validate_field] has it. *)
Definition date_body : regex :=
  cat [times 1 2 dig; One (ASet [Chr "/"; Chr "-"]); times 1 2 dig;
       One (ASet [Chr "/"; Chr "-"]); times 2 4 dig].
Definition date : regex := Group date_body.

(** [\s*#?\s*:?\s*] and [\s*:?\s*\$?] *)
Definition number_lead : regex := cat [ws; hash_opt; ws; colon_opt; ws].
Definition amount_lead : regex := cat [ws; colon_opt; ws; dollar_opt].

(** An optional [invoice] with white space, then [date\s*:?\s*]. *)
Definition date_lead : regex :=
  cat [Opt (cat [Lit "invoice"; ws]); Lit "date"; ws; colon_opt; ws].

(** [self.patterns], lines 13-102: the fields in the order of the dict,
    each with its patterns in order. *)
Definition patterns : list (string * list regex) :=
  [ ("vendor_name",
      [ (* l.16 *)
        cat [alt [Lit "from"; Lit "vendor"; Lit "company"; Lit "bill from";
                  Lit "sold by"];
             sep;
             Group (plus_lazy (ASet [AZ; az; n09; Space; Chr "&"; Chr ".";
                                     Chr ","; Chr "-"]));
             alt [Lit nl; Lit "address"; Lit "phone"; Lit "email"; Lit "tax"]];
        (* l.17 *)
        cat [Bol;
             Group (plus_lazy (ASet [AZ; az; n09; Space; Chr "&"; Chr ".";
                                     Chr ","; Chr "-"]));
             alt [cat [Lit nl; star ADot; Lit "address"]; Lit "phone";
                  Lit "email"]];
        (* l.18 *)
        Group (cat [One (ASet [AZ]);
                    plus (ASet [AZ; az; Space; Chr "&"; Chr "."; Chr ",";
                                Chr "-"]);
                    alt [Lit "inc"; Lit "llc"; Lit "ltd"; Lit "corp";
                         Lit "company"]]) ]);
    ("vendor_address",
      [ (* l.21 *)
        cat [alt [Lit "address"; Lit "addr"];
             sep;
             Group (plus_lazy (ASet [AZ; az; n09; Space; Chr ","; Chr ".";
                                     Chr "-"; Chr "#"]));
             alt [Lit (nl ++ nl); Lit "phone"; Lit "email"; Lit "tax";
                  Lit "invoice"]];
        (* l.22 *)
        Group (cat [plus dig; plus spc;
                    plus (ASet [AZ; az; Space; Chr ","; Chr "."; Chr "-"]);
                    times 5 5 dig]) ]);
    ("vendor_tax_id",
      [ (* l.25 *)
        cat [alt [cat [Lit "tax"; ws; Lit "id"]; Lit "gst"; Lit "vat";
                  Lit "ein"];
             sep_hash; ident];
        (* l.26 *)
        cat [alt [cat [Lit "federal"; ws; Lit "id"];
                  cat [Lit "employer"; ws; Lit "id"]];
             sep_hash; ident] ]);
    ("vendor_contact",
      [ (* l.29 *)
        cat [alt [Lit "phone"; Lit "tel"; Lit "contact"];
             sep;
             Group (plus (ASet [n09; Chr "-"; Chr "("; Chr ")"; Space;
                                Chr "+"]))];
        (* l.30 *)
        cat [alt [Lit "email"; Lit "e-mail"];
             sep;
             Group (plus (ASet [AZ; az; n09; Chr "@"; Chr "."; Chr "-";
                                Chr "_"]))] ]);
    ("invoice_number",
      [ (* l.35 *) cat [Lit "invoice"; number_lead; ident];
        (* l.36 *) cat [Lit "inv"; number_lead; ident];
        (* l.37 *) cat [Lit "#"; ws; ident];
        (* l.38 *) cat [Lit "invoice"; ws; Lit "number"; sep; ident] ]);
    ("invoice_date",
      [ (* l.41 *) cat [date_lead; date];
        (* l.42 *)
        cat [date_lead;
             Group (cat [plus (ASet [AZ; az]); plus spc; times 1 2 dig;
                         opt (chr ","); plus spc; times 4 4 dig])];
        (* l.43 *) date ]);
    ("due_date",
      [ (* l.46 *) cat [Lit "due"; ws; Lit "date"; ws; colon_opt; ws; date];
        (* l.47 *) cat [Lit "payment"; ws; Lit "due"; ws; colon_opt; ws; date] ]);
    ("po_number",
      [ (* l.50 *)
        cat [alt [Lit "po"; cat [Lit "purchase"; ws; Lit "order"]];
             number_lead; ident];
        (* l.51 *)
        cat [Lit "p"; opt (chr "."); Lit "o"; opt (chr "."); number_lead;
             ident] ]);
    ("payment_terms",
      [ (* l.54 *)
        cat [alt [cat [Lit "payment"; ws; Lit "terms"]; Lit "terms"];
             sep;
             Group (alt [cat [Lit "net"; ws; plus dig];
                         cat [Lit "due"; ws; Lit "on"; ws; Lit "receipt"];
                         plus (ASet [AZ; az; n09; Space])])];
        (* l.55 *)
        Group (cat [Lit "net"; ws; plus dig]) ]);
    ("subtotal",
      [ (* l.60 *) cat [Lit "subtotal"; amount_lead; amount];
        (* l.61 *) cat [Lit "sub"; ws; Lit "total"; amount_lead; amount] ]);
    ("tax_amount",
      [ (* l.64 *)
        cat [Lit "tax"; ws; Opt (Lit "amount"); amount_lead; amount];
        (* l.65 *)
        cat [alt [cat [Lit "sales"; ws; Lit "tax"]; Lit "vat"]; amount_lead;
             amount] ]);
    ("tax_rate",
      [ (* l.68 *)
        cat [Lit "tax"; ws; Opt (Lit "rate"); ws; colon_opt; ws;
             Group (plus (ASet [n09; Chr "."])); Lit "%"];
        (* l.69 *)
        cat [alt [cat [Lit "sales"; ws; Lit "tax"]; Lit "vat"]; ws;
             Opt (Lit "rate"); ws; colon_opt; ws;
             Group (plus (ASet [n09; Chr "."])); Lit "%"] ]);
    ("discount",
      [ (* l.72 *) cat [Lit "discount"; amount_lead; amount];
        (* l.73 *) cat [Lit "less"; amount_lead; amount] ]);
    ("shipping",
      [ (* l.76 *)
        cat [alt [Lit "shipping"; Lit "freight"; Lit "delivery"]; amount_lead;
             amount];
        (* l.77 *)
        cat [alt [Lit "handling"; Lit "ship"]; amount_lead; amount] ]);
    ("total",
      [ (* l.80 *)
        cat [Lit "total"; ws; Opt (Lit "amount"); ws; Opt (Lit "due");
             amount_lead; amount];
        (* l.81 *) cat [Lit "amount"; ws; Lit "due"; amount_lead; amount];
        (* l.82 *) cat [Lit "grand"; ws; Lit "total"; amount_lead; amount];
        (* l.83 *) cat [Lit "$"; amount] ]);
    ("currency",
      [ (* l.86 *)
        Group (alt [Lit "$"; Lit "USD"; Lit "EUR"; Lit "GBP"; Lit "CAD"]);
        (* l.87 *)
        cat [Lit "currency"; sep; Group (times 3 3 (ASet [AZ]))] ]);
    ("bank_details",
      [ (* l.92 *)
        cat [alt [Lit "bank"; Lit "routing"; Lit "account"]; ws;
             Opt (alt [Lit "number"; Lit "#"]); ws; colon_opt; ws;
             Group (plus (ASet [n09; Chr "-"]))];
        (* l.93 *)
        cat [alt [Lit "swift"; Lit "iban"]; ws; colon_opt; ws;
             Group (plus (ASet [AZ; n09]))] ]);
    ("notes",
      [ (* l.96 *)
        cat [alt [Lit "notes"; Lit "comments"; Lit "memo"];
             sep;
             Group (plus_lazy (ASet [AZ; az; n09; Space; Chr "."; Chr ",";
                                     Chr "-"]));
             alt [Lit (nl ++ nl); Eol]] ]);
    ("payment_method",
      [ (* l.99 *)
        cat [alt [cat [Lit "payment"; ws; Lit "method"];
                  cat [Lit "pay"; ws; Lit "via"]];
             sep;
             Group (plus (ASet [AZ; az; Space]))];
        (* l.100: no group *)
        alt [Lit "check"; Lit "cash"; Lit "credit"; Lit "wire"; Lit "ach"] ])
  ].

(** The pattern of [extract_line_items], line 147: between [^] and [$],
    an optional dollar sign and the shape of an amount. *)
Definition number_token : regex :=
  cat [Bol; dollar_opt; plus (ASet [n09; Chr ","]); opt (chr "."); star dig; Eol].

End Patterns.

(** ** [InvoiceModel]: extraction and validation *)

Module Invoice.

Import Float Py.

Local Open Scope Q_scope.

(** [clean_number], lines 159-168: [None] for a falsy value; otherwise
    [float] of [str(value)] without dollar signs and commas, and [None]
    when [float] raises. The text of a non-empty list starts with a
    bracket, which [float] refuses. *)
Definition remove_dollar_comma (s : string) : string :=
  Str.filter (fun c => negb (Ascii.eqb c "$" || Ascii.eqb c ",")) s.

Definition str (v : pyval) : option string :=
  match v with
  | PNone => Some "None"
  | PStr s => Some s
  | PFloat x => Some (float_repr x)
  | PItems _ => None
  end.

Definition clean_number (value : pyval) : option pyfloat :=
  if negb (truthy value) then None
  else match str value with
       | Some text => py_float (remove_dollar_comma text)
       | None => None
       end.

(** [extract_line_items], lines 131-157. *)
Definition headers : list string :=
  ["description"; "qty"; "quantity"; "price"; "total"; "amount"].

Definition is_number_token (p : string) : bool :=
  match Re.match_ Re.no_flags Patterns.number_token p with
  | Some _ => true
  | None => false
  end.

Definition line_item_of (line : string) : option line_item :=
  if negb (Str.truthy (Str.strip line))
     || existsb (fun header => Str.contains header (Str.lower line)) headers
  then None
  else
    let parts := Str.split line in
    if (3 <=? length parts)%nat then
      let numbers := List.filter is_number_token parts in
      if (2 <=? length numbers)%nat then
        Some {| description :=
                  Str.join " " (firstn (length parts - length numbers) parts);
                quantity := head numbers ≫= (fun n => clean_number (PStr n));
                unit_price :=
                  nth_error numbers (length numbers - 2)
                  ≫= (fun n => clean_number (PStr n));
                line_total := last numbers ≫= (fun n => clean_number (PStr n)) |}
      else None
    else None.

Definition extract_line_items (text : string) : list line_item :=
  firstn 10 (omap line_item_of (Str.split_char Re.LF text)).

(** [extract_fields], lines 112-129. For each field the first pattern
    that matches gives [match.group(1).strip()]; a pattern without a
    group raises [IndexError], which escapes ([None]). *)
Fixpoint first_match (patterns : list Re.regex) (text_lower : string)
    : option Re.match_obj :=
  match patterns with
  | [] => None
  | pattern :: more =>
      match Re.search Re.IM pattern text_lower with
      | Some m => Some m
      | None => first_match more text_lower
      end
  end.

Fixpoint extract_from (table : list (string * list Re.regex))
    (text_lower : string) (extracted : dict pyval) : option (dict pyval) :=
  match table with
  | [] => Some extracted
  | (field, patterns) :: more =>
      match first_match patterns text_lower with
      | None => extract_from more text_lower extracted
      | Some (Some group1) =>
          extract_from more text_lower
            (set extracted field (PStr (Str.strip group1)))
      | Some None => None
      end
  end.

Definition extract_fields (text : string) : option (dict pyval) :=
  let text_lower := Str.lower text in
  extracted ← extract_from Patterns.patterns text_lower [];
  let line_items := extract_line_items text in
  Some (if truthy (PItems line_items)
        then set extracted "line_items" (PItems line_items)
        else extracted).

(** [validate_field], lines 201-227. [validate_field_body] is the body
    of the [try]; [None] says that it raised: [re.match] on a value that
    is not a string is a [TypeError], and [upper] or [title] of one an
    [AttributeError]. *)
Definition amount_fields : list string :=
  ["subtotal"; "tax_amount"; "discount"; "shipping"; "total"].
Definition date_fields : list string := ["invoice_date"; "due_date"].

Definition validate_field_body (field : string) (value : pyval)
    : option (option pyval * Q) :=
  if mem field amount_fields then
    let cleaned := clean_number value in
    Some (PFloat <$> cleaned,
          if decide (cleaned = None) then 0.0 else 0.9)
  else if mem field date_fields then
    match value with
    | PStr text =>
        match Re.match_ Re.no_flags Patterns.date_body text with
        | Some _ => Some (Some value, 0.8)
        | None => Some (Some value, 0.5)
        end
    | _ => None
    end
  else if String.eqb field "invoice_number" then
    match value with
    | PStr text => Some (Some (PStr (Str.upper text)), 0.9)
    | _ => None
    end
  else if String.eqb field "vendor_name" then
    match value with
    | PStr text => Some (Some (PStr (Str.title text)), 0.7)
    | _ => None
    end
  else Some (Some value, 0.6).

Definition validate_field (field : string) (value : pyval) : option pyval * Q :=
  if negb (truthy value) then (None, 0.0)
  else match validate_field_body field value with
       | Some result => result
       | None => (Some value, 0.3)
       end.

(** [validate_mathematics], lines 229-261. The three flags start false
    and are set inside a [try] whose handler swallows every exception,
    so what was set before a raise stays. *)
Record math_validation : Type := {
  subtotal_tax_total_match : bool;
  line_items_sum_match : bool;
  calculations_correct : bool
}.

(** [data.get(key, 0) or 0]. *)
Definition get_or_zero (data : dict pyval) (key : string) : pyval :=
  match get data key with
  | Some v => if truthy v then v else PFloat zero
  | None => PFloat zero
  end.

Definition tolerance : pyfloat := Fin 1 (-2).

(** Lines 238-247: the subtotal, and whether
    [abs(subtotal + tax_amount + shipping - discount - total) < 0.01];
    [None] when the arithmetic raises. *)
Definition totals_match (data : dict pyval) : option (pyval * bool) :=
  let subtotal := get_or_zero data "subtotal" in
  let tax_amount := get_or_zero data "tax_amount" in
  let total := get_or_zero data "total" in
  let discount := get_or_zero data "discount" in
  let shipping := get_or_zero data "shipping" in
  a ← py_add subtotal tax_amount;
  b ← py_add a shipping;
  calculated_total ← py_sub b discount;
  difference ← py_sub calculated_total total;
  distance ← py_abs difference;
  close ← py_lt_float distance tolerance;
  Some (subtotal, close).

(** [item.get('line_total', 0) or 0] *)
Definition line_total_or_zero (item : line_item) : pyfloat :=
  match line_total item with
  | Some x => if Float.truthy x then x else zero
  | None => zero
  end.

(** [sum(...)] adds from the left, starting from zero. *)
Definition sum_line_totals (items : list line_item) : pyfloat :=
  fold_left (fun acc item => Float.add acc (line_total_or_zero item)) items zero.

(** Lines 250-254: whether the line totals add up to the subtotal;
    iterating a truthy value that is not a list of rows raises. *)
Definition line_items_match (data : dict pyval) (subtotal : pyval) : option bool :=
  match get data "line_items" with
  | None => Some false
  | Some line_items =>
      if negb (truthy line_items) then Some false
      else match line_items with
           | PItems items =>
               difference ← py_sub (PFloat (sum_line_totals items)) subtotal;
               distance ← py_abs difference;
               py_lt_float distance tolerance
           | _ => None
           end
  end.

Definition validate_mathematics (data : dict pyval) : math_validation :=
  match totals_match data with
  | None =>
      {| subtotal_tax_total_match := false; line_items_sum_match := false;
         calculations_correct := false |}
  | Some (subtotal, first_flag) =>
      match line_items_match data subtotal with
      | None =>
          {| subtotal_tax_total_match := first_flag;
             line_items_sum_match := false; calculations_correct := false |}
      | Some second_flag =>
          {| subtotal_tax_total_match := first_flag;
             line_items_sum_match := second_flag;
             calculations_correct := first_flag |}
      end
  end.

(** [round(x, 2)]: to the nearest hundredth, ties to the even one. *)
Definition round_half_even (q : Q) : Z :=
  let low := Qfloor q in
  match Qcompare (q - inject_Z low) (1 # 2) with
  | Lt => low
  | Gt => (low + 1)%Z
  | Eq => if Z.even low then low else (low + 1)%Z
  end.

Definition round2 (q : Q) : Q := Qred (inject_Z (round_half_even (q * 100)) / 100).

(** [min(1.0, x)]: the second argument when it is the smaller. *)
Definition min_one (x : Q) : Q := if Qlt_le_dec x 1 then x else 1.

Definition sum (l : list Q) : Q := fold_left Qplus l 0.

Definition required_fields : list string :=
  ["invoice_number"; "invoice_date"; "total"; "vendor_name"].

(** [calculate_overall_confidence], lines 263-281. *)
Definition calculate_overall_confidence
    (field_confidence : dict Q) (math : math_validation) : Q :=
  match field_confidence with
  | [] => 0.0
  | _ =>
      let base_confidence :=
        sum (values field_confidence)
        / inject_Z (Z.of_nat (length field_confidence)) in
      let math_boost := if calculations_correct math then 0.1 else 0.0 in
      let missing_penalty :=
        sum (List.map (fun _ => 0.05)
               (List.filter (fun field => negb (has_key field_confidence field))
                  required_fields)) in
      let final_confidence :=
        min_one (base_confidence + math_boost - missing_penalty) in
      round2 final_confidence
  end.

(** [get_missing_required_fields], lines 283-286. *)
Definition get_missing_required_fields (data : dict pyval) : list string :=
  List.filter
    (fun field =>
       match get data field with
       | None => true
       | Some v => negb (truthy v)
       end)
    required_fields.

(** [validate_extraction], lines 170-199. *)
Record validation_result : Type := {
  extracted_data : dict pyval;
  field_confidence : dict Q;
  math_validation_of : math_validation;
  overall_confidence : Q;
  missing_required_fields : list string
}.

(** The loop of lines 176-185, on the two dicts it fills. *)
Fixpoint validate_items (items : list (string * pyval))
    (validated : dict pyval) (confidence : dict Q) : dict pyval * dict Q :=
  match items with
  | [] => (validated, confidence)
  | (field, value) :: more =>
      if String.eqb field "line_items" then
        validate_items more
          (set validated field value)
          (set confidence field (if truthy value then 0.8 else 0.0))
      else
        match validate_field field value with
        | (Some cleaned_value, c) =>
            validate_items more (set validated field cleaned_value)
              (set confidence field c)
        | (None, _) => validate_items more validated confidence
        end
  end.

Definition validate_extraction (data : dict pyval) : validation_result :=
  let '(validated, confidence) := validate_items data [] [] in
  let math := validate_mathematics validated in
  {| extracted_data := validated;
     field_confidence := confidence;
     math_validation_of := math;
     overall_confidence := calculate_overall_confidence confidence math;
     missing_required_fields := get_missing_required_fields validated |}.

End Invoice.

(** ** [InMemoryRateLimiter] *)

Module RateLimiter.

(** The object: its two settings and the table [requests], a
    [defaultdict(deque)] from client address to the times of the
    requests let through, oldest first. *)
Record limiter : Type := {
  max_requests : Z;
  window_seconds : Z;
  requests : gmap string (list Z)
}.

(** [__init__], lines 11-14, and the global instance of line 56. *)
Definition init (max_requests window_hours : Z) : limiter :=
  {| max_requests := max_requests;
     window_seconds := window_hours * 3600;
     requests := ∅ |}.

Definition rate_limiter : limiter := init 10 24.

(** [self.requests[client_ip]]: the deque of the client, an empty one
    being made (and stored) for a client not seen before. *)
Definition deque_of (l : limiter) (client_ip : string) : list Z :=
  default [] (requests l !! client_ip).

Definition store (l : limiter) (client_ip : string) (q : list Z) : limiter :=
  {| max_requests := max_requests l;
     window_seconds := window_seconds l;
     requests := <[client_ip := q]> (requests l) |}.

(** The loop [while q and q[0] < cutoff: q.popleft()]. *)
Fixpoint popleft_while_old (cutoff : Z) (q : list Z) : list Z :=
  match q with
  | t :: q' => if t <? cutoff then popleft_while_old cutoff q' else q
  | [] => []
  end.

(** [str(n)] for an integer. *)
Definition str_int (n : Z) : string :=
  (if n <? 0 then "-" else "") ++ Float.digits_of (Z.abs n).

Definition limit_message (l : limiter) : string :=
  "Rate limit exceeded. Maximum " ++ str_int (max_requests l)
  ++ " requests per 24 hours.".

(** [is_allowed], lines 16-34, at time [now]. *)
Definition is_allowed (l : limiter) (client_ip : string) (now : Z)
    : (bool * option string) * limiter :=
  let client_requests :=
    popleft_while_old (now - window_seconds l) (deque_of l client_ip) in
  if max_requests l <=? Z.of_nat (length client_requests)
  then ((false, Some (limit_message l)), store l client_ip client_requests)
  else ((true, None), store l client_ip (client_requests ++ [now])).

(** [get_remaining_requests], lines 36-45, at time [now]. *)
Definition get_remaining_requests (l : limiter) (client_ip : string) (now : Z)
    : Z * limiter :=
  let client_requests :=
    popleft_while_old (now - window_seconds l) (deque_of l client_ip) in
  (Z.max 0 (max_requests l - Z.of_nat (length client_requests)),
   store l client_ip client_requests).

(** [get_reset_time], lines 47-53: it reads no clock. *)
Definition get_reset_time (l : limiter) (client_ip : string)
    : option Z * limiter :=
  let client_requests := deque_of l client_ip in
  (match client_requests with
   | [] => None
   | oldest :: _ => Some (oldest + window_seconds l)
   end,
   store l client_ip client_requests).

(** Requests of one client one after the other, at the times [ts]:
    whether all were let through, and the limiter after them. *)
Fixpoint admit_all (l : limiter) (client_ip : string) (ts : list Z)
    : bool * limiter :=
  match ts with
  | [] => (true, l)
  | t :: ts' =>
      let '((allowed, _), l') := is_allowed l client_ip t in
      let '(all_allowed, l'') := admit_all l' client_ip ts' in
      (allowed && all_allowed, l'')
  end.

End RateLimiter.

(** ** [DuplicateDetector] *)

Module DuplicateDetector.

Section Detector.

(** [hashlib.sha256(file_bytes).hexdigest()], and what an invoice record
    holds besides its invoice number. *)
Context {info : Type}.
Variable sha256 : list Byte.byte -> string.

(** The dict [invoice_data] as the detector reads it: [invoice_number]
    is [invoice_data.get('extracted_data', {}).get('invoice_number')],
    [None] when either key is missing. *)
Record invoice_data : Type := {
  invoice_number : option string;
  other_entries : info
}.

(** The dict stored for an invoice, lines 50-55. *)
Record entry : Type := {
  data : invoice_data;
  timestamp : Z;
  client_ip : string;
  content_hash : string
}.

Record detector : Type := {
  retention_seconds : Z;
  processed_invoices : gmap string entry;
  invoice_hashes : gmap string string;
  client_invoices : gmap string (gset string)
}.

(** [__init__], lines 13-17. *)
Definition init (retention_hours : Z) : detector :=
  {| retention_seconds := retention_hours * 3600;
     processed_invoices := ∅;
     invoice_hashes := ∅;
     client_invoices := ∅ |}.

Definition generate_content_hash (file_bytes : list Byte.byte) : string :=
  sha256 file_bytes.

(** One turn of the loop of lines 73-85: the entry under
    [invoice_number] is popped, its hash is forgotten, and the number
    leaves the set of its client, which is dropped when it gets empty. *)
Definition forget (d : detector) (number : string) : detector :=
  match processed_invoices d !! number with
  | None => d
  | Some e =>
      {| retention_seconds := retention_seconds d;
         processed_invoices := delete number (processed_invoices d);
         invoice_hashes := delete (content_hash e) (invoice_hashes d);
         client_invoices :=
           match client_invoices d !! client_ip e with
           | None => client_invoices d
           | Some numbers =>
               let numbers' := numbers ∖ {[number]} in
               if decide (numbers' = ∅)
               then delete (client_ip e) (client_invoices d)
               else <[client_ip e := numbers']> (client_invoices d)
           end |}
  end.

(** Lines 66-70: the numbers of the entries older than the cutoff. *)
Definition expired_invoices (d : detector) (cutoff : Z) : list string :=
  (map_to_list (filter (fun kv => timestamp kv.2 < cutoff) (processed_invoices d))).*1.

(** [_cleanup_old_entries], lines 61-85, at time [now]. *)
Definition _cleanup_old_entries (d : detector) (now : Z) : detector :=
  let cutoff := now - retention_seconds d in
  foldl forget d (expired_invoices d cutoff).

(** Truth value of [invoice_number]: there, and not empty. *)
Definition key_of (invoice : invoice_data) : option string :=
  match invoice_number invoice with
  | Some number => if Str.truthy number then Some number else None
  | None => None
  end.

(** Lines 36-39: a stored entry with the same content hash. *)
Definition by_content_hash (d : detector) (hash : string) : option entry :=
  previous_invoice ← invoice_hashes d !! hash;
  processed_invoices d !! previous_invoice.

(** Lines 42-46: an entry of the same client under the same number. *)
Definition by_invoice_number (d : detector) (ip number : string) : option entry :=
  if decide (number ∈ default ∅ (client_invoices d !! ip)) then
    e ← processed_invoices d !! number;
    if String.eqb (client_ip e) ip then Some e else None
  else None.

(** Lines 49-57. *)
Definition remember (d : detector) (ip number hash : string)
    (invoice : invoice_data) (now : Z) : detector :=
  {| retention_seconds := retention_seconds d;
     processed_invoices :=
       <[number := {| data := invoice; timestamp := now; client_ip := ip;
                      content_hash := hash |}]> (processed_invoices d);
     invoice_hashes := <[hash := number]> (invoice_hashes d);
     client_invoices :=
       <[ip := default ∅ (client_invoices d !! ip) ∪ {[number]}]>
         (client_invoices d) |}.

(** [check_duplicate], lines 23-59, at time [now]. *)
Definition check_duplicate (d : detector) (ip : string)
    (file_bytes : list Byte.byte) (invoice : invoice_data) (now : Z)
    : (bool * option entry) * detector :=
  let d1 := _cleanup_old_entries d now in
  let hash := generate_content_hash file_bytes in
  match by_content_hash d1 hash with
  | Some previous => ((true, Some previous), d1)
  | None =>
      match key_of invoice with
      | None => ((false, None), d1)
      | Some number =>
          match by_invoice_number d1 ip number with
          | Some previous => ((true, Some previous), d1)
          | None => ((false, None), remember d1 ip number hash invoice now)
          end
      end
  end.

(** *** Notions for the statements about the detector *)

(** Every stored entry is found again through its content hash. *)
Definition consistent (d : detector) : Prop :=
  forall number e,
    processed_invoices d !! number = Some e ->
    invoice_hashes d !! content_hash e = Some number.

(** The entry [first] is stored under [number] in a consistent
    detector whose retention is [retention]. *)
Definition holds (retention : Z) (number : string) (first : entry)
    (d : detector) : Prop :=
  consistent d /\ retention_seconds d = retention
  /\ processed_invoices d !! number = Some first.

(** A call of [check_duplicate]: its arguments and its time. *)
Record call : Type := {
  call_ip : string;
  call_bytes : list Byte.byte;
  call_invoice : invoice_data;
  call_time : Z
}.

Definition perform (d : detector) (c : call) : (bool * option entry) * detector :=
  check_duplicate d (call_ip c) (call_bytes c) (call_invoice c) (call_time c).

(** The detector after a sequence of calls. *)
Definition run_calls (d : detector) (calls : list call) : detector :=
  foldl (fun d c => (perform d c).2) d calls.

(** Whether one of the calls stores an entry under [number]: it is
    answered "no duplicate" and its invoice has that number. *)
Fixpoint stores_under (number : string) (d : detector) (calls : list call) : bool :=
  match calls with
  | [] => false
  | c :: more =>
      (negb (perform d c).1.1 && bool_decide (key_of (call_invoice c) = Some number))
      || stores_under number (perform d c).2 more
  end.

(** The detectors that calls can make of a new one. *)
Inductive reachable : detector -> Prop :=
| reachable_init retention_hours : reachable (init retention_hours)
| reachable_call d c : reachable d -> reachable (perform d c).2.

End Detector.

End DuplicateDetector.

(** ** Notions used in the statements *)

Module Notions.

Import Float Py Invoice.

(** A candidate map is well typed when what stands under [line_items]
    is a list of rows, as [extract_fields] makes it. *)
Definition rows_typed (data : dict pyval) : Prop :=
  Forall (fun kv => kv.1 = "line_items" -> exists rows, kv.2 = PItems rows) data.

(** The scores that [validate_field] gives to a value it keeps. *)
Definition kept_scores : list Q := [0.5; 0.6; 0.7; 0.8; 0.9]%Q.

(** What stands under [line_items] in the two dicts, together. *)
Definition rows_scored (validated : dict pyval) (confidence : dict Q) : Prop :=
  match get validated "line_items" with
  | Some v =>
      get confidence "line_items" = Some (if truthy v then 0.8 else 0.0)%Q
  | None => get confidence "line_items" = None
  end.

(** A candidate map with a row whose total disagrees with the subtotal. *)
Definition typed_example : dict pyval :=
  [("subtotal", PStr "100.00"); ("tax_amount", PStr "10.00");
   ("total", PStr "110.00");
   ("line_items",
    PItems [{| description := "Widget"; quantity := Some (Fin 2 0);
               unit_price := Some (Fin 45 0); line_total := Some (Fin 9 1) |}])].

(** The parts of the overall confidence, in exact arithmetic: the
    average of the scores, plus 0.10 when the calculations are correct,
    minus 0.05 for each required field without a score. *)
Definition average (confidence : dict Q) : Q :=
  (sum (values confidence) / inject_Z (Z.of_nat (length confidence)))%Q.

Definition count_missing (confidence : dict Q) : nat :=
  length (List.filter (fun field => negb (has_key confidence field))
            required_fields).

Definition raw_score (confidence : dict Q) (correct : bool) : Q :=
  (average confidence + (if correct then 0.1 else 0)
   - 0.05 * inject_Z (Z.of_nat (count_missing confidence)))%Q.

(** The example text of the specification. *)
Definition example_text : string :=
  "Invoice #: INV-2024-001" ++ Patterns.nl
  ++ "Date: 12/15/2024" ++ Patterns.nl
  ++ "Subtotal: $100.00" ++ Patterns.nl
  ++ "Tax: $10.00" ++ Patterns.nl
  ++ "Total: $110.00".

(** The global limiter after one request of a client at time 0. *)
Definition limiter_after_one_request : RateLimiter.limiter :=
  (RateLimiter.is_allowed RateLimiter.rate_limiter "1.2.3.4" 0).2.

(** Ten request times within one window. *)
Definition ten_times : list Z := [0; 1; 2; 3; 4; 5; 6; 7; 8; 9].

(** A stand-in for the digest in the examples: the bytes as text. *)
Definition bytes_as_text (b : list Byte.byte) : string :=
  string_of_list_byte b.

(** Two documents, and invoices with and without a number. *)
Definition document_1 : list Byte.byte := [Byte.x01].
Definition document_2 : list Byte.byte := [Byte.x02].

Definition invoice_A : @DuplicateDetector.invoice_data unit :=
  {| DuplicateDetector.invoice_number := Some "A";
     DuplicateDetector.other_entries := tt |}.

Definition invoice_without_number : @DuplicateDetector.invoice_data unit :=
  {| DuplicateDetector.invoice_number := None;
     DuplicateDetector.other_entries := tt |}.

(** The global detector (line 88) after the first submission, at time
    0, of [document_1] with [invoice_A] by the client 1.1.1.1. *)
Definition detector_after_first : @DuplicateDetector.detector unit :=
  (DuplicateDetector.check_duplicate bytes_as_text
     (DuplicateDetector.init 24) "1.1.1.1" document_1 invoice_A 0).2.

Definition first_entry : @DuplicateDetector.entry unit :=
  {| DuplicateDetector.data := invoice_A;
     DuplicateDetector.timestamp := 0;
     DuplicateDetector.client_ip := "1.1.1.1";
     DuplicateDetector.content_hash := bytes_as_text document_1 |}.

Definition invoice_B : @DuplicateDetector.invoice_data unit :=
  {| DuplicateDetector.invoice_number := Some "B";
     DuplicateDetector.other_entries := tt |}.

(** Another client submits another document at time 5. *)
Definition call_in_between : @DuplicateDetector.call unit :=
  {| DuplicateDetector.call_ip := "3.3.3.3";
     DuplicateDetector.call_bytes := document_2;
     DuplicateDetector.call_invoice := invoice_B;
     DuplicateDetector.call_time := 5 |}.

End Notions.

(** ** [file_validator.py] and [pdf_processor.is_pdf] *)

Module FileValidator.

(** [bytes] are lists of bytes; [==] on them. *)
Fixpoint bytes_eqb (a b : list Byte.byte) : bool :=
  match a, b with
  | [], [] => true
  | x :: a', y :: b' => Byte.eqb x y && bytes_eqb a' b'
  | _, _ => false
  end.

(** Lines 7 and 18. [ALLOWED_EXTENSIONS] is a set; the list gives its
    members, and membership is all that [validate_file] decides by. *)
Definition MAX_FILE_SIZE : Z := 10 * 1024 * 1024.

Definition ALLOWED_EXTENSIONS : list string :=
  [".pdf"; ".jpg"; ".jpeg"; ".png"; ".tiff"; ".tif"].

(** [get_file_extension], lines 39-41: a point and the last piece of
    [filename.split('.')] when the name has a point, the empty string
    otherwise. *)
Definition get_file_extension (filename : string) : string :=
  if Str.contains "." filename
  then "." ++ default "" (last (Str.split_char "." filename))
  else "".

(** The three refusals of [validate_file]. *)
Definition too_large_message (size : nat) : string :=
  "File size (" ++ RateLimiter.str_int (Z.of_nat size)
  ++ " bytes) exceeds 10MB limit".

Definition empty_message : string := "File is empty".

(** The text of the third refusal joins the members of the set in the
    order in which the set is iterated, [iteration_order]. *)
Definition unsupported_message (iteration_order : list string)
    (file_ext : string) : string :=
  "File type " ++ file_ext ++ " not supported. Allowed: "
  ++ Str.join ", " iteration_order.

(** [validate_file], lines 20-37. *)
Definition validate_file (iteration_order : list string)
    (file_bytes : list Byte.byte) (filename : string) : bool * option string :=
  if MAX_FILE_SIZE <? Z.of_nat (length file_bytes)
  then (false, Some (too_large_message (length file_bytes)))
  else if (length file_bytes =? 0)%nat then (false, Some empty_message)
  else
    let file_ext := Str.lower (get_file_extension filename) in
    if negb (Py.mem file_ext ALLOWED_EXTENSIONS)
    then (false, Some (unsupported_message iteration_order file_ext))
    else (true, None).

(** The magic numbers of lines 45-51. *)
Definition magic_pdf : list Byte.byte := [Byte.x25; Byte.x50; Byte.x44; Byte.x46].
Definition magic_jpeg : list Byte.byte := [Byte.xff; Byte.xd8].
Definition magic_png : list Byte.byte :=
  [Byte.x89; Byte.x50; Byte.x4e; Byte.x47; Byte.x0d; Byte.x0a; Byte.x1a; Byte.x0a].
Definition magic_tiff_little : list Byte.byte := [Byte.x49; Byte.x49].
Definition magic_tiff_big : list Byte.byte := [Byte.x4d; Byte.x4d].

(** [get_file_type], lines 43-54. *)
Definition get_file_type (file_bytes : list Byte.byte) : string :=
  if bytes_eqb (firstn 4 file_bytes) magic_pdf then "pdf"
  else if bytes_eqb (firstn 2 file_bytes) magic_jpeg then "jpeg"
  else if bytes_eqb (firstn 8 file_bytes) magic_png then "png"
  else if bytes_eqb (firstn 2 file_bytes) magic_tiff_little
          || bytes_eqb (firstn 2 file_bytes) magic_tiff_big then "tiff"
  else "unknown".

(** [pdf_processor.is_pdf], lines 11-13. *)
Definition is_pdf (file_bytes : list Byte.byte) : bool :=
  bytes_eqb (firstn 4 file_bytes) magic_pdf.

End FileValidator.

(** ** [extractor.calculate_confidence] *)

Module Extractor.

Import Py.

Local Open Scope Q_scope.

(** Lines 105-113. *)
Definition field_weights : list (string * Q) :=
  [("invoice_number", 0.2); ("invoice_date", 0.15); ("total", 0.2);
   ("vendor_name", 0.15); ("subtotal", 0.1); ("tax_amount", 0.1);
   ("line_items", 0.1)].

(** [field in data and data[field]] *)
Definition present (data : dict pyval) (field : string) : bool :=
  match get data field with
  | Some v => truthy v
  | None => false
  end.

(** The loop of lines 118-121, on [weighted_score] and [total_weight]. *)
Definition add_weights (data : dict pyval) (acc : Q * Q) (fw : string * Q)
    : Q * Q :=
  ((if present data fw.1 then acc.1 + fw.2 else acc.1), acc.2 + fw.2).

(** [calculate_confidence], lines 99-123. *)
Definition calculate_confidence (data : dict pyval) : Q :=
  match data with
  | [] => 0.0
  | _ =>
      let '(weighted_score, total_weight) :=
        fold_left (add_weights data) field_weights (0.0, 0.0) in
      if Qlt_le_dec 0 total_weight then weighted_score / total_weight else 0.0
  end.

(** [extract_invoice_data], lines 64-96, from the text that the PDF
    reader or the OCR gives: the candidate map, its validation, and the
    entry [data_quality] of the result. The timing and the file
    information are left out. *)
Record data_quality : Type := {
  has_line_items : bool;
  has_vendor_info : bool;
  has_financial_summary : bool;
  calculations_valid : bool
}.

Definition quality_of (r : Invoice.validation_result) : data_quality :=
  {| has_line_items := present (Invoice.extracted_data r) "line_items";
     has_vendor_info := present (Invoice.extracted_data r) "vendor_name";
     has_financial_summary := present (Invoice.extracted_data r) "total";
     calculations_valid :=
       Invoice.calculations_correct (Invoice.math_validation_of r) |}.

Definition analyse (raw_text : string)
    : option (Invoice.validation_result * data_quality) :=
  match Invoice.extract_fields raw_text with
  | Some extracted_fields =>
      let validation_result := Invoice.validate_extraction extracted_fields in
      Some (validation_result, quality_of validation_result)
  | None => None
  end.

End Extractor.

(** ** [main.py]: the handlers that use the limiter and the detector

    Each method of the limiter and of the detector reads the clock when
    it is called; a handler gets the times of its calls as arguments, in
    the order of the calls. What the handler does not compute itself is
    an argument too: what [await file.read()] gives ([None] when it
    raises), the outcome of [extract_invoice_data] on these bytes
    ([None] when it raises), whether a [JSONResponse] can be made of a
    record, and the export functions. A raised [HTTPException] is the
    response with its status; whatever is raised inside the [try] of a
    handler becomes the status 500. *)

Module Api.

Import RateLimiter.

Section Handlers.

Context {body : Type}.
Variable sha256 : list Byte.byte -> string.

(** The dict that [extract_invoice_data] returns, as the handlers use
    it: its invoice number, its other entries, and the entry
    [rate_limit_info] that [extract_invoice] adds (its
    [remaining_requests]; the limit and the window are constants). *)
Record payload : Type := {
  entries : body;
  rate_limit_info : option Z
}.

Definition invoice : Type := @DuplicateDetector.invoice_data payload.

(** [JSONResponse(content=...)] renders its content when it is made,
    with [json.dumps(..., allow_nan=False)], which raises for a float
    that is not finite: [renders] says whether a response can be made
    of a record. *)
Variable renders : invoice -> bool.

(** The global objects of [rate_limiter.py] and [duplicate_detector.py]. *)
Record state : Type := {
  the_limiter : limiter;
  the_detector : @DuplicateDetector.detector payload
}.

Inductive response : Type :=
| Http429 (detail : option string)
| Http400 (detail : string)
| Http500
| DuplicateDetected (previous : invoice) (previous_processing_time : Z)
| Extracted (extracted_data : invoice)
| Exported (media : string) (content : string).

(** [extracted_data["rate_limit_info"] = {...}], line 93. *)
Definition with_rate_limit_info (data : invoice) (remaining : Z) : invoice :=
  {| DuplicateDetector.invoice_number := DuplicateDetector.invoice_number data;
     DuplicateDetector.other_entries :=
       {| entries := entries (DuplicateDetector.other_entries data);
          rate_limit_info := Some remaining |} |}.

(** The dict of line 93 is the object that [check_duplicate] has stored
    under the invoice number, when it stored one: the stored entry
    changes with it. *)
Definition update_stored (d : @DuplicateDetector.detector payload)
    (data data' : invoice) : @DuplicateDetector.detector payload :=
  match DuplicateDetector.key_of data with
  | None => d
  | Some number =>
      {| DuplicateDetector.retention_seconds :=
           DuplicateDetector.retention_seconds d;
         DuplicateDetector.processed_invoices :=
           alter (fun e =>
                    {| DuplicateDetector.data := data';
                       DuplicateDetector.timestamp :=
                         DuplicateDetector.timestamp e;
                       DuplicateDetector.client_ip :=
                         DuplicateDetector.client_ip e;
                       DuplicateDetector.content_hash :=
                         DuplicateDetector.content_hash e |})
             number (DuplicateDetector.processed_invoices d);
         DuplicateDetector.invoice_hashes :=
           DuplicateDetector.invoice_hashes d;
         DuplicateDetector.client_invoices :=
           DuplicateDetector.client_invoices d |}
  end.

(** [extract_invoice], lines 58-102. [read] is what [await file.read()]
    gives and [extraction] what
    [extract_invoice_data(contents, file.filename, client_ip)] returns;
    [t_limit], [t_check] and [t_remaining] are the times at which
    [is_allowed], [check_duplicate] and [get_remaining_requests] read
    the clock. The response is made last: when that raises, the
    limiter and the detector have been written. *)
Definition extract_invoice (s : state) (client_ip : string)
    (read : option (list Byte.byte)) (extraction : option invoice)
    (t_limit t_check t_remaining : Z) : response * state :=
  let '((allowed, error_msg), l1) :=
    is_allowed (the_limiter s) client_ip t_limit in
  let s1 := {| the_limiter := l1; the_detector := the_detector s |} in
  if negb allowed then (Http429 error_msg, s1)
  else
    match read with
    | None => (Http500, s1)
    | Some contents =>
        match extraction with
        | None => (Http500, s1)
        | Some extracted_data =>
            let '((is_duplicate, previous_data), d1) :=
              DuplicateDetector.check_duplicate sha256 (the_detector s) client_ip
                contents extracted_data t_check in
            if is_duplicate then
              match previous_data with
              | Some previous =>
                  (if renders (DuplicateDetector.data previous)
                   then DuplicateDetected (DuplicateDetector.data previous)
                          (DuplicateDetector.timestamp previous)
                   else Http500,
                   {| the_limiter := l1; the_detector := d1 |})
              | None => (Http500, {| the_limiter := l1; the_detector := d1 |})
              end
            else
              let '(remaining, l2) :=
                get_remaining_requests l1 client_ip t_remaining in
              let extracted_data' :=
                with_rate_limit_info extracted_data remaining in
              (if renders extracted_data' then Extracted extracted_data'
               else Http500,
               {| the_limiter := l2;
                  the_detector :=
                    update_stored d1 extracted_data extracted_data' |})
        end
    end.

(** [export_data], lines 104-152. [export_to] stands for
    [export_to_json], [export_to_csv] and [export_to_excel], by the
    lower-cased format, followed by the making of the response; [None]
    when one of them raises. *)
Definition export_formats : list string := ["json"; "csv"; "excel"].

Definition media_type (format_lower : string) : string :=
  if String.eqb format_lower "json" then "application/json"
  else if String.eqb format_lower "csv" then "text/csv"
  else "application/vnd.openxmlformats-officedocument.spreadsheetml.sheet".

Definition export_data (export_to : string -> invoice -> option string)
    (s : state) (client_ip : string) (format : string)
    (read : option (list Byte.byte)) (extraction : option invoice) (now : Z)
    : response * state :=
  let '((allowed, error_msg), l1) := is_allowed (the_limiter s) client_ip now in
  let s1 := {| the_limiter := l1; the_detector := the_detector s |} in
  if negb allowed then (Http429 error_msg, s1)
  else if negb (Py.mem (Str.lower format) export_formats)
  then (Http400 "Format must be json, csv, or excel", s1)
  else
    match read, extraction with
    | Some _, Some extracted_data =>
        match export_to (Str.lower format) extracted_data with
        | None => (Http500, s1)
        | Some content => (Exported (media_type (Str.lower format)) content, s1)
        end
    | _, _ => (Http500, s1)
    end.



(** *** Notions for the statements about the handlers *)

(** A request to [/api/extract]: what it brings and the times of its
    three readings of the clock. *)
Record request : Type := {
  req_ip : string;
  req_read : option (list Byte.byte);
  req_extraction : option invoice;
  req_t_limit : Z;
  req_t_check : Z;
  req_t_remaining : Z
}.

Definition serve (s : state) (r : request) : response * state :=
  extract_invoice s (req_ip r) (req_read r) (req_extraction r)
    (req_t_limit r) (req_t_check r) (req_t_remaining r).


(** The invoice number under which a request makes the detector store
    an entry, if it does: the request is let through, the bytes are
    read and extracted, and the detector answers "no duplicate". *)
Definition stored_number (s : state) (r : request) : option string :=
  if (is_allowed (the_limiter s) (req_ip r) (req_t_limit r)).1.1 then
    match req_read r, req_extraction r with
    | Some contents, Some data =>
        if (DuplicateDetector.check_duplicate sha256 (the_detector s) (req_ip r)
              contents data (req_t_check r)).1.1
        then None
        else DuplicateDetector.key_of data
    | _, _ => None
    end
  else None.

(** Whether one of the requests stores an entry under [number]. *)
Fixpoint stores_under (number : string) (s : state) (rs : list request) : bool :=
  match rs with
  | [] => false
  | r :: more =>
      bool_decide (stored_number s r = Some number)
      || stores_under number (serve s r).2 more
  end.

End Handlers.

End Api.

(** ** Further notions for the statements *)

Module LimiterOps.

Import RateLimiter.

(** A call of one of the three methods of the limiter. *)
Inductive op : Type :=
| Admit (client_ip : string) (now : Z)
| Remaining (client_ip : string) (now : Z)
| ResetTime (client_ip : string).

Definition run_op (l : limiter) (o : op) : limiter :=
  match o with
  | Admit ip now => (is_allowed l ip now).2
  | Remaining ip now => (get_remaining_requests l ip now).2
  | ResetTime ip => (get_reset_time l ip).2
  end.

Definition run_ops (l : limiter) (ops : list op) : limiter :=
  foldl run_op l ops.

End LimiterOps.

Module DetectorNotions.

Import DuplicateDetector.

Section Notions.

Context {info : Type}.

(** Every stored entry stands, under its number, in the set of the
    client that sent it. *)
Definition indexed (d : @detector info) : Prop :=
  forall number e,
    processed_invoices d !! number = Some e ->
    number ∈ default ∅ (client_invoices d !! client_ip e).

(** The entry that a call stores. *)
Definition new_entry (ip : string) (hash : string)
    (invoice : @invoice_data info) (now : Z) : @entry info :=
  {| data := invoice; timestamp := now; client_ip := ip;
     content_hash := hash |}.

End Notions.

End DetectorNotions.

Module InvoiceNotions.

Import Float Py Invoice.

(** The scores that [validate_extraction] gives to a field it keeps
    other than [line_items]: those of [validate_field], with the score of
    its handler. *)
Definition field_scores : list Q := [0.3; 0.5; 0.6; 0.7; 0.8; 0.9]%Q.

(** The amount that [validate_mathematics] reads under [key] in a
    record whose amounts are floats: [data.get(key, 0) or 0]. *)
Definition amount_of (data : dict pyval) (key : string) : pyfloat :=
  match get data key with
  | Some (PFloat x) => if Float.truthy x then x else zero
  | _ => zero
  end.

(** In a validated record an amount field holds a float, and any other
    field but [line_items] a truthy value. *)
Definition cleaned (validated : dict pyval) : Prop :=
  Forall (fun kv =>
            if mem kv.1 amount_fields then exists x, kv.2 = PFloat x
            else kv.1 = "line_items" \/ truthy kv.2 = true)
         validated.

(** A score is that of an empty [line_items], or one of the field
    scores. *)
Definition scored (confidence : dict Q) : Prop :=
  Forall (fun kv => kv.1 = "line_items" /\ kv.2 = 0.0%Q \/ In kv.2 field_scores)
         confidence.

(** What stands under [line_items] in a candidate map is truthy, as
    [extract_fields] makes it. *)
Definition rows_not_empty (data : dict pyval) : Prop :=
  Forall (fun kv => kv.1 = "line_items" -> truthy kv.2 = true) data.

(** Every score is one of the field scores. *)
Definition well_scored (confidence : dict Q) : Prop :=
  Forall (fun kv => In kv.2 field_scores) confidence.

End InvoiceNotions.

Module ReNotions.

Import Re.

(** Every character of the rest of the subject, and of what group 1
    holds, satisfies [p]. *)
Definition made_of (p : ascii -> bool) (st : state) : Prop :=
  Str.forallb p (rest st) = true
  /\ forall g, grp st = Some g -> Str.forallb p g = true.

(** Whether every match of a pattern goes through a group. *)
Fixpoint sets_group (r : regex) : bool :=
  match r with
  | Group _ => true
  | Cat r1 r2 => sets_group r1 || sets_group r2
  | Alt r1 r2 => sets_group r1 && sets_group r2
  | _ => false
  end.

End ReNotions.

Module ExtractionNotions.

Import Py Invoice.

(** The fields of the pattern table, in its order. *)
Definition table_fields : list string := keys Patterns.patterns.

(** A candidate value as [extract_fields] makes them: under
    [line_items] between one and ten rows, under a field of the table a
    string. *)
Definition well_formed (field : string) (v : pyval) : Prop :=
  match v with
  | PItems rows => field = "line_items" /\ rows <> [] /\ (length rows <= 10)%nat
  | PStr _ => In field table_fields
  | _ => False
  end.

(** The two patterns of [payment_method], lines 99 and 100: the
    phrase with its group, and the words without one. *)
Definition payment_method_patterns : list Re.regex :=
  default [] (get Patterns.patterns "payment_method").

Definition payment_phrase : Re.regex :=
  hd (Re.Lit "") payment_method_patterns.

Definition payment_words : list string :=
  ["check"; "cash"; "credit"; "wire"; "ach"].

End ExtractionNotions.

Module ApiNotions.

Import Notions.

(** The state of a server that has just started, and an extraction
    result with the invoice number A. *)
Definition fresh_state : @Api.state unit :=
  {| Api.the_limiter := RateLimiter.rate_limiter;
     Api.the_detector := DuplicateDetector.init 24 |}.



(** Every record of the examples can be rendered. *)
Definition all_render : @Api.invoice unit -> bool := fun _ => true.




End ApiNotions.

(** ** Python [str] beyond ASCII, as far as [title] is concerned

    [Str] covers the characters below U+0080. Python's [str.title]
    works on all of Unicode, with the case mappings of the Unicode
    database, and one character can map to several. Here a character
    is an ASCII character or one of two others, with the mappings and
    the property Cased that the database gives them:
      - U+01F0, small j with caron: cased, its own lower case, and with
        the title case J followed by U+030C;
      - U+030C, combining caron: not cased, and its own lower and title
        case. *)

Module Unicode.

Inductive char : Type :=
| Basic (c : ascii)
| SmallJCaron
| CombiningCaron.

Definition str : Type := list char.

Definition of_string (s : string) : str := List.map Basic (list_ascii_of_string s).

(** [_PyUnicode_IsCased], [_PyUnicode_ToLowerFull] and
    [_PyUnicode_ToTitleFull]. *)
Definition is_cased (c : char) : bool :=
  match c with
  | Basic a => Str.is_cased a
  | SmallJCaron => true
  | CombiningCaron => false
  end.

Definition to_lower (c : char) : str :=
  match c with
  | Basic a => [Basic (Str.lower_char a)]
  | SmallJCaron => [SmallJCaron]
  | CombiningCaron => [CombiningCaron]
  end.

Definition to_title (c : char) : str :=
  match c with
  | Basic a => [Basic (Str.upper_char a)]
  | SmallJCaron => [Basic "J"; CombiningCaron]
  | CombiningCaron => [CombiningCaron]
  end.

(** [s.title()], CPython's [do_title]: the flag is the property Cased
    of the character read, not of what it was mapped to. *)
Fixpoint title_from (previous_is_cased : bool) (s : str) : str :=
  match s with
  | [] => []
  | c :: s' =>
      ((if previous_is_cased then to_lower c else to_title c)
       ++ title_from (is_cased c) s')%list
  end.

Definition title (s : str) : str := title_from false s.

Definition truthy (s : str) : bool :=
  match s with [] => false | _ => true end.

(** [validate_field('vendor_name', value)] for a string [value], lines
    203-204 and 219-221: the field is neither an amount, nor a date,
    nor the invoice number, and [title] does not raise. *)
Definition validate_vendor_name (value : str) : option str * Q :=
  if negb (truthy value) then (None, 0.0%Q)
  else (Some (title value), 0.7%Q).

End Unicode.

(** ** Binary floating point: Python [float] as IEEE 754 binary64

    The operations are those of the Standard Library's specification of
    IEEE 754 arithmetic ([SpecFloat]), at the precision and the exponent
    range of binary64, with rounding to nearest, ties to even. *)

Module Binary64.

Definition prec : Z := 53.
Definition emax : Z := 1024.

Definition float : Type := spec_float.

Definition zero : float := S754_zero false.

Definition add : float -> float -> float := SFadd prec emax.
Definition sub : float -> float -> float := SFsub prec emax.
Definition div : float -> float -> float := SFdiv prec emax.
Definition ltb : float -> float -> bool := SFltb.

(** [float(n)] for an [int]. *)
Definition of_Z (n : Z) : float := binary_normalize prec emax n 0 false.

(** The float nearest to a rational number, ties to even: what a decimal
    literal denotes. *)
Definition nearest (negative : bool) (p q : positive) : float :=
  let '(m, e, l) := SFdiv_core_binary prec emax (Zpos p) 0 (Zpos q) 0 in
  binary_round_aux prec emax negative m e l.

Definition of_Q (q : Q) : float :=
  match Qnum q with
  | Z0 => zero
  | Zpos p => nearest false p (Qden q)
  | Zneg p => nearest true p (Qden q)
  end.

(** The number that a finite float is. *)
Definition to_Q (x : float) : Q :=
  match x with
  | S754_finite s m e =>
      (inject_Z (if s then Zneg m else Zpos m) * Qpower 2 e)%Q
  | _ => 0%Q
  end.

(** [round(x, 2)]: the exact value of [x] is rounded to the nearest
    hundredth, ties to the even one, and the result is the float nearest
    to that decimal; a result of zero keeps the sign of [x], and an
    infinity or NaN is returned as it is. *)
Definition round2 (x : float) : float :=
  match x with
  | S754_finite s m e =>
      match Invoice.round_half_even (to_Q x * 100) with
      | Z0 => S754_zero s
      | n => of_Q (n # 100)
      end
  | _ => x
  end.

(** [sum(xs)]: the additions are made from the left, starting from the
    [int] 0, which is 0.0 for the first addition (CPython up to 3.11;
    later versions compensate the rounding errors of the additions). *)
Definition sum (xs : list float) : float := fold_left add xs zero.

(** [min(1.0, x)] and [max(0.0, x)]: the first argument is kept unless
    the second is smaller, or greater. *)
Definition one : float := of_Q 1.
Definition min_one (x : float) : float := if ltb x one then x else one.

End Binary64.

(** ** [calculate_overall_confidence] in binary floating point

    [Invoice.calculate_overall_confidence] above is the computation in
    exact decimal arithmetic. Python computes it in binary64, where the
    sums and the quotient are rounded and a tie of [round] is decided
    on the rounded value; the two can differ in the last decimal. This
    is the computation as Python makes it. A score of the confidence
    map is the float that its decimal denotes. *)

Module FloatInvoice.

Import Py Invoice Binary64.

(** [calculate_overall_confidence], lines 263-281. *)
Definition calculate_overall_confidence
    (field_confidence : dict Q) (math : math_validation) : float :=
  match field_confidence with
  | [] => of_Q 0.0
  | _ =>
      let base_confidence :=
        div (sum (List.map of_Q (values field_confidence)))
            (of_Z (Z.of_nat (length field_confidence))) in
      let math_boost :=
        if calculations_correct math then of_Q 0.1 else of_Q 0.0 in
      let missing_penalty :=
        sum (List.map (fun _ => of_Q 0.05)
               (List.filter (fun field => negb (has_key field_confidence field))
                  required_fields)) in
      let final_confidence :=
        min_one (sub (add base_confidence math_boost) missing_penalty) in
      round2 final_confidence
  end.

(** *** The overall confidence in the words of the specification

    The average of the scores, plus 0.10 when the calculations are
    correct, minus 0.05 for each required field without a score (the
    penalties are added up first), clamped to [0, 1] and rounded to two
    decimals; exactly 0.0 for an empty map. *)
Definition average (confidence : dict Q) : float :=
  div (sum (List.map of_Q (values confidence)))
      (of_Z (Z.of_nat (length confidence))).

Definition penalties (missing : nat) : float :=
  sum (repeat (of_Q 0.05) missing).

Definition raw_score (confidence : dict Q) (correct : bool) : float :=
  sub (add (average confidence) (if correct then of_Q 0.1 else of_Q 0.0))
      (penalties (Notions.count_missing confidence)).



End FloatInvoice.

(** * Properties *)

Module PyFacts.

Import Py.

Lemma get_set_eq {V} (d : dict V) k v : get (set d k v) k = Some v.
Proof.
  induction d as [|[k' v'] d IH]; simpl.
  - by rewrite String.eqb_refl.
  - destruct (String.eqb k' k) eqn:E; simpl; rewrite E; done.
Qed.

Lemma get_set_ne {V} (d : dict V) k k' v : k <> k' -> get (set d k v) k' = get d k'.
Proof.
  intros Hne. induction d as [|[k0 v0] d IH]; simpl.
  - destruct (String.eqb k k') eqn:E; [|done].
    apply String.eqb_eq in E. congruence.
  - destruct (String.eqb k0 k) eqn:E; simpl.
    + apply String.eqb_eq in E. subst k0.
      destruct (String.eqb k k') eqn:E'; [|done].
      apply String.eqb_eq in E'. congruence.
    + by rewrite IH.
Qed.

(** The keys after [d[k] = v] depend on the keys before it alone. *)
Lemma keys_set {V} (d : dict V) k v :
  keys (set d k v) = if mem k (keys d) then keys d else (keys d ++ [k])%list.
Proof.
  unfold keys, mem. induction d as [|[k' v'] d IH]; simpl; [done|].
  rewrite (String.eqb_sym k k').
  destruct (String.eqb k' k) eqn:E; simpl; [done|].
  rewrite IH. by destruct (existsb _ _).
Qed.

Lemma Forall_set {V} (P : string * V -> Prop) (d : dict V) k v :
  Forall P d -> P (k, v) -> Forall P (set d k v).
Proof.
  intros Hd Hkv. induction Hd as [|[k' v'] d Hx Hd IH]; simpl.
  - by constructor.
  - destruct (String.eqb k' k) eqn:E.
    + apply String.eqb_eq in E. subst k'. by constructor.
    + by constructor.
Qed.

Lemma get_Forall {V} (P : string * V -> Prop) (d : dict V) k v :
  Forall P d -> get d k = Some v -> P (k, v).
Proof.
  induction 1 as [|[k' v'] d Hx Hd IH]; simpl; [done|].
  destruct (String.eqb k' k) eqn:E.
  - apply String.eqb_eq in E. subst k'. by intros [= ->].
  - done.
Qed.

End PyFacts.

Module InvoiceFacts.

Import Float Py Invoice Notions PyFacts.
Local Open Scope Q_scope.

Lemma has_key_keys {V} (d : dict V) k : has_key d k = mem k (keys d).
Proof.
  unfold has_key, mem, keys. induction d as [|[k' v'] d IH]; simpl; [done|].
  rewrite (String.eqb_sym k k'). by destruct (String.eqb k' k).
Qed.

(** *** The loop of [validate_extraction] *)

Lemma validate_items_keys items : forall validated confidence,
  keys validated = keys confidence ->
  keys (validate_items items validated confidence).1
  = keys (validate_items items validated confidence).2.
Proof.
  induction items as [|[field value] items IH]; intros validated confidence Hk;
    simpl; [done|].
  destruct (String.eqb field "line_items").
  - apply IH. by rewrite !keys_set, Hk.
  - destruct (validate_field field value) as [[cleaned|] c].
    + apply IH. by rewrite !keys_set, Hk.
    + by apply IH.
Qed.

Lemma validate_items_rows items : forall validated confidence,
  rows_scored validated confidence ->
  rows_scored (validate_items items validated confidence).1
              (validate_items items validated confidence).2.
Proof.
  induction items as [|[field value] items IH]; intros validated confidence Hr;
    simpl; [done|].
  destruct (String.eqb field "line_items") eqn:E.
  - apply String.eqb_eq in E. subst field. apply IH.
    unfold rows_scored. by rewrite !get_set_eq.
  - apply String.eqb_neq in E.
    destruct (validate_field field value) as [[cleaned|] c]; apply IH; [|done].
    unfold rows_scored. by rewrite !get_set_ne.
Qed.

Lemma validate_items_typed items : forall validated confidence,
  rows_typed items -> rows_typed validated ->
  rows_typed (validate_items items validated confidence).1.
Proof.
  induction items as [|[field value] items IH]; intros validated confidence Hi Hv;
    simpl; [done|].
  inversion Hi as [|? ? Hfv Hi']; subst.
  destruct (String.eqb field "line_items") eqn:E.
  - apply IH; [done|]. apply Forall_set; [done|].
    apply String.eqb_eq in E. by intros _; apply Hfv.
  - apply String.eqb_neq in E.
    destruct (validate_field field value) as [[cleaned|] c]; apply IH; try done.
    apply Forall_set; [done|]. simpl. by intros ?.
Qed.

(** *** [validate_mathematics] *)

Lemma py_add_float a b x : py_add a b = Some (PFloat x) ->
  exists y z, a = PFloat y /\ b = PFloat z.
Proof. destruct a, b; simpl; intros [=]; eauto. Qed.

Lemma py_sub_float a b r : py_sub a b = Some r ->
  exists y z, a = PFloat y /\ b = PFloat z.
Proof. destruct a, b; simpl; intros [=]; eauto. Qed.

Lemma totals_match_subtotal data subtotal flag :
  totals_match data = Some (subtotal, flag) -> exists x, subtotal = PFloat x.
Proof.
  unfold totals_match.
  destruct (py_add (get_or_zero data "subtotal") _) as [a|] eqn:Ha; [|done].
  simpl. destruct (py_add a _) as [b|] eqn:Hb; [|done].
  simpl. destruct (py_sub b _) as [c|] eqn:Hc; [|done].
  simpl. destruct (py_sub c _) as [dd|] eqn:Hd; [|done].
  simpl. destruct (py_abs dd) as [e|] eqn:He; [|done].
  simpl. destruct (py_lt_float e _) as [f|] eqn:Hf; [|done].
  simpl. intros [= <- <-].
  apply py_sub_float in Hc as (y & z & -> & _).
  apply py_add_float in Hb as (y' & z' & -> & _).
  apply py_add_float in Ha as (y'' & z'' & -> & _). eauto.
Qed.

Lemma line_items_match_typed data x :
  rows_typed data -> is_Some (line_items_match data (PFloat x)).
Proof.
  intros Ht. unfold line_items_match.
  destruct (get data "line_items") as [v|] eqn:Hg; [|eauto].
  destruct (get_Forall _ _ _ _ Ht Hg eq_refl) as [rows Hrows].
  simpl in Hrows. subst v.
  destruct (truthy (PItems rows)); simpl; eauto.
Qed.

Lemma validate_mathematics_typed data :
  rows_typed data ->
  calculations_correct (validate_mathematics data)
  = subtotal_tax_total_match (validate_mathematics data).
Proof.
  intros Ht. unfold validate_mathematics.
  destruct (totals_match data) as [[subtotal flag]|] eqn:Hm; [|done].
  destruct (totals_match_subtotal _ _ _ Hm) as [x ->].
  by destruct (line_items_match_typed data x Ht) as [b ->].
Qed.

(** C2. For every validated record, that is for the record that
    [validate_extraction] makes of a candidate map whose [line_items]
    entry, if any, is a list of rows, the math validation has
    [calculations_correct] equal to [subtotal_tax_total_match], whatever
    [line_items_sum_match] is. *)
Theorem calculations_correct_is_total_match (data : dict pyval) :
  rows_typed data ->
  let math := math_validation_of (validate_extraction data) in
  calculations_correct math = subtotal_tax_total_match math.
Proof.
  intros Ht. unfold validate_extraction.
  pose proof (validate_items_typed data [] [] Ht (List.Forall_nil _)) as Hv.
  destruct (validate_items data [] []) as [validated confidence]. simpl in *.
  by apply validate_mathematics_typed.
Qed.

(** C8. For every candidate map the record and the confidence map that
    [validate_extraction] returns have the same keys, in the same order;
    and when the record has a [line_items] entry its confidence is 0.8
    if that value is truthy (a non-empty list) and 0.0 otherwise. *)
Theorem validated_keys_are_confidence_keys (data : dict pyval) :
  let r := validate_extraction data in
  keys (extracted_data r) = keys (field_confidence r)
  /\ (forall field, has_key (extracted_data r) field
                    = has_key (field_confidence r) field)
  /\ (forall v, get (extracted_data r) "line_items" = Some v ->
        get (field_confidence r) "line_items"
        = Some (if truthy v then 0.8 else 0.0)).
Proof.
  unfold validate_extraction.
  pose proof (validate_items_keys data [] [] eq_refl) as Hk.
  pose proof (validate_items_rows data [] [] eq_refl) as Hr.
  destruct (validate_items data [] []) as [validated confidence]. simpl in *.
  split; [done|]. split.
  - intros field. by rewrite !has_key_keys, Hk.
  - intros v Hv. unfold rows_scored in Hr. by rewrite Hv in Hr.
Qed.

Lemma calculations_correct_is_total_match_witness :
  rows_typed typed_example
  /\ calculations_correct (math_validation_of (validate_extraction typed_example))
     = subtotal_tax_total_match
         (math_validation_of (validate_extraction typed_example)).
Proof.
  assert (Ht : rows_typed typed_example).
  { repeat constructor; simpl; intros; try discriminate; eauto. }
  split; [exact Ht|]. exact (calculations_correct_is_total_match typed_example Ht).
Defined.

(** The aggregate flag can be true while the line items disagree. *)
Example line_items_do_not_gate :
  math_validation_of (validate_extraction typed_example)
  = {| subtotal_tax_total_match := true; line_items_sum_match := false;
       calculations_correct := true |}.
Proof. vm_compute. reflexivity. Qed.

Lemma validate_field_body_on_strings field text :
  exists v c,
    validate_field_body field (PStr text) = Some (v, c)
    /\ (v = None /\ c = 0.0 \/ is_Some v /\ In c kept_scores).
Proof.
  unfold validate_field_body, kept_scores.
  destruct (mem field amount_fields).
  { destruct (clean_number (PStr text)) as [x|]; do 2 eexists; (split; [done|]);
      [right|left]; simpl; eauto 10. }
  destruct (mem field date_fields).
  { destruct (Re.match_ _ _ _); do 2 eexists; (split; [done|]);
      right; simpl; eauto 10. }
  destruct (String.eqb field "invoice_number").
  { do 2 eexists; (split; [done|]); right; simpl; eauto 10. }
  destruct (String.eqb field "vendor_name");
    do 2 eexists; (split; [done|]); right; simpl; eauto 10.
Qed.

(** C10. For every field name and every string candidate the body of
    the [try] in [validate_field] returns (it raises nothing, so the
    handler that would keep the value at 0.3 is not reached);
    [clean_number] of a string is [None] or the float that [float]
    reads, a [ValueError] being caught; and the confidence is one of
    0.5, 0.6, 0.7, 0.8, 0.9 when a value is kept, and 0.0 with no value
    otherwise. *)
Theorem validate_field_total_on_strings (field text : string) :
  (exists result,
     validate_field_body field (PStr text) = Some result
     /\ validate_field field (PStr text)
        = if Str.truthy text then result else (None, 0.0))
  /\ clean_number (PStr text)
     = (if Str.truthy text then py_float (remove_dollar_comma text) else None)
  /\ match validate_field field (PStr text) with
     | (Some _, c) => In c kept_scores
     | (None, c) => c = 0.0
     end.
Proof.
  destruct (validate_field_body_on_strings field text) as (v & c & Hbody & Hvc).
  split; [|split].
  - exists (v, c). split; [done|].
    unfold validate_field. rewrite Hbody. simpl. by destruct (Str.truthy text).
  - unfold clean_number. simpl. by destruct (Str.truthy text).
  - unfold validate_field. rewrite Hbody. simpl.
    destruct (Str.truthy text); simpl; [|done].
    destruct Hvc as [[-> ->]|[[w ->] Hc]]; done.
Qed.

(** A candidate that is not a string does reach the handler. *)
Example fallback_for_a_number :
  validate_field "invoice_number" (PFloat (Fin 5 0)) = (Some (PFloat (Fin 5 0)), 0.3).
Proof. reflexivity. Qed.

End InvoiceFacts.

Module ConfidenceFacts.
Import Float Py Invoice Notions PyFacts.
Local Open Scope Q_scope.

(** *** Rounding and the cap *)

Lemma round_half_even_comp q q' : q == q' -> round_half_even q = round_half_even q'.
Proof.
  intros Hq. unfold round_half_even.
  assert (Hf : Qfloor q = Qfloor q') by (by apply Qfloor_comp).
  rewrite Hf.
  assert (Hc : Qcompare (q - inject_Z (Qfloor q')) (1 # 2)
               = Qcompare (q' - inject_Z (Qfloor q')) (1 # 2)).
  { apply Qcompare_comp; [by rewrite Hq | reflexivity]. }
  by rewrite Hc.
Qed.

Lemma round2_comp q q' : q == q' -> round2 q = round2 q'.
Proof.
  intros Hq. unfold round2.
  rewrite (round_half_even_comp (q * 100) (q' * 100)); [done|]. by rewrite Hq.
Qed.

Lemma round_half_even_le q (n : Z) : q <= inject_Z n -> (round_half_even q <= n)%Z.
Proof.
  intros Hq. unfold round_half_even.
  assert (Hlow : (Qfloor q <= n)%Z).
  { rewrite <- (Qfloor_Z n). by apply Qfloor_resp_le. }
  destruct (Z.eq_dec (Qfloor q) n) as [Heq|Hne].
  - assert (Hc : Qcompare (q - inject_Z (Qfloor q)) (1 # 2) = Lt).
    { rewrite <- Qlt_alt. rewrite Heq. lra. }
    rewrite Hc. lia.
  - destruct (Qcompare _ _); [destruct (Z.even _)| |]; lia.
Qed.

Lemma round2_le_1 q : q <= 1 -> round2 q <= 1.
Proof.
  intros Hq. unfold round2. rewrite Qred_correct.
  assert (Hn : (round_half_even (q * 100) <= 100)%Z).
  { apply round_half_even_le. change (inject_Z 100) with 100. lra. }
  apply Qle_shift_div_r; [lra|]. rewrite Zle_Qle in Hn.
  change (inject_Z 100) with 100 in Hn. lra.
Qed.

Lemma min_one_Qmin x : min_one x == Qmin 1 x.
Proof.
  unfold min_one. destruct (Qlt_le_dec x 1) as [H|H].
  - rewrite Q.min_r; [reflexivity | lra].
  - rewrite Q.min_l; [reflexivity | lra].
Qed.

(** *** The penalty: a sum of 0.05 over the missing fields *)

Lemma sum_from (l : list Q) (a : Q) : fold_left Qplus l a == a + sum l.
Proof.
  unfold sum. revert a. induction l as [|x l IH]; intros a; cbn [fold_left]; [lra|].
  pose proof (IH (a + x)) as H1. pose proof (IH (0 + x)) as H2. lra.
Qed.

Lemma sum_constant {A} (c : Q) (l : list A) :
  sum (List.map (fun _ => c) l) == c * inject_Z (Z.of_nat (length l)).
Proof.
  induction l as [|x l IH]; [unfold sum; cbn [List.map fold_left length]; change (inject_Z (Z.of_nat 0)) with 0; lra|].
  unfold sum. cbn [List.map fold_left length].
  pose proof (sum_from (List.map (fun _ => c) l) (0 + c)) as Hs.
  rewrite Nat2Z.inj_succ, <- Z.add_1_r, inject_Z_plus.
  change (inject_Z 1) with 1. lra.
Qed.

Lemma final_confidence_raw_score confidence math :
  sum (values confidence) / inject_Z (Z.of_nat (length confidence))
  + (if calculations_correct math then 0.1 else 0.0)
  - sum (List.map (fun _ => 0.05)
           (List.filter (fun field => negb (has_key confidence field))
              required_fields))
  == raw_score confidence (calculations_correct math).
Proof.
  unfold raw_score, average, count_missing. rewrite sum_constant.
  destruct (calculations_correct math); lra.
Qed.

(** *** The overall confidence in binary floating point *)





(** Exact and binary arithmetic part at a tie. For the scores 0.7, 0.9,
    0.8 and 0.9 of the four required fields, with calculations that are
    not correct, the exact average is 0.825, which is rounded to the
    even 0.82; the sum of the floats is the float after 3.3, the quotient
    is above the tie, and Python's result is 0.83. *)
Example binary_rounding_at_a_tie :
  let confidence :=
    [("vendor_name", 0.7); ("invoice_number", 0.9); ("invoice_date", 0.8);
     ("total", 0.9)] in
  let math :=
    {| subtotal_tax_total_match := false; line_items_sum_match := false;
       calculations_correct := false |} in
  FloatInvoice.calculate_overall_confidence confidence math = Binary64.of_Q 0.83
  /\ calculate_overall_confidence confidence math = 41 # 50.
Proof. split; vm_compute; reflexivity. Qed.

(** On the example text of the specification the two agree. *)
Example example_confidence_in_binary :
  (fun r => FloatInvoice.calculate_overall_confidence (field_confidence r)
              (math_validation_of r))
    <$> (validate_extraction <$> extract_fields example_text)
  = Some (Binary64.of_Q 0.78).
Proof. vm_compute. reflexivity. Qed.

(** C1, on the code. From the example text of the specification the
    invoice number is read as stated, but the first pattern of [total]
    finds [total: $100.00] inside [Subtotal: $100.00], so the total is
    100.0 and not 110.0; the totals do not reconcile, both flags are
    false, and the overall confidence is 0.78, below 0.8. *)
Theorem example_total_is_taken_from_subtotal :
  extract_fields example_text
  = Some [("invoice_number", PStr "inv-2024-001");
          ("invoice_date", PStr "12/15/2024");
          ("subtotal", PStr "100.00"); ("tax_amount", PStr "10.00");
          ("total", PStr "100.00"); ("currency", PStr "$")]
  /\ (validate_extraction <$> extract_fields example_text)
     = Some
         {| extracted_data :=
              [("invoice_number", PStr "INV-2024-001");
               ("invoice_date", PStr "12/15/2024");
               ("subtotal", PFloat (Fin 1 2));
               ("tax_amount", PFloat (Fin 1 1));
               ("total", PFloat (Fin 1 2));
               ("currency", PStr "$")];
            field_confidence :=
              [("invoice_number", 0.9); ("invoice_date", 0.8);
               ("subtotal", 0.9); ("tax_amount", 0.9); ("total", 0.9);
               ("currency", 0.6)];
            math_validation_of :=
              {| subtotal_tax_total_match := false;
                 line_items_sum_match := false;
                 calculations_correct := false |};
            overall_confidence := 39 # 50;
            missing_required_fields := ["vendor_name"] |}
  /\ py_float "100.00" = Some (Fin 1 2)
  /\ py_float "110.00" = Some (Fin 11 1)
  /\ 39 # 50 == 0.78
  /\ ~ (0.8 <= 39 # 50).
Proof.
  repeat split; try (vm_compute; reflexivity).
  intros H. vm_compute in H. by apply H.
Qed.

End ConfidenceFacts.

Module RateLimiterFacts.
Import RateLimiter Notions.
Local Open Scope list_scope.

Section Client.
Variable client_ip : string.

Lemma deque_of_store l q : deque_of (store l client_ip q) client_ip = q.
Proof. unfold deque_of, store. simpl. by rewrite lookup_insert_eq. Qed.

(** Another client's deque is not touched. *)
Lemma deque_of_store_other l other q :
  other <> client_ip -> deque_of (store l other q) client_ip = deque_of l client_ip.
Proof. intros Hne. unfold deque_of, store. simpl. by rewrite lookup_insert_ne. Qed.

Lemma popleft_keeps_recent cutoff old recent :
  Forall (fun t => cutoff <= t) recent ->
  popleft_while_old cutoff (old ++ recent)
  = popleft_while_old cutoff old ++ recent.
Proof.
  intros Hrecent. induction old as [|t old IH]; simpl.
  - destruct Hrecent as [|t recent Ht _]; [done|]. simpl.
    destruct (Z.ltb_spec t cutoff); [lia|done].
  - by destruct (t <? cutoff).
Qed.

Lemma popleft_recent cutoff recent :
  Forall (fun t => cutoff <= t) recent -> popleft_while_old cutoff recent = recent.
Proof. intros H. by rewrite <- (app_nil_l recent), popleft_keeps_recent. Qed.

Lemma popleft_length cutoff q :
  (length (popleft_while_old cutoff q) <= length q)%nat.
Proof.
  induction q as [|t q IH]; simpl; [done|].
  destruct (t <? cutoff); simpl; lia.
Qed.

Lemma is_allowed_answer l now :
  (is_allowed l client_ip now).1.1
  = negb (max_requests l
          <=? Z.of_nat (length (popleft_while_old (now - window_seconds l)
                                  (deque_of l client_ip)))).
Proof. unfold is_allowed. by destruct (_ <=? _). Qed.

Lemma is_allowed_settings l now :
  max_requests (is_allowed l client_ip now).2 = max_requests l
  /\ window_seconds (is_allowed l client_ip now).2 = window_seconds l.
Proof. unfold is_allowed. by destruct (_ <=? _). Qed.

(** The requests let through stay at the end of the deque as long as
    each of them is within the window of every later one. *)
Lemma admit_all_deque ts : forall l old recent,
  deque_of l client_ip = old ++ recent ->
  Forall (fun t => Forall (fun p => t - window_seconds l <= p) recent) ts ->
  Forall (fun t => Forall (fun t' => t' - window_seconds l <= t) ts) ts ->
  (admit_all l client_ip ts).1 = true ->
  exists old',
    deque_of (admit_all l client_ip ts).2 client_ip = old' ++ recent ++ ts
    /\ max_requests (admit_all l client_ip ts).2 = max_requests l
    /\ window_seconds (admit_all l client_ip ts).2 = window_seconds l
    /\ (ts <> [] ->
        Z.of_nat (length (old' ++ recent ++ ts)) <= max_requests l).
Proof.
  induction ts as [|t ts IH]; intros l old recent Hq Hrecent Hts Hall.
  { exists old. simpl. rewrite app_nil_r. done. }
  simpl in Hall |- *.
  unfold is_allowed in *. rewrite Hq in *.
  inversion Hrecent as [|? ? Ht Hrecent']; subst.
  rewrite (popleft_keeps_recent _ old recent Ht) in *.
  set (old1 := popleft_while_old (t - window_seconds l) old) in *.
  destruct (Z.leb_spec (max_requests l) (Z.of_nat (length (old1 ++ recent))))
    as [Hfull|Hroom].
  { simpl in Hall. by destruct (admit_all _ _ _). }
  set (l1 := store l client_ip ((old1 ++ recent) ++ [t])) in *.
  destruct (admit_all l1 client_ip ts) as [all_allowed l2] eqn:Hrest.
  simpl in Hall |- *. subst all_allowed.
  destruct (IH l1 old1 (recent ++ [t])) as (old' & Hd & Hm & Hw & Hlen).
  - unfold l1. by rewrite deque_of_store, app_assoc.
  - inversion Hts as [|? ? Htt Hts']; subst. inversion Htt; subst.
    apply Forall_forall. intros t' Ht'. apply Forall_app. split.
    + by eapply (proj1 (Forall_forall _ _) Hrecent').
    + constructor; [|constructor].
      by eapply (proj1 (Forall_forall _ _) H2).
  - inversion Hts as [|? ? Htt Hts']; subst.
    eapply Forall_impl; [exact Hts'|]. simpl. intros t' Ht'. by inversion Ht'.
  - by rewrite Hrest.
  - rewrite Hrest in *. simpl in *. exists old'.
    rewrite <- app_assoc in Hd. simpl in Hd. repeat split; try done.
    intros _. destruct ts as [|t2 ts].
    + simpl in Hrest. injection Hrest as <-.
      unfold l1 in Hd. rewrite deque_of_store in Hd.
      rewrite <- Hd. rewrite length_app. simpl.
      rewrite length_app in Hroom. rewrite length_app. lia.
    + rewrite <- app_assoc in Hlen. simpl in Hlen. by apply Hlen.
Qed.

(** A call for another client leaves the deque of this one alone. *)
Lemma is_allowed_other l other now :
  other <> client_ip ->
  deque_of (is_allowed l other now).2 client_ip = deque_of l client_ip.
Proof.
  intros Hne. unfold is_allowed.
  destruct (_ <=? _); by apply deque_of_store_other.
Qed.

(** The admission check and [get_remaining_requests] prune alike: a
    request is let through exactly when some remain. *)
Lemma remaining_agrees_with_admission l now :
  (is_allowed l client_ip now).1.1 = true
  <-> 0 < (get_remaining_requests l client_ip now).1.
Proof.
  rewrite is_allowed_answer. unfold get_remaining_requests. simpl.
  destruct (Z.leb_spec (max_requests l)
              (Z.of_nat (length (popleft_while_old (now - window_seconds l)
                                   (deque_of l client_ip))))); simpl; split;
    intros; try done; lia.
Qed.

(** C3. For every client: when as many requests as [max_requests]
    (a positive number, 10 by default) have all been let through at
    times within one window before [now], the deque holds exactly
    those times; the check at [now] denies and records nothing, the
    deque staying as it was, and no request remains; and at any later
    time by which the oldest of those times has left the window, the
    check lets a request through again. *)
Theorem limit_reached_denied_until_window_passes
    (l : limiter) (ts : list Z) (now : Z) :
  0 < max_requests l ->
  Z.of_nat (length ts) = max_requests l ->
  Forall (fun t => now - window_seconds l <= t <= now) ts ->
  (admit_all l client_ip ts).1 = true ->
  let l1 := (admit_all l client_ip ts).2 in
  let l2 := (is_allowed l1 client_ip now).2 in
  deque_of l1 client_ip = ts
  /\ (is_allowed l1 client_ip now).1.1 = false
  /\ deque_of l2 client_ip = deque_of l1 client_ip
  /\ (get_remaining_requests l2 client_ip now).1 = 0
  /\ forall later oldest,
       head ts = Some oldest -> oldest < later - window_seconds l ->
       (is_allowed l2 client_ip later).1.1 = true.
Proof.
  intros Hpos Hlen Hwin Hall l1 l2.
  assert (Hmutual :
    Forall (fun t => Forall (fun t' => t' - window_seconds l <= t) ts) ts).
  { apply Forall_forall. intros t Ht. apply Forall_forall. intros t' Ht'.
    pose proof (proj1 (Forall_forall _ _) Hwin t Ht).
    pose proof (proj1 (Forall_forall _ _) Hwin t' Ht'). simpl in *. lia. }
  assert (Hnone :
    Forall (fun t => Forall (fun p => t - window_seconds l <= p) []) ts).
  { apply Forall_forall. intros t _. constructor. }
  destruct (admit_all_deque ts l (deque_of l client_ip) []
              (eq_sym (app_nil_r _)) Hnone Hmutual Hall)
    as (old' & Hd & Hm & Hw & Hbound).
  fold l1 in Hd, Hm, Hw. simpl in Hd, Hbound.
  assert (Hne : ts <> []) by (intros ->; simpl in Hlen; lia).
  specialize (Hbound Hne). rewrite length_app in Hbound.
  assert (old' = []) as -> by (destruct old'; [done|simpl in Hbound; lia]).
  simpl in Hd.
  assert (Hkeep : popleft_while_old (now - window_seconds l1) ts = ts).
  { apply popleft_recent. rewrite Hw.
    eapply Forall_impl; [exact Hwin|]. simpl. lia. }
  assert (Hl2 : l2 = store l1 client_ip ts).
  { unfold l2, is_allowed. rewrite Hd, Hkeep, Hm.
    destruct (Z.leb_spec (max_requests l) (Z.of_nat (length ts))); [done|lia]. }
  split; [done|]. split.
  { rewrite is_allowed_answer, Hd, Hkeep, Hm.
    destruct (Z.leb_spec (max_requests l) (Z.of_nat (length ts))); [done|lia]. }
  split; [by rewrite Hl2, deque_of_store|]. split.
  { unfold get_remaining_requests. simpl.
    rewrite Hl2, deque_of_store. simpl. rewrite Hw in Hkeep. rewrite Hw, Hkeep, Hm. lia. }
  intros later oldest Hhead Hold.
  rewrite is_allowed_answer, Hl2, deque_of_store. simpl. rewrite Hw, Hm.
  destruct ts as [|t ts']; [done|]. simpl in Hhead. injection Hhead as ->.
  simpl. destruct (Z.ltb_spec oldest (later - window_seconds l)); [|lia].
  pose proof (popleft_length (later - window_seconds l) ts') as Hshort.
  simpl in Hlen.
  destruct (Z.leb_spec (max_requests l)
              (Z.of_nat (length (popleft_while_old (later - window_seconds l) ts'))));
    [lia|done].
Qed.
End Client.

Lemma limit_reached_denied_until_window_passes_witness :
  0 < max_requests rate_limiter
  /\ Z.of_nat (length ten_times) = max_requests rate_limiter
  /\ (admit_all rate_limiter "1.2.3.4" ten_times).1 = true
  /\ (is_allowed (admit_all rate_limiter "1.2.3.4" ten_times).2 "1.2.3.4" 10).1.1
     = false.
Proof.
  assert (H1 : 0 < max_requests rate_limiter) by (simpl; lia).
  assert (H2 : Z.of_nat (length ten_times) = max_requests rate_limiter)
    by reflexivity.
  assert (H3 : Forall (fun t => 10 - window_seconds rate_limiter <= t <= 10)
                 ten_times)
    by (repeat constructor; simpl; lia).
  assert (H4 : (admit_all rate_limiter "1.2.3.4" ten_times).1 = true)
    by (vm_compute; reflexivity).
  split; [exact H1|]. split; [exact H2|]. split; [exact H4|].
  exact (proj1 (proj2 (limit_reached_denied_until_window_passes
                         "1.2.3.4" rate_limiter ten_times 10 H1 H2 H3 H4))).
Defined.

(** C6, on the code. [get_reset_time] does not prune: after one request
    at time 0, asked at time 100000 (the window being 86400 seconds),
    [get_remaining_requests] prunes that request away and reports all
    ten remaining, the live count being zero, while [get_reset_time]
    still answers 0 + 86400 from the expired entry where no live entry
    is left. *)
Theorem reset_time_is_read_without_pruning :
  deque_of limiter_after_one_request "1.2.3.4" = [0]
  /\ (get_reset_time limiter_after_one_request "1.2.3.4").1 = Some 86400
  /\ (get_remaining_requests limiter_after_one_request "1.2.3.4" 100000).1 = 10
  /\ deque_of (get_remaining_requests limiter_after_one_request "1.2.3.4" 100000).2
       "1.2.3.4" = []
  /\ deque_of (is_allowed limiter_after_one_request "1.2.3.4" 100000).2 "1.2.3.4"
     = [100000].
Proof. repeat split; vm_compute; reflexivity. Qed.

End RateLimiterFacts.

Module DetectorFacts.
Import DuplicateDetector Notions.
Local Open Scope list_scope.

Section Facts.
Variable sha256 : list Byte.byte -> string.
Context {info : Type}.


Implicit Types (d : @detector info) (e : @entry info) (c : @call info).

(** *** Eviction *)

Lemma forget_processed d number :
  processed_invoices (forget d number) = delete number (processed_invoices d).
Proof.
  unfold forget. destruct (processed_invoices d !! number) eqn:E; [done|].
  by rewrite delete_id.
Qed.

Lemma forget_retention d number :
  retention_seconds (forget d number) = retention_seconds d.
Proof. unfold forget. by destruct (processed_invoices d !! number). Qed.

Lemma forget_consistent d number : consistent d -> consistent (forget d number).
Proof.
  intros Hc number' e' He'. rewrite forget_processed in He'.
  apply lookup_delete_Some in He' as [Hne He'].
  unfold forget. destruct (processed_invoices d !! number) as [e|] eqn:E; simpl.
  - rewrite lookup_delete_ne; [by apply Hc|].
    intros Heq. apply Hc in E. apply Hc in He'. congruence.
  - by apply Hc.
Qed.

Lemma foldl_forget_processed numbers : forall d number,
  processed_invoices (foldl forget d numbers) !! number
  = if decide (number ∈ numbers) then None else processed_invoices d !! number.
Proof.
  induction numbers as [|n numbers IH]; intros d number; cbn [foldl].
  - case_decide as H; [|done]. by apply not_elem_of_nil in H.
  - rewrite IH, forget_processed.
    destruct (decide (number ∈ numbers)) as [Hin|Hout].
    + rewrite decide_True; [done|]. by right.
    + destruct (decide (n = number)) as [->|Hne].
      * rewrite decide_True by left. by rewrite lookup_delete_eq.
      * rewrite lookup_delete_ne by done.
        rewrite decide_False; [done|]. intros [?|?]%elem_of_cons; congruence.
Qed.

Lemma foldl_forget_consistent numbers : forall d,
  consistent d -> consistent (foldl forget d numbers).
Proof.
  induction numbers as [|n numbers IH]; intros d Hc; simpl; [done|].
  by apply IH, forget_consistent.
Qed.

Lemma foldl_forget_retention numbers : forall d,
  retention_seconds (foldl forget d numbers) = retention_seconds d.
Proof.
  induction numbers as [|n numbers IH]; intros d; simpl; [done|].
  by rewrite IH, forget_retention.
Qed.

Lemma elem_of_expired d cutoff number :
  number ∈ expired_invoices d cutoff
  <-> exists e, processed_invoices d !! number = Some e /\ timestamp e < cutoff.
Proof.
  unfold expired_invoices. rewrite list_elem_of_fmap. split.
  - intros [[k e] [-> Hin]]. apply elem_of_map_to_list in Hin.
    apply map_lookup_filter_Some in Hin as [Hl Ht]. eauto.
  - intros [e [Hl Ht]]. exists (number, e). split; [done|].
    apply elem_of_map_to_list. by apply map_lookup_filter_Some.
Qed.

(** After eviction the table holds the entries that are not older
    than the cutoff, and no other. *)
Lemma cleanup_processed d now number :
  processed_invoices (_cleanup_old_entries d now) !! number
  = match processed_invoices d !! number with
    | Some e => if decide (timestamp e < now - retention_seconds d)
                then None else Some e
    | None => None
    end.
Proof.
  unfold _cleanup_old_entries. rewrite foldl_forget_processed.
  destruct (decide (number ∈ _)) as [Hin|Hout].
  - apply elem_of_expired in Hin as [e [-> Ht]]. by rewrite decide_True.
  - destruct (processed_invoices d !! number) as [e|] eqn:E; [|done].
    destruct (decide (timestamp e < _)); [|done].
    exfalso. apply Hout, elem_of_expired. eauto.
Qed.

Lemma cleanup_consistent d now : consistent d -> consistent (_cleanup_old_entries d now).
Proof. apply foldl_forget_consistent. Qed.

Lemma cleanup_retention d now :
  retention_seconds (_cleanup_old_entries d now) = retention_seconds d.
Proof. apply foldl_forget_retention. Qed.

(** *** Storing *)

Lemma remember_consistent d ip number hash invoice now :
  consistent d -> by_content_hash d hash = None ->
  consistent (remember d ip number hash invoice now).
Proof.
  intros Hc Hmiss number' e' He'. unfold remember in *. simpl in *.
  destruct (decide (number = number')) as [->|Hne].
  - rewrite lookup_insert_eq in He'. injection He' as <-. simpl.
    by rewrite lookup_insert_eq.
  - rewrite lookup_insert_ne in He' by done.
    rewrite lookup_insert_ne; [by apply Hc|].
    intros ->. unfold by_content_hash in Hmiss.
    rewrite (Hc _ _ He') in Hmiss. simpl in Hmiss. congruence.
Qed.

(** What a call does to the detector: eviction, and then possibly one
    entry stored. *)
Lemma check_duplicate_state d ip file_bytes invoice now :
  let d1 := _cleanup_old_entries d now in
  let r := check_duplicate sha256 d ip file_bytes invoice now in
  r.2 = d1
  \/ exists number,
       key_of invoice = Some number /\ r.1 = (false, None)
       /\ by_content_hash d1 (sha256 file_bytes) = None
       /\ r.2 = remember d1 ip number (sha256 file_bytes) invoice now.
Proof.
  simpl. unfold check_duplicate, generate_content_hash.
  destruct (by_content_hash _ _) eqn:Hh; [by left|].
  destruct (key_of invoice) as [number|]; [|by left].
  destruct (by_invoice_number _ _ _); [by left|].
  right. exists number. done.
Qed.

Lemma check_duplicate_consistent d ip file_bytes invoice now :
  consistent d -> consistent (check_duplicate sha256 d ip file_bytes invoice now).2.
Proof.
  intros Hc.
  destruct (check_duplicate_state d ip file_bytes invoice now)
    as [->|(number & _ & _ & Hmiss & ->)].
  - by apply cleanup_consistent.
  - apply remember_consistent; [by apply cleanup_consistent|done].
Qed.

Lemma reachable_consistent d : reachable sha256 d -> consistent d.
Proof.
  induction 1 as [hours|d c _ IH].
  - intros number e He. unfold init in He. simpl in He.
    by rewrite lookup_empty in He.
  - by apply check_duplicate_consistent.
Qed.

Lemma check_duplicate_retention d ip file_bytes invoice now :
  retention_seconds (check_duplicate sha256 d ip file_bytes invoice now).2
  = retention_seconds d.
Proof.
  destruct (check_duplicate_state d ip file_bytes invoice now)
    as [->|(number & _ & _ & _ & ->)]; simpl; apply cleanup_retention.
Qed.

(** *** The same bytes again *)

Lemma holds_after_cleanup retention number first d now :
  holds retention number first d -> now - retention <= timestamp first ->
  holds retention number first (_cleanup_old_entries d now).
Proof.
  intros (Hc & Hr & Hp) Hnow. split; [by apply cleanup_consistent|].
  split; [by rewrite cleanup_retention|].
  rewrite cleanup_processed, Hp, Hr. case_decide; [lia|done].
Qed.

Lemma holds_after_call retention number first d c :
  holds retention number first d ->
  call_time c - retention <= timestamp first ->
  negb (perform sha256 d c).1.1
  && bool_decide (key_of (call_invoice c) = Some number) = false ->
  holds retention number first (perform sha256 d c).2.
Proof.
  intros Hd Hnow Hother. unfold perform in *.
  pose proof (holds_after_cleanup _ _ _ _ _ Hd Hnow) as (Hc & Hr & Hp).
  destruct (check_duplicate_state d (call_ip c) (call_bytes c) (call_invoice c)
              (call_time c)) as [->|(number' & Hkey & Hans & Hmiss & ->)]; [done|].
  split; [by apply remember_consistent|]. split; [done|].
  rewrite Hans, Hkey in Hother. simpl in Hother.
  apply bool_decide_eq_false in Hother.
  unfold remember. simpl. rewrite lookup_insert_ne; [done|congruence].
Qed.

Lemma holds_after_calls retention number first calls : forall d,
  holds retention number first d ->
  Forall (fun c => call_time c - retention <= timestamp first) calls ->
  stores_under sha256 number d calls = false ->
  holds retention number first (run_calls sha256 d calls).
Proof.
  induction calls as [|c calls IH]; intros d Hd Htimes Hstores; [done|].
  simpl in Hstores. apply orb_false_iff in Hstores as [Hc Hrest].
  inversion Htimes; subst. apply IH; [|done|done].
  by apply holds_after_call.
Qed.

Lemma found_by_content_hash retention number first d ip invoice now file_bytes :
  holds retention number first d ->
  content_hash first = sha256 file_bytes ->
  now - retention <= timestamp first ->
  (check_duplicate sha256 d ip file_bytes invoice now).1 = (true, Some first).
Proof.
  intros Hd Hhash Hnow.
  pose proof (holds_after_cleanup _ _ _ _ _ Hd Hnow) as (Hc & Hr & Hp).
  unfold check_duplicate, generate_content_hash, by_content_hash.
  rewrite <- Hhash, (Hc _ _ Hp). simpl. by rewrite Hp.
Qed.

(** C4, as amended. In a detector that calls have made of a new one, let
    a submission with an invoice number be answered "no duplicate", so
    that it is stored. Then a later call with the same bytes, from any
    client and with any record, returns the stored entry of that first
    submission, provided that it comes within the retention time of the
    first and that no call in between has stored an entry under the
    same invoice number. *)
Theorem same_bytes_return_first_entry_while_kept
    (d : @detector info) (ip1 : string) (file_bytes : list Byte.byte)
    (invoice1 : @invoice_data info) (t1 : Z) (number : string)
    (calls : list (@call info)) (ip2 : string) (invoice2 : @invoice_data info)
    (t2 : Z) :
  reachable sha256 d ->
  key_of invoice1 = Some number ->
  (check_duplicate sha256 d ip1 file_bytes invoice1 t1).1 = (false, None) ->
  Forall (fun c => call_time c <= t2) calls ->
  stores_under sha256 number
    (check_duplicate sha256 d ip1 file_bytes invoice1 t1).2 calls = false ->
  t2 - retention_seconds d <= t1 ->
  (check_duplicate sha256
     (run_calls sha256 (check_duplicate sha256 d ip1 file_bytes invoice1 t1).2
        calls)
     ip2 file_bytes invoice2 t2).1
  = (true, Some {| data := invoice1; timestamp := t1; client_ip := ip1;
                   content_hash := sha256 file_bytes |}).
Proof.
  intros Hreach Hkey Hfirst Htimes Hstores Hlate.
  set (first := {| data := invoice1; timestamp := t1; client_ip := ip1;
                   content_hash := sha256 file_bytes |}).
  assert (Hheld : holds (retention_seconds d) number first
                    (check_duplicate sha256 d ip1 file_bytes invoice1 t1).2).
  { pose proof (reachable_consistent d Hreach) as Hc.
    split; [by apply check_duplicate_consistent|].
    split; [by apply check_duplicate_retention|].
    revert Hfirst. unfold check_duplicate, generate_content_hash.
    destruct (by_content_hash _ _); [done|]. rewrite Hkey.
    destruct (by_invoice_number _ _ _); [done|]. intros _.
    unfold remember. simpl. by rewrite lookup_insert_eq. }
  eapply found_by_content_hash; [|done|done].
  apply holds_after_calls; [done| |done].
  eapply Forall_impl; [exact Htimes|]. simpl. intros c Hc. lia.
Qed.

(** C5, as amended. For every submission whose record has no invoice
    number (none, or an empty one) and for every state of the detector,
    [check_duplicate] stores nothing: the detector is left as eviction
    leaves it, with no entry that was not there before. When an entry
    that is still stored has the content hash of the bytes, in a state
    in which every stored entry is indexed by its content hash (as in
    every state that calls make of a new detector), the answer is
    "duplicate", with that entry. When the index of content hashes has
    no invoice number for the content hash of the bytes, or no entry is
    stored under the number it has, the answer is "no duplicate". What
    is answered when the index has a number whose entry was stored with
    other bytes is not said here. *)
Theorem without_number_nothing_is_stored
    (d : @detector info) (ip : string) (file_bytes : list Byte.byte)
    (invoice : @invoice_data info) (now : Z) :
  key_of invoice = None ->
  let answer := (check_duplicate sha256 d ip file_bytes invoice now).1 in
  let after := (check_duplicate sha256 d ip file_bytes invoice now).2 in
  after = _cleanup_old_entries d now
  /\ (forall number e,
        processed_invoices after !! number = Some e ->
        processed_invoices d !! number = Some e)
  /\ (consistent d ->
      forall number e,
        processed_invoices after !! number = Some e ->
        content_hash e = sha256 file_bytes ->
        answer = (true, Some e))
  /\ (invoice_hashes after !! sha256 file_bytes = None -> answer = (false, None))
  /\ (forall number,
        invoice_hashes after !! sha256 file_bytes = Some number ->
        processed_invoices after !! number = None ->
        answer = (false, None)).
Proof.
  intros Hkey. cbv zeta.
  assert (Hstate : (check_duplicate sha256 d ip file_bytes invoice now).2
                   = _cleanup_old_entries d now).
  { unfold check_duplicate. rewrite Hkey. by destruct (by_content_hash _ _). }
  assert (Hanswer : (check_duplicate sha256 d ip file_bytes invoice now).1
     = match invoice_hashes (_cleanup_old_entries d now) !! sha256 file_bytes with
       | Some number =>
           match processed_invoices (_cleanup_old_entries d now) !! number with
           | Some previous => (true, Some previous)
           | None => (false, None)
           end
       | None => (false, None)
       end).
  { unfold check_duplicate, generate_content_hash, by_content_hash. rewrite Hkey.
    destruct (invoice_hashes _ !! _) as [number|]; [|done]. simpl.
    by destruct (processed_invoices _ !! number). }
  rewrite Hstate, Hanswer. split; [done|]. split; [|split; [|split]].
  - intros number e. rewrite cleanup_processed.
    destruct (processed_invoices d !! number); [|done]. by case_decide.
  - intros Hc number e He Hhash.
    pose proof (cleanup_consistent d now Hc _ _ He) as Hi.
    rewrite Hhash in Hi. by rewrite Hi, He.
  - by intros ->.
  - by intros number -> ->.
Qed.

End Facts.

Lemma same_bytes_return_first_entry_while_kept_witness :
  (check_duplicate bytes_as_text (init 24) "1.1.1.1" document_1 invoice_A 0).1
  = (false, None)
  /\ (check_duplicate bytes_as_text
        (run_calls bytes_as_text detector_after_first [call_in_between])
        "2.2.2.2" document_1 invoice_without_number 10).1
     = (true, Some first_entry).
Proof.
  assert (H1 : reachable bytes_as_text (@init unit 24)) by constructor.
  assert (H2 : key_of invoice_A = Some "A") by reflexivity.
  assert (H3 : (check_duplicate bytes_as_text (init 24) "1.1.1.1" document_1
                  invoice_A 0).1 = (false, None)) by (vm_compute; reflexivity).
  assert (H4 : Forall (fun c : @call unit => call_time c <= 10) [call_in_between])
    by (repeat constructor; simpl; lia).
  assert (H5 : stores_under bytes_as_text "A"
                 (check_duplicate bytes_as_text (init 24) "1.1.1.1" document_1
                    invoice_A 0).2 [call_in_between] = false)
    by (vm_compute; reflexivity).
  assert (H6 : 10 - retention_seconds (@init unit 24) <= 0) by (simpl; lia).
  split; [exact H3|].
  exact (same_bytes_return_first_entry_while_kept bytes_as_text (init 24)
           "1.1.1.1" document_1 invoice_A 0 "A" [call_in_between] "2.2.2.2"
           invoice_without_number 10 H1 H2 H3 H4 H5 H6).
Defined.

(** C4 as stated fails: 25 hours after the first submission was stored,
    the retention being 24 hours, a call with the same bytes evicts the
    entry and is answered "no duplicate". *)
Lemma same_bytes_not_found_after_retention :
  processed_invoices detector_after_first !! "A" = Some first_entry
  /\ (check_duplicate bytes_as_text detector_after_first "2.2.2.2" document_1
        invoice_A 90000).1
     = (false, None).
Proof. split; vm_compute; reflexivity. Qed.

Lemma without_number_nothing_is_stored_witness :
  key_of invoice_without_number = None
  /\ (check_duplicate bytes_as_text (init 24) "2.2.2.2" document_2
        invoice_without_number 1).2
     = _cleanup_old_entries (init 24) 1.
Proof.
  assert (H : key_of invoice_without_number = None) by reflexivity.
  split; [exact H|].
  exact (proj1 (without_number_nothing_is_stored bytes_as_text (init 24)
                  "2.2.2.2" document_2 invoice_without_number 1 H)).
Defined.

(** C5 as stated fails: a record without invoice number whose bytes are
    those of a stored entry is answered "duplicate", with that entry. *)
Lemma without_number_same_bytes_is_duplicate :
  key_of invoice_without_number = None
  /\ (check_duplicate bytes_as_text detector_after_first "2.2.2.2" document_1
        invoice_without_number 1).1
     = (true, Some first_entry).
Proof. split; vm_compute; reflexivity. Qed.

(** The index can be stale. After the client 2.2.2.2 has stored
    [document_2] under the number of the first entry, the bytes of
    [document_1] without a number are answered with the entry of
    [document_2], whose content hash is another. *)
Example answered_through_a_stale_hash :
  let d := (check_duplicate bytes_as_text detector_after_first "2.2.2.2" document_2
              invoice_A 10).2 in
  let answer := (check_duplicate bytes_as_text d "3.3.3.3" document_1
                   invoice_without_number 11).1 in
  answer = (true, Some (DetectorNotions.new_entry "2.2.2.2"
                          (bytes_as_text document_2) invoice_A 10))
  /\ bytes_as_text document_2 <> bytes_as_text document_1.
Proof. split; [vm_compute; reflexivity|discriminate]. Qed.

End DetectorFacts.

Module StrFacts.
Import Str.

#[local] Arguments String.append !_ _ / : simpl nomatch.

(** *** Case mappings, character by character *)

Ltac by_cases_on c := destruct c as [[] [] [] [] [] [] [] []]; reflexivity.

Lemma upper_char_idem c : upper_char (upper_char c) = upper_char c.
Proof. by_cases_on c. Qed.

Lemma lower_char_idem c : lower_char (lower_char c) = lower_char c.
Proof. by_cases_on c. Qed.

Lemma is_cased_upper_char c : is_cased (upper_char c) = is_cased c.
Proof. by_cases_on c. Qed.

Lemma is_cased_lower_char c : is_cased (lower_char c) = is_cased c.
Proof. by_cases_on c. Qed.

Lemma upper_idem s : upper (upper s) = upper s.
Proof.
  unfold upper. induction s as [|c s IH]; simpl; [done|].
  by rewrite upper_char_idem, IH.
Qed.

Lemma title_from_idem s : forall flag,
  title_from flag (title_from flag s) = title_from flag s.
Proof.
  induction s as [|c s IH]; intros flag; simpl; [done|].
  destruct flag.
  - by rewrite lower_char_idem, is_cased_lower_char, IH.
  - by rewrite upper_char_idem, is_cased_upper_char, IH.
Qed.

Lemma title_idem s : title (title s) = title s.
Proof. apply title_from_idem. Qed.

Lemma truthy_upper s : truthy (upper s) = truthy s.
Proof. by destruct s. Qed.

Lemma truthy_title s : truthy (title s) = truthy s.
Proof. by destruct s. Qed.

(** *** Strings without the characters that are stripped or filtered *)

Lemma forallb_app p s1 s2 :
  forallb p (s1 ++ s2) = forallb p s1 && forallb p s2.
Proof.
  induction s1 as [|c s1 IH]; simpl; [done|]. by rewrite IH, andb_assoc.
Qed.

Lemma forallb_impl (p q : ascii -> bool) s :
  (forall c, p c = true -> q c = true) -> forallb p s = true -> forallb q s = true.
Proof.
  intros Hpq. induction s as [|c s IH]; simpl; [done|].
  intros [Hc Hs]%andb_true_iff. by rewrite (Hpq c Hc), IH.
Qed.

Lemma forallb_substring p s : forall i n,
  forallb p s = true -> forallb p (String.substring i n s) = true.
Proof.
  induction s as [|c s IH]; intros i n Hs; simpl in *.
  - by destruct i, n.
  - apply andb_true_iff in Hs as [Hc Hs].
    destruct i as [|i]; [|by apply IH].
    destruct n as [|n]; simpl; [done|]. rewrite Hc. simpl. by apply IH.
Qed.

Lemma append_nil_r s : s ++ "" = s.
Proof. induction s as [|c s IH]; simpl; [done|]. by rewrite IH. Qed.

Lemma append_assoc s1 s2 s3 : (s1 ++ s2) ++ s3 = s1 ++ s2 ++ s3.
Proof. induction s1 as [|c s1 IH]; simpl; [done|]. by rewrite IH. Qed.

Lemma length_append s1 s2 :
  String.length (s1 ++ s2) = (String.length s1 + String.length s2)%nat.
Proof. induction s1 as [|c s1 IH]; simpl; [done|]. by rewrite IH. Qed.

Lemma rev_onto_rev_onto s : forall a b,
  rev_onto (rev_onto s a) b = rev_onto a (s ++ b).
Proof. induction s as [|c s IH]; intros a b; simpl; [done|]. by rewrite IH. Qed.

Lemma rev_rev s : rev (rev s) = s.
Proof. unfold rev. rewrite rev_onto_rev_onto. simpl. apply append_nil_r. Qed.

Lemma forallb_rev_onto p s : forall a,
  forallb p (rev_onto s a) = forallb p s && forallb p a.
Proof.
  induction s as [|c s IH]; intros a; simpl; [done|].
  rewrite IH. simpl. by destruct (p c), (forallb p s), (forallb p a).
Qed.

Lemma drop_while_none p s :
  forallb (fun c => negb (p c)) s = true -> drop_while p s = s.
Proof.
  destruct s as [|c s]; simpl; [done|].
  intros [Hc _]%andb_true_iff. by destruct (p c).
Qed.

Lemma strip_with_none p s :
  forallb (fun c => negb (p c)) s = true -> strip_with p s = s.
Proof.
  intros Hs. unfold strip_with. rewrite (drop_while_none p s Hs).
  rewrite drop_while_none; [apply rev_rev|].
  unfold rev. by rewrite forallb_rev_onto, Hs.
Qed.

Lemma filter_all p s : forallb p s = true -> filter p s = s.
Proof.
  induction s as [|c s IH]; simpl; [done|].
  intros [Hc Hs]%andb_true_iff. by rewrite Hc, IH.
Qed.

Lemma substring_split s : forall i,
  (i <= String.length s)%nat ->
  String.substring 0 i s ++ String.substring i (String.length s - i) s = s.
Proof.
  induction s as [|c s IH]; intros i Hi; simpl in *.
  - by destruct i.
  - destruct i as [|i]; simpl.
    + f_equal. clear. induction s as [|c' s IH]; simpl; [done|]. by rewrite IH.
    + f_equal. apply IH. lia.
Qed.

Lemma length_substring s : forall i n,
  (i + n <= String.length s)%nat -> String.length (String.substring i n s) = n.
Proof.
  induction s as [|c s IH]; intros i n Hi; simpl in *.
  - destruct i, n; simpl in *; [done|lia|done|lia].
  - destruct i as [|i]; [destruct n as [|n]; simpl; [done|]; rewrite IH; lia|].
    apply IH. lia.
Qed.

End StrFacts.

Module FloatFacts.
Import Float StrFacts.

#[local] Arguments String.append !_ _ / : simpl nomatch.

(** *** Normal forms *)

Lemma strip_zeros_spec fuel : forall m e,
  m <> 0 -> Z.abs m < 2 ^ Z.of_nat fuel ->
  exists j, 0 <= j
    /\ m = (strip_zeros fuel m e).1 * 10 ^ j
    /\ (strip_zeros fuel m e).2 = e + j
    /\ (strip_zeros fuel m e).1 mod 10 <> 0.
Proof.
  induction fuel as [|fuel IH]; intros m e Hm Hsize.
  { simpl in Hsize. lia. }
  cbn [strip_zeros].
  destruct (Z.eqb_spec (m mod 10) 0) as [Hdiv|Hndiv].
  - assert (Hq : m = 10 * (m / 10)) by (apply Z.div_exact; lia).
    destruct (IH (m / 10) (e + 1)) as (j & Hj & Hval & Hexp & Hnd).
    + lia.
    + rewrite Nat2Z.inj_succ, Z.pow_succ_r in Hsize by lia. lia.
    + exists (j + 1). split; [lia|]. split; [|split; [lia|done]].
      rewrite Z.pow_add_r by lia. rewrite Hq at 1. rewrite Hval at 1.
      change (10 ^ 1) with 10. ring.
  - exists 0. simpl. split; [lia|]. split; [ring|]. split; [ring|done].
Qed.

Lemma ten_power_multiple k : 0 < k -> (10 ^ k) mod 10 = 0.
Proof.
  intros Hk. replace k with (Z.succ (k - 1)) by lia.
  rewrite Z.pow_succ_r by lia. rewrite Z.mul_comm. apply Z_mod_mult.
Qed.

Lemma decomposition_unique a b i j :
  a mod 10 <> 0 -> b mod 10 <> 0 -> 0 <= i -> 0 <= j ->
  a * 10 ^ i = b * 10 ^ j -> a = b /\ i = j.
Proof.
  intros Ha Hb Hi Hj Heq.
  assert (Hpos : forall k, 0 <= k -> 0 < 10 ^ k) by (intros; by apply Z.pow_pos_nonneg).
  destruct (Z.lt_trichotomy i j) as [Hlt|[->|Hgt]].
  - exfalso. apply Ha.
    replace j with (i + (j - i)) in Heq by lia.
    rewrite Z.pow_add_r in Heq by lia.
    assert (a = b * 10 ^ (j - i)).
    { apply (Z.mul_reg_r _ _ (10 ^ i)); [specialize (Hpos i Hi); lia|]. rewrite Heq. ring. }
    subst a. rewrite <- Z.mul_mod_idemp_r by lia.
    rewrite ten_power_multiple by lia. by rewrite Z.mul_0_r.
  - split; [|done]. apply (Z.mul_reg_r _ _ (10 ^ j)); [specialize (Hpos j Hj); lia|done].
  - exfalso. apply Hb.
    replace i with (j + (i - j)) in Heq by lia.
    rewrite Z.pow_add_r in Heq by lia.
    assert (b = a * 10 ^ (i - j)).
    { apply (Z.mul_reg_r _ _ (10 ^ j)); [specialize (Hpos j Hj); lia|]. rewrite <- Heq. ring. }
    subst b. rewrite <- Z.mul_mod_idemp_r by lia.
    rewrite ten_power_multiple by lia. by rewrite Z.mul_0_r.
Qed.

Lemma normal_spec m e :
  m <> 0 ->
  exists m' e' j, normal m e = Fin m' e' /\ 0 <= j /\ m = m' * 10 ^ j
    /\ e' = e + j /\ m' mod 10 <> 0.
Proof.
  intros Hm. unfold normal. destruct (Z.eqb_spec m 0) as [|_]; [done|].
  destruct (strip_zeros_spec (S (Z.to_nat (Z.log2 (Z.abs m)))) m e Hm)
    as (j & Hj & Hval & Hexp & Hnd).
  { rewrite Nat2Z.inj_succ, Z2Nat.id by apply Z.log2_nonneg.
    apply Z.log2_spec. lia. }
  destruct (strip_zeros _ m e) as [m' e']. simpl in *. eauto 10.
Qed.

(** A number has one normal form, whatever the form it is given in. *)
Lemma normal_scaled m e k :
  m mod 10 <> 0 -> 0 <= k -> normal (m * 10 ^ k) (e - k) = Fin m e.
Proof.
  intros Hnd Hk.
  assert (Hm : m <> 0) by (intros ->; by apply Hnd).
  assert (Hmk : m * 10 ^ k <> 0).
  { pose proof (Z.pow_pos_nonneg 10 k). lia. }
  destruct (normal_spec (m * 10 ^ k) (e - k) Hmk)
    as (m' & e' & j & -> & Hj & Hval & -> & Hnd').
  destruct (decomposition_unique m m' k j Hnd Hnd' Hk Hj Hval) as [-> ->].
  f_equal. lia.
Qed.

Lemma normal_zero e : normal 0 e = Fin 0 0.
Proof. done. Qed.

Lemma normal_is_normal m e : is_normal (normal m e).
Proof.
  destruct (Z.eq_dec m 0) as [->|Hm]; [by left|].
  destruct (normal_spec m e Hm) as (m' & e' & j & -> & _ & _ & _ & Hnd).
  by right.
Qed.

Lemma normal_of_normal m e : is_normal (Fin m e) -> normal m e = Fin m e.
Proof.
  intros [[-> ->]|Hnd]; [done|].
  pose proof (normal_scaled m e 0 Hnd) as H.
  change (10 ^ 0) with 1 in H. rewrite Z.mul_1_r, Z.sub_0_r in H. apply H. lia.
Qed.

Lemma signed_abs m : signed (m <? 0) (Z.abs m) = m.
Proof. unfold signed. destruct (Z.ltb_spec m 0); lia. Qed.

(** *** Digits *)

Lemma digits_from_app s1 : forall acc s2,
  digits_from acc (s1 ++ s2) = digits_from acc s1 ≫= (fun v => digits_from v s2).
Proof.
  induction s1 as [|c s1 IH]; intros acc s2; simpl; [done|].
  destruct (Str.is_digit c); [apply IH|done].
Qed.

Lemma digits_from_zeros k : forall acc,
  digits_from acc (zeros k) = Some (acc * 10 ^ Z.of_nat k).
Proof.
  induction k as [|k IH]; intros acc.
  - simpl. f_equal. lia.
  - cbn [zeros digits_from]. change (Str.is_digit "0") with true. cbn iota.
    rewrite IH. f_equal. rewrite Nat2Z.inj_succ, Z.pow_succ_r by lia.
    change (digit_of "0") with 0. ring.
Qed.

Lemma all_digits_zeros k : Str.forallb Str.is_digit (zeros k) = true.
Proof. induction k as [|k IH]; simpl; [done|]. exact IH. Qed.

Lemma length_zeros k : String.length (zeros k) = k.
Proof. induction k as [|k IH]; simpl; [done|]. by rewrite IH. Qed.

Lemma span_digits_app ds rest :
  Str.forallb Str.is_digit ds = true -> no_digit_next rest = true ->
  span_digits (ds ++ rest) = (ds, rest).
Proof.
  intros Hds Hrest. induction ds as [|c ds IH]; simpl in *.
  - destruct rest as [|c rest]; [done|]. simpl in Hrest |- *.
    apply negb_true_iff in Hrest. by rewrite Hrest.
  - apply andb_true_iff in Hds as [Hc Hds]. by rewrite Hc, IH.
Qed.

(** The digits that the Standard Library writes, read back. *)
Lemma digits_from_uint d : forall acc,
  digits_from acc (NilEmpty.string_of_uint d)
  = Some (acc * 10 ^ Z.of_N (DecimalPos.Unsigned.usize d)
          + Z.of_N (DecimalPos.Unsigned.of_lu (Decimal.rev d))).
Proof.
  induction d; intros acc; [simpl; f_equal; lia | ..];
    cbn [NilEmpty.string_of_uint digits_from];
    match goal with
    | |- context [Str.is_digit ?c] => change (Str.is_digit c) with true
    end;
    cbn iota; rewrite IHd;
    match goal with
    | |- context [Decimal.rev (?f d)] =>
        change (Decimal.rev (f d)) with (Decimal.revapp d (f Decimal.Nil))
    end;
    rewrite DecimalPos.Unsigned.of_lu_revapp;
    cbn [DecimalPos.Unsigned.usize];
    rewrite N2Z.inj_add, N2Z.inj_mul, N2Z.inj_pow, N2Z.inj_succ;
    rewrite Z.pow_succ_r by lia;
    f_equal;
    match goal with
    | |- context [digit_of ?c] =>
        let v := eval vm_compute in (digit_of c) in change (digit_of c) with v
    end;
    match goal with
    | |- context [Z.of_N (DecimalPos.Unsigned.of_lu (?f Decimal.Nil))] =>
        let v := eval vm_compute in
                   (Z.of_N (DecimalPos.Unsigned.of_lu (f Decimal.Nil))) in
        change (Z.of_N (DecimalPos.Unsigned.of_lu (f Decimal.Nil))) with v
    end;
    change (Z.of_N 10) with 10; ring.
Qed.

Lemma digits_value_digits_of a : 0 <= a -> digits_value (digits_of a) = Some a.
Proof.
  intros Ha. unfold digits_value, digits_of. rewrite digits_from_uint.
  rewrite <- DecimalPos.Unsigned.of_uint_alt.
  change (Pos.of_uint (N.to_uint (Z.to_N a))) with (N.of_uint (N.to_uint (Z.to_N a))).
  rewrite DecimalN.Unsigned.of_to. f_equal. lia.
Qed.

Lemma all_digits_uint d : Str.forallb Str.is_digit (NilEmpty.string_of_uint d) = true.
Proof. induction d; simpl; [done|..]; exact IHd. Qed.

Lemma all_digits_digits_of a : Str.forallb Str.is_digit (digits_of a) = true.
Proof. apply all_digits_uint. Qed.

Lemma digits_of_nonempty a : exists c more, digits_of a = String c more.
Proof.
  unfold digits_of.
  assert (Hd : N.to_uint (Z.to_N a) <> Decimal.Nil).
  { destruct (Z.to_N a); [done|]. apply DecimalPos.Unsigned.to_uint_nonnil. }
  destruct (N.to_uint (Z.to_N a)); [done|..]; simpl; eauto.
Qed.

(** *** Reading a decimal literal *)

Lemma take_sign_digit c s :
  Str.is_digit c = true -> take_sign (String c s) = (false, String c s).
Proof. destruct c as [[] [] [] [] [] [] [] []]; intros H; try done. Qed.

Lemma span_digits_all ds :
  Str.forallb Str.is_digit ds = true -> span_digits ds = (ds, "").
Proof.
  intros Hds. rewrite <- (append_nil_r ds) at 1. by apply span_digits_app.
Qed.

Lemma take_sign_sign_text negative c s :
  Str.is_digit c = true ->
  take_sign (sign_text negative ++ String c s) = (negative, String c s).
Proof. intros Hc. destruct negative; [done|]. by apply take_sign_digit. Qed.

(** A literal with a point: sign, digits, point, digits, and a tail
    that is empty or an exponent. *)
Lemma parse_decimal_with_point negative c ip fp tail n ex :
  Str.forallb Str.is_digit (String c ip) = true ->
  Str.forallb Str.is_digit fp = true ->
  no_digit_next tail = true ->
  take_exponent tail = (ex, "") ->
  digits_value (String c ip ++ fp) = Some n ->
  parse_decimal (sign_text negative ++ String c ip ++ "." ++ fp ++ tail)
  = Some (Some (normal (signed negative n) (ex - Z.of_nat (String.length fp)))).
Proof.
  intros Hip Hfp Htail Hex Hn. unfold parse_decimal.
  assert (Hc : Str.is_digit c = true) by (simpl in Hip; by apply andb_true_iff in Hip as [? _]).
  change (String c ip ++ "." ++ fp ++ tail)
    with (String c (ip ++ "." ++ fp ++ tail)).
  rewrite take_sign_sign_text by done.
  change (String c (ip ++ "." ++ fp ++ tail))
    with (String c ip ++ "." ++ fp ++ tail).
  rewrite span_digits_app by done.
  change (take_fraction ("." ++ fp ++ tail)) with (span_digits (fp ++ tail)).
  rewrite span_digits_app by done.
  change (String c ip ++ fp) with (String c (ip ++ fp)) in *.
  rewrite Hex, Hn. done.
Qed.

(** A literal without a point, whose tail is an exponent. *)
Lemma parse_decimal_without_point negative c ip tail n ex :
  Str.forallb Str.is_digit (String c ip) = true ->
  take_exponent ("e" ++ tail) = (ex, "") ->
  digits_value (String c ip) = Some n ->
  parse_decimal (sign_text negative ++ String c ip ++ "e" ++ tail)
  = Some (Some (normal (signed negative n) ex)).
Proof.
  intros Hip Hex Hn. unfold parse_decimal.
  assert (Hc : Str.is_digit c = true) by (simpl in Hip; by apply andb_true_iff in Hip as [? _]).
  change (String c ip ++ "e" ++ tail) with (String c (ip ++ "e" ++ tail)).
  rewrite take_sign_sign_text by done.
  change (String c (ip ++ "e" ++ tail)) with (String c ip ++ "e" ++ tail).
  rewrite span_digits_app by done.
  change (take_fraction ("e" ++ tail)) with ("", "e" ++ tail).
  cbv beta iota. rewrite append_nil_r.
  rewrite Hex, Hn. simpl. do 3 f_equal. lia.
Qed.

Lemma take_exponent_empty : take_exponent "" = (0, "").
Proof. done. Qed.

Lemma take_exponent_text x : take_exponent ("e" ++ exponent_text x) = (x, "").
Proof.
  unfold exponent_text.
  set (ds := digits_of (Z.abs x)).
  set (padded := if (String.length ds <? 2)%nat then "0" ++ ds else ds).
  assert (Hall : Str.forallb Str.is_digit padded = true).
  { unfold padded. destruct (_ <? _)%nat; [simpl|]; apply all_digits_digits_of. }
  assert (Hval : digits_value padded = Some (Z.abs x)).
  { unfold padded. destruct (_ <? _)%nat; [|apply digits_value_digits_of; lia].
    unfold digits_value. simpl. apply digits_value_digits_of. lia. }
  assert (Hne : exists c more, padded = String c more).
  { unfold padded. destruct (_ <? _)%nat; [simpl; eauto|apply digits_of_nonempty]. }
  destruct Hne as (c & more & Hpadded).
  assert (Hc : Str.is_digit c = true).
  { rewrite Hpadded in Hall. simpl in Hall. by apply andb_true_iff in Hall as [? _]. }
  change (take_exponent ("e" ++ (if x <? 0 then "-" else "+") ++ padded))
    with (let '(negative, s1) := take_sign ((if x <? 0 then "-" else "+") ++ padded) in
          let '(ds, s2) := span_digits s1 in
          match ds, digits_value ds with
          | String _ _, Some n => (signed negative n, s2)
          | _, _ => (0, "e" ++ (if x <? 0 then "-" else "+") ++ padded)
          end).
  assert (Hsign : take_sign ((if x <? 0 then "-" else "+") ++ padded)
                  = (x <? 0, padded)) by (by destruct (x <? 0)).
  rewrite Hsign. cbv beta iota zeta.
  rewrite span_digits_all by done. cbv beta iota zeta.
  rewrite Hpadded in Hval |- *. by rewrite Hval, signed_abs.
Qed.

(** *** Reading back what [repr] writes *)

Lemma parse_decimal_repr_finite m e :
  m mod 10 <> 0 -> parse_decimal (repr_finite m e) = Some (Some (Fin m e)).
Proof.
  intros Hnd. unfold repr_finite.
  change (if m <? 0 then "-" else "") with (sign_text (m <? 0)).
  pose proof (all_digits_digits_of (Z.abs m)) as Hall.
  pose proof (digits_value_digits_of (Z.abs m) (Z.abs_nonneg m)) as Hval.
  destruct (digits_of_nonempty (Z.abs m)) as (c & more & Hds).
  set (ds := digits_of (Z.abs m)) in *.
  set (decpt := Z.of_nat (String.length ds) + e).
  assert (Hlen : Z.of_nat (String.length ds) = 1 + Z.of_nat (String.length more)).
  { rewrite Hds. simpl. lia. }
  assert (Hfinish : forall e', e' = e ->
            normal (signed (m <? 0) (Z.abs m)) e' = Fin m e).
  { intros e' ->. rewrite signed_abs. apply normal_of_normal. by right. }
  destruct ((decpt <=? -4) || (16 <? decpt)) eqn:Hexp.
  - (* exponent notation *)
    unfold scientific. rewrite Hds. rewrite Hds in Hall, Hval. clear Hexp.
    destruct more as [|c2 more].
    + rewrite (parse_decimal_without_point _ c "" _ (Z.abs m) (decpt - 1));
        [|done|apply take_exponent_text|done].
      rewrite Hfinish; [done|]. unfold decpt. simpl in Hlen. lia.
    + change (String c ("." ++ String c2 more) ++ "e" ++ exponent_text (decpt - 1))
        with (String c "" ++ "." ++ String c2 more
              ++ "e" ++ exponent_text (decpt - 1)).
      rewrite (parse_decimal_with_point _ c "" (String c2 more) _ (Z.abs m)
                 (decpt - 1)).
      * rewrite Hfinish; [done|]. unfold decpt. lia.
      * simpl in Hall |- *. apply andb_true_iff in Hall as [-> _]. done.
      * simpl in Hall. by apply andb_true_iff in Hall as [_ ?].
      * done.
      * apply take_exponent_text.
      * done.
  - (* fixed notation *)
    unfold fixed. fold ds.
    destruct (Z.leb_spec decpt 0) as [Hsmall|Hbig].
    + replace ("0." ++ zeros (Z.to_nat (- decpt)) ++ ds)
        with ("0" ++ "." ++ (zeros (Z.to_nat (- decpt)) ++ ds) ++ "")
        by (by rewrite append_nil_r).
      rewrite (parse_decimal_with_point _ "0" "" _ "" (Z.abs m) 0).
      * rewrite Hfinish; [done|]. rewrite length_append, length_zeros.
        unfold decpt in *. lia.
      * done.
      * by rewrite forallb_app, all_digits_zeros, Hall.
      * done.
      * done.
      * unfold digits_value. change ("0" ++ zeros (Z.to_nat (- decpt)) ++ ds)
          with (String "0" (zeros (Z.to_nat (- decpt)) ++ ds)).
        cbn [digits_from]. change (Str.is_digit "0") with true. cbn iota.
        rewrite digits_from_app, digits_from_zeros. simpl. exact Hval.
    + destruct (Z.leb_spec (Z.of_nat (String.length ds)) decpt) as [Hint|Hfrac].
      * set (k := (Z.to_nat decpt - String.length ds)%nat).
        replace (ds ++ zeros k ++ ".0")
          with ((ds ++ zeros k) ++ "." ++ "0" ++ "")
          by (by rewrite append_assoc).
        rewrite Hds at 1.
        change ((String c more ++ zeros k) ++ "." ++ "0" ++ "")
          with (String c (more ++ zeros k) ++ "." ++ "0" ++ "").
        rewrite (parse_decimal_with_point _ c (more ++ zeros k) "0" ""
                   (Z.abs m * 10 ^ Z.of_nat (S k)) 0).
        -- assert (Hk : Z.of_nat k = e) by (unfold k, decpt in *; lia).
           replace (signed (m <? 0) (Z.abs m * 10 ^ Z.of_nat (S k)))
             with (m * 10 ^ Z.of_nat (S k))
             by (unfold signed; destruct (Z.ltb_spec m 0); lia).
           replace (0 - Z.of_nat (String.length "0")) with (e - Z.of_nat (S k))
             by (simpl String.length; lia).
           rewrite normal_scaled; [done|done|lia].
        -- change (String c (more ++ zeros k)) with (String c more ++ zeros k).
           rewrite <- Hds. by rewrite forallb_app, all_digits_zeros, Hall.
        -- done.
        -- done.
        -- done.
        -- change (String c (more ++ zeros k) ++ "0")
             with ((String c more ++ zeros k) ++ "0").
           rewrite <- Hds, append_assoc. unfold digits_value.
           rewrite digits_from_app. fold (digits_value ds). rewrite Hval.
           change (digits_from (Z.abs m) (zeros k ++ zeros 1)
                   = Some (Z.abs m * 10 ^ Z.of_nat (S k))).
           rewrite digits_from_app, digits_from_zeros.
           change (digits_from (Z.abs m * 10 ^ Z.of_nat k) (zeros 1)
                   = Some (Z.abs m * 10 ^ Z.of_nat (S k))).
           rewrite digits_from_zeros. f_equal.
           change (10 ^ Z.of_nat 1) with 10.
           rewrite Nat2Z.inj_succ, Z.pow_succ_r by lia. ring.
      * set (i := Z.to_nat decpt).
        assert (Hi : (1 <= i < String.length ds)%nat) by (unfold i; lia).
        pose proof (substring_split ds i ltac:(lia)) as Hsplit.
        pose proof (length_substring ds 0 i ltac:(lia)) as Hl1.
        pose proof (length_substring ds i (String.length ds - i) ltac:(lia)) as Hl2.
        set (ip := String.substring 0 i ds) in *.
        set (fp := String.substring i (String.length ds - i) ds) in *.
        assert (Hip : Str.forallb Str.is_digit ip = true)
          by (by apply forallb_substring).
        assert (Hfp : Str.forallb Str.is_digit fp = true)
          by (by apply forallb_substring).
        destruct ip as [|c1 ip1] eqn:Eip; [simpl in Hl1; lia|].
        replace (String c1 ip1 ++ "." ++ fp)
          with (String c1 ip1 ++ "." ++ fp ++ "") by (by rewrite append_nil_r).
        rewrite (parse_decimal_with_point _ c1 ip1 fp "" (Z.abs m) 0);
          try done.
        -- rewrite Hfinish; [done|]. rewrite Hl2. unfold i, decpt in *. lia.
        -- by rewrite Hsplit.
Qed.

Lemma all_plain_digits ds :
  Str.forallb Str.is_digit ds = true -> Str.forallb plain ds = true.
Proof.
  apply forallb_impl. intros c.
  destruct c as [[] [] [] [] [] [] [] []]; intros H; try done.
Qed.

Lemma all_plain_repr_finite m e : Str.forallb plain (repr_finite m e) = true.
Proof.
  unfold repr_finite.
  pose proof (all_plain_digits _ (all_digits_digits_of (Z.abs m))) as Hds.
  set (ds := digits_of (Z.abs m)) in *. set (decpt := _ + e).
  rewrite forallb_app. apply andb_true_iff. split; [by destruct (m <? 0)|].
  destruct (_ || _).
  - unfold scientific, exponent_text. rewrite !forallb_app.
    pose proof (all_plain_digits _ (all_digits_digits_of (Z.abs (decpt - 1)))) as Hex.
    repeat (apply andb_true_iff; split); try done.
    + destruct ds as [|c [|c2 more]]; [done|done|].
      simpl in Hds |- *. apply andb_true_iff in Hds as [-> Hds]. exact Hds.
    + by destruct (_ <? 0).
    + destruct (_ <? 2)%nat; [simpl|]; exact Hex.
  - unfold fixed. destruct (_ <=? 0); [|destruct (_ <=? decpt)];
      rewrite ?forallb_app, ?Hds; simpl;
      rewrite ?(all_plain_digits _ (all_digits_zeros _)); try done.
    rewrite !(forallb_substring _ _ _ _ Hds). done.
Qed.

Lemma all_plain_float_repr x : Str.forallb plain (float_repr x) = true.
Proof. destruct x; [apply all_plain_repr_finite|done..]. Qed.

Lemma parse_float_repr x : is_normal x -> parse (float_repr x) = Some x.
Proof.
  destruct x as [m e| | |]; [|done..].
  intros [[-> ->]|Hnd]; [done|].
  unfold parse. simpl. by rewrite parse_decimal_repr_finite.
Qed.

(** [float(repr(x)) == x], and likewise after [clean_number] has dropped
    the dollar signs and commas, of which there are none. *)
Lemma py_float_plain s : Str.forallb plain s = true -> py_float s = parse s.
Proof.
  intros Hs. unfold py_float.
  rewrite strip_with_none.
  - rewrite (forallb_impl plain (fun c => negb (is_underscore c))); [done| |done].
    intros c. unfold plain. destruct (Str.is_c_space c), (is_underscore c); done.
  - revert Hs. apply forallb_impl. intros c. unfold plain.
    by destruct (Str.is_c_space c).
Qed.

Lemma py_float_float_repr x : is_normal x -> py_float (float_repr x) = Some x.
Proof.
  intros Hx. rewrite py_float_plain by apply all_plain_float_repr.
  by apply parse_float_repr.
Qed.

Lemma float_repr_nonempty x : Str.truthy (float_repr x) = true.
Proof.
  destruct x as [m e| | |]; [|done..]. simpl. unfold repr_finite.
  destruct (digits_of_nonempty (Z.abs m)) as (c & more & ->).
  destruct (m <? 0); [done|]. simpl.
  destruct (_ || _); [unfold scientific; by destruct more|].
  unfold fixed. destruct (_ <=? 0); [done|]. destruct (_ <=? _); [done|].
  by destruct (Z.to_nat _).
Qed.

Lemma py_float_is_normal s x : py_float s = Some x -> is_normal x.
Proof.
  assert (Hparse : forall t, parse t = Some x -> is_normal x).
  { intros t. unfold parse, parse_decimal, parse_inf_or_nan.
    destruct (take_sign t) as [negative t0].
    destruct (span_digits t0) as [ip t1]. destruct (take_fraction t1) as [fp t2].
    destruct (ip ++ fp) as [|c all].
    - destruct (_ || _); [destruct negative; by intros [= <-]|].
      destruct (String.eqb _ "nan"); [by intros [= <-]|done].
    - destruct (take_exponent t2) as [ex t3].
      destruct t3; [|done]. destruct (digits_value _); [|done].
      intros [= <-]. apply normal_is_normal. }
  unfold py_float. destruct (Str.forallb _ _); [apply Hparse|].
  destruct (underscores_ok _ _); [apply Hparse|done].
Qed.

End FloatFacts.

Module IdempotenceFacts.
Import Float Py Invoice Notions StrFacts FloatFacts.
Local Open Scope Q_scope.

Lemma remove_dollar_comma_plain s :
  Str.forallb plain s = true -> remove_dollar_comma s = s.
Proof.
  intros Hs. unfold remove_dollar_comma. apply filter_all.
  revert Hs. apply forallb_impl. intros c. unfold plain.
  destruct (Str.is_c_space c), (is_underscore c); simpl; try done.
Qed.

(** [clean_number] reads back the text of a float that it has made. *)
Lemma clean_number_float_repr x :
  is_normal x -> clean_number (PStr (float_repr x)) = Some x.
Proof.
  intros Hx. unfold clean_number. simpl. rewrite float_repr_nonempty. simpl.
  rewrite remove_dollar_comma_plain by apply all_plain_float_repr.
  by apply py_float_float_repr.
Qed.

Lemma clean_number_is_normal text x :
  clean_number (PStr text) = Some x -> is_normal x.
Proof.
  unfold clean_number. simpl. destruct (Str.truthy text); simpl; [|done].
  apply py_float_is_normal.
Qed.

(** C9, as amended. For every field and every ASCII string: when
    per-field validation of the string keeps a value, validating the
    string form of that value ([str] of it: the string itself, or the
    [repr] of the float) for the same field keeps the same value, with
    the same confidence. *)
Theorem validation_is_idempotent (field text : string) (v : pyval) (c : Q) :
  Str.isascii text = true ->
  validate_field field (PStr text) = (Some v, c) ->
  exists form,
    str v = Some form /\ validate_field field (PStr form) = (Some v, c).
Proof.
  intros _. unfold validate_field.
  change (truthy (PStr text)) with (Str.truthy text).
  destruct (Str.truthy text) eqn:Htext; cbn [negb]; [|done].
  assert (Hagain : forall form result,
            Str.truthy form = true ->
            validate_field_body field (PStr form) = Some result ->
            (if negb (truthy (PStr form)) then (None, 0.0)
             else match validate_field_body field (PStr form) with
                  | Some r => r
                  | None => (Some (PStr form), 0.3)
                  end) = result).
  { intros form result Hform ->.
    change (truthy (PStr form)) with (Str.truthy form). by rewrite Hform. }
  unfold validate_field_body in *.
  destruct (mem field amount_fields).
  { destruct (clean_number (PStr text)) as [x|] eqn:Hclean.
    2: { case_decide; [|done]. by intros [=]. }
    case_decide; [done|].
    intros [= <- <-]. exists (float_repr x). split; [done|].
    apply Hagain; [apply float_repr_nonempty|].
    rewrite clean_number_float_repr by (by eapply clean_number_is_normal).
    by case_decide. }
  destruct (mem field date_fields).
  { destruct (Re.match_ _ _ _) eqn:Hdate; intros [= <- <-];
      exists text; (split; [done|]); apply Hagain; [done| |done|];
      by rewrite Hdate. }
  destruct (String.eqb field "invoice_number").
  { intros [= <- <-]. exists (Str.upper text). split; [done|].
    apply Hagain; [by rewrite truthy_upper|]. by rewrite upper_idem. }
  destruct (String.eqb field "vendor_name").
  { intros [= <- <-]. exists (Str.title text). split; [done|].
    apply Hagain; [by rewrite truthy_title|]. by rewrite title_idem. }
  intros [= <- <-]. exists text. split; [done|]. by apply Hagain.
Qed.

Lemma validation_is_idempotent_witness :
  validate_field "total" (PStr "$1,100.00") = (Some (PFloat (Fin 11 2)), 0.9)
  /\ exists form,
       str (PFloat (Fin 11 2)) = Some form
       /\ validate_field "total" (PStr form) = (Some (PFloat (Fin 11 2)), 0.9).
Proof.
  assert (H : validate_field "total" (PStr "$1,100.00")
              = (Some (PFloat (Fin 11 2)), 0.9)) by (vm_compute; reflexivity).
  split; [exact H|].
  exact (validation_is_idempotent "total" "$1,100.00" (PFloat (Fin 11 2)) 0.9
           eq_refl H).
Defined.

(** [Unicode.title] is [Str.title] on ASCII strings. *)
Lemma unicode_title_from_ascii s : forall flag,
  Unicode.title_from flag (Unicode.of_string s)
  = Unicode.of_string (Str.title_from flag s).
Proof.
  unfold Unicode.of_string.
  induction s as [|a s IH]; intros flag; [done|].
  cbn [list_ascii_of_string List.map Unicode.title_from Str.title_from
       Unicode.is_cased].
  rewrite IH. by destruct flag.
Qed.

Lemma unicode_title_ascii s :
  Unicode.title (Unicode.of_string s) = Unicode.of_string (Str.title s).
Proof. apply unicode_title_from_ascii. Qed.

(** C9 as stated fails beyond ASCII: [title] is not idempotent there.
    The vendor name made of U+01F0 and the letter a is validated to J,
    U+030C, a; and that string, validated again, to J, U+030C, A: the
    combining caron is not cased, so the letter after it starts a
    word. *)
Lemma title_twice_differs :
  let value := [Unicode.SmallJCaron; Unicode.Basic "a"] in
  let once := [Unicode.Basic "J"; Unicode.CombiningCaron; Unicode.Basic "a"] in
  let twice := [Unicode.Basic "J"; Unicode.CombiningCaron; Unicode.Basic "A"] in
  Unicode.validate_vendor_name value = (Some once, 0.7)
  /\ Unicode.validate_vendor_name once = (Some twice, 0.7)
  /\ once <> twice.
Proof. repeat split. discriminate. Qed.

(** The string form in the example is [1100.0]; a vendor name and an
    invoice number, validated twice. *)
Example string_forms :
  str (PFloat (Fin 11 2)) = Some "1100.0"
  /\ validate_field "vendor_name" (PStr "acme corp, inc.")
     = (Some (PStr "Acme Corp, Inc."), 0.7)
  /\ validate_field "vendor_name" (PStr "Acme Corp, Inc.")
     = (Some (PStr "Acme Corp, Inc."), 0.7)
  /\ validate_field "invoice_number" (PStr "inv-2024-001")
     = (Some (PStr "INV-2024-001"), 0.9)
  /\ validate_field "invoice_number" (PStr "INV-2024-001")
     = (Some (PStr "INV-2024-001"), 0.9).
Proof. repeat split; vm_compute; reflexivity. Qed.

End IdempotenceFacts.

(** ** More on the rate limiter *)

Module LimiterMore.
Import RateLimiter LimiterOps Notions RateLimiterFacts.
Local Open Scope list_scope.

Lemma popleft_head_recent cutoff q :
  match popleft_while_old cutoff q with
  | t :: _ => cutoff <= t
  | [] => True
  end.
Proof.
  induction q as [|t q IH]; simpl; [done|].
  destruct (Z.ltb_spec t cutoff); [done|]. done.
Qed.

Lemma popleft_idem cutoff q :
  popleft_while_old cutoff (popleft_while_old cutoff q)
  = popleft_while_old cutoff q.
Proof.
  pose proof (popleft_head_recent cutoff q) as H.
  destruct (popleft_while_old cutoff q) as [|t q']; [done|]. simpl.
  destruct (Z.ltb_spec t cutoff); [lia|done].
Qed.

Lemma popleft_suffix cutoff q : suffix (popleft_while_old cutoff q) q.
Proof.
  induction q as [|t q IH]; simpl; [done|].
  destruct (t <? cutoff); [by apply suffix_cons_r|done].
Qed.

(** X1. At one time, [is_allowed] lets a request through exactly when
    [get_remaining_requests] reports that some remain; both prune the
    deque alike, and [is_allowed] then appends the time only when it
    lets the request through. *)
Theorem admission_iff_requests_remain (l : limiter) (client_ip : string) (now : Z) :
  ((is_allowed l client_ip now).1.1 = true
   <-> 0 < (get_remaining_requests l client_ip now).1)
  /\ deque_of (is_allowed l client_ip now).2 client_ip
     = deque_of (get_remaining_requests l client_ip now).2 client_ip
       ++ (if (is_allowed l client_ip now).1.1 then [now] else []).
Proof.
  split; [apply remaining_agrees_with_admission|].
  unfold is_allowed, get_remaining_requests. simpl.
  destruct (_ <=? _); simpl; rewrite !deque_of_store; [by rewrite app_nil_r|done].
Qed.

(** X2. The deques are per client: a call of any of the three methods
    for another client leaves the deque of this client, and with it
    every answer this client gets, as it was. *)
Theorem other_clients_do_not_interfere
    (l : limiter) (client_ip other : string) (t now : Z) :
  other <> client_ip ->
  let after := fun l' =>
    deque_of l' client_ip = deque_of l client_ip
    /\ (is_allowed l' client_ip now).1 = (is_allowed l client_ip now).1
    /\ (get_remaining_requests l' client_ip now).1
       = (get_remaining_requests l client_ip now).1
    /\ (get_reset_time l' client_ip).1 = (get_reset_time l client_ip).1 in
  after (is_allowed l other t).2
  /\ after (get_remaining_requests l other t).2
  /\ after (get_reset_time l other).2.
Proof.
  intros Hne.
  assert (Hstore : forall q,
    let l' := store l other q in
    deque_of l' client_ip = deque_of l client_ip
    /\ (is_allowed l' client_ip now).1 = (is_allowed l client_ip now).1
    /\ (get_remaining_requests l' client_ip now).1
       = (get_remaining_requests l client_ip now).1
    /\ (get_reset_time l' client_ip).1 = (get_reset_time l client_ip).1).
  { intros q l'. assert (Hd : deque_of l' client_ip = deque_of l client_ip)
      by (by apply deque_of_store_other).
    split; [done|].
    unfold is_allowed, get_remaining_requests, get_reset_time, limit_message.
    rewrite Hd. simpl. by destruct (_ <=? _). }
  cbv zeta. split; [|split].
  - unfold is_allowed. destruct (_ <=? _); apply Hstore.
  - apply Hstore.
  - apply Hstore.
Qed.

Lemma other_clients_do_not_interfere_witness :
  "5.6.7.8" <> "1.2.3.4"
  /\ deque_of (is_allowed limiter_after_one_request "5.6.7.8" 7).2 "1.2.3.4"
     = deque_of limiter_after_one_request "1.2.3.4".
Proof.
  assert (H : "5.6.7.8" <> "1.2.3.4") by discriminate.
  split; [exact H|].
  exact (proj1 (proj1 (other_clients_do_not_interfere limiter_after_one_request
                         "1.2.3.4" "5.6.7.8" 7 8 H))).
Defined.

Lemma deque_of_store_cases l ip ip' q :
  deque_of (store l ip q) ip' = if decide (ip = ip') then q else deque_of l ip'.
Proof.
  case_decide as H; [subst; apply deque_of_store|by apply deque_of_store_other].
Qed.

Lemma run_op_settings l o :
  max_requests (run_op l o) = max_requests l
  /\ window_seconds (run_op l o) = window_seconds l.
Proof.
  destruct o; simpl; unfold is_allowed, get_remaining_requests, get_reset_time;
    try destruct (_ <=? _); done.
Qed.

Lemma run_op_bounded l o :
  (forall ip, Z.of_nat (length (deque_of l ip)) <= max_requests l) ->
  forall ip, Z.of_nat (length (deque_of (run_op l o) ip)) <= max_requests l.
Proof.
  intros Hb ip. destruct o as [c now|c now|c]; simpl.
  - unfold is_allowed.
    pose proof (suffix_length _ _ (popleft_suffix (now - window_seconds l) (deque_of l c))) as Hs.
    destruct (Z.leb_spec (max_requests l)
      (Z.of_nat (length (popleft_while_old (now - window_seconds l) (deque_of l c)))));
      simpl; rewrite deque_of_store_cases; case_decide; subst; try apply Hb.
    + specialize (Hb ip). lia.
    + rewrite length_app. simpl. lia.
  - unfold get_remaining_requests. simpl.
    pose proof (suffix_length _ _ (popleft_suffix (now - window_seconds l) (deque_of l c))) as Hs.
    rewrite deque_of_store_cases; case_decide; subst; try apply Hb.
    specialize (Hb ip). lia.
  - unfold get_reset_time. simpl.
    rewrite deque_of_store_cases; case_decide; subst; apply Hb.
Qed.

(** X3. Whatever calls are made, in whatever order and at whatever
    times, the limiter never holds more than [max_requests] times for a
    client, provided that it started within that bound. *)
Theorem deque_never_exceeds_limit (l : limiter) (ops : list op) :
  (forall ip, Z.of_nat (length (deque_of l ip)) <= max_requests l) ->
  forall ip,
    Z.of_nat (length (deque_of (run_ops l ops) ip)) <= max_requests l.
Proof.
  unfold run_ops. revert l. induction ops as [|o ops IH]; intros l Hb ip; [apply Hb|].
  simpl. rewrite <- (proj1 (run_op_settings l o)). apply IH.
  intros ip'. rewrite (proj1 (run_op_settings l o)). by apply run_op_bounded.
Qed.

Lemma init_bounded m h :
  0 <= m -> forall ip, Z.of_nat (length (deque_of (init m h) ip)) <= max_requests (init m h).
Proof. intros Hm ip. unfold deque_of, init. simpl. rewrite lookup_empty. simpl. lia. Qed.

Lemma deque_never_exceeds_limit_witness :
  Z.of_nat (length (deque_of
    (run_ops rate_limiter [Admit "1.2.3.4" 0; Remaining "1.2.3.4" 5; ResetTime "5.6.7.8"])
    "1.2.3.4")) <= 10.
Proof.
  apply (deque_never_exceeds_limit rate_limiter
           [Admit "1.2.3.4" 0; Remaining "1.2.3.4" 5; ResetTime "5.6.7.8"]).
  intros ip. unfold deque_of, rate_limiter, init. simpl. rewrite lookup_empty. simpl. lia.
Defined.

Lemma popleft_sorted_recent cutoff q :
  StronglySorted Z.le q -> Forall (fun t => cutoff <= t) (popleft_while_old cutoff q).
Proof.
  induction 1 as [|t q Hs IH Hall]; simpl; [constructor|].
  destruct (Z.ltb_spec t cutoff); [done|].
  constructor; [done|]. eapply Forall_impl; [exact Hall|]. simpl. intros; lia.
Qed.

Lemma sorted_suffix (q q' : list Z) :
  suffix q' q -> StronglySorted Z.le q -> StronglySorted Z.le q'.
Proof.
  intros [k ->] Hs. induction k as [|a k IH]; [done|].
  simpl in Hs. inversion Hs; subst. by apply IH.
Qed.

Lemma sorted_snoc (q : list Z) now :
  StronglySorted Z.le q -> Forall (fun t => t <= now) q ->
  StronglySorted Z.le (q ++ [now]).
Proof.
  induction 1 as [|t q Hs IH Hall]; intros Hn; simpl.
  - repeat constructor.
  - inversion Hn; subst. constructor; [by apply IH|].
    apply Forall_app. split; [done|]. by constructor.
Qed.

(** X4. When the deque of a client is in time order and the clock has not
    gone back, a call of [is_allowed] leaves it in time order, not later
    than the clock, and with no time older than the window: the pruning
    from the left, which stops at the first recent time, has then removed
    every old one. *)
Theorem is_allowed_leaves_only_live_times
    (l : limiter) (client_ip : string) (now : Z) :
  0 <= window_seconds l ->
  StronglySorted Z.le (deque_of l client_ip) ->
  Forall (fun t => t <= now) (deque_of l client_ip) ->
  let q' := deque_of (is_allowed l client_ip now).2 client_ip in
  StronglySorted Z.le q'
  /\ Forall (fun t => now - window_seconds l <= t <= now) q'.
Proof.
  intros Hw Hs Hn. cbv zeta.
  pose proof (popleft_suffix (now - window_seconds l) (deque_of l client_ip)) as Hsuf.
  pose proof (popleft_sorted_recent (now - window_seconds l) _ Hs) as Hrec.
  pose proof (sorted_suffix _ _ Hsuf Hs) as Hs'.
  assert (Hn' : Forall (fun t => t <= now)
                  (popleft_while_old (now - window_seconds l) (deque_of l client_ip))).
  { destruct Hsuf as [k Hk]. rewrite Hk in Hn. by apply Forall_app in Hn as [_ ?]. }
  assert (Hboth : Forall (fun t => now - window_seconds l <= t <= now)
                  (popleft_while_old (now - window_seconds l) (deque_of l client_ip))).
  { apply Forall_forall. intros t Ht.
    rewrite Forall_forall in Hrec. rewrite Forall_forall in Hn'.
    specialize (Hrec t Ht). specialize (Hn' t Ht). simpl in *. lia. }
  unfold is_allowed. destruct (_ <=? _); simpl; rewrite deque_of_store.
  - done.
  - split; [by apply sorted_snoc|].
    apply Forall_app. split; [done|]. constructor; [lia|constructor].
Qed.

Lemma is_allowed_leaves_only_live_times_witness :
  let q' := deque_of (is_allowed limiter_after_one_request "1.2.3.4" 100000).2 "1.2.3.4" in
  StronglySorted Z.le q'
  /\ Forall (fun t => 100000 - 86400 <= t <= 100000) q'.
Proof.
  apply (is_allowed_leaves_only_live_times limiter_after_one_request "1.2.3.4" 100000).
  - vm_compute. discriminate.
  - change (deque_of limiter_after_one_request "1.2.3.4") with [0]. repeat constructor.
  - change (deque_of limiter_after_one_request "1.2.3.4") with [0].
    repeat constructor. lia.
Defined.

Lemma admit_all_cons l client_ip t ts :
  admit_all l client_ip (t :: ts)
  = ((is_allowed l client_ip t).1.1 && (admit_all (is_allowed l client_ip t).2 client_ip ts).1,
     (admit_all (is_allowed l client_ip t).2 client_ip ts).2).
Proof.
  simpl. destruct (is_allowed l client_ip t) as [[a m] l']. simpl.
  by destruct (admit_all l' client_ip ts).
Qed.

Lemma is_allowed_recent l client_ip t :
  Forall (fun p => t - window_seconds l <= p) (deque_of l client_ip) ->
  Z.of_nat (length (deque_of l client_ip)) < max_requests l ->
  is_allowed l client_ip t
  = ((true, None), store l client_ip (deque_of l client_ip ++ [t])).
Proof.
  intros Hrec Hlen. unfold is_allowed. rewrite popleft_recent by done.
  destruct (Z.leb_spec (max_requests l) (Z.of_nat (length (deque_of l client_ip))));
    [lia|done].
Qed.

Lemma admit_all_from l client_ip ts : forall recent now,
  deque_of l client_ip = recent ->
  Forall (fun t => now - window_seconds l <= t) recent ->
  Forall (fun t => now - window_seconds l <= t <= now) ts ->
  Z.of_nat (length recent) + Z.of_nat (length ts) <= max_requests l ->
  (admit_all l client_ip ts).1 = true
  /\ deque_of (admit_all l client_ip ts).2 client_ip = recent ++ ts
  /\ max_requests (admit_all l client_ip ts).2 = max_requests l
  /\ window_seconds (admit_all l client_ip ts).2 = window_seconds l.
Proof.
  revert l. induction ts as [|t ts IH]; intros l recent now Hq Hrec Hts Hlen.
  - simpl. by rewrite app_nil_r.
  - inversion Hts as [|? ? Ht Hts']; subst. rewrite admit_all_cons.
    rewrite length_cons in Hlen.
    rewrite is_allowed_recent; [| |lia].
    2:{ eapply Forall_impl; [exact Hrec|]. simpl. intros; lia. }
    cbn [fst snd andb].
    set (l1 := store l client_ip (deque_of l client_ip ++ [t])).
    destruct (IH l1 (deque_of l client_ip ++ [t]) now) as (H1 & H2 & H3 & H4).
    + apply deque_of_store.
    + apply Forall_app. split; [done|]. constructor; [simpl; lia|constructor].
    + done.
    + rewrite length_app. simpl. lia.
    + rewrite H1, H2, H3, H4. by rewrite <- app_assoc.
Qed.

(** X5. A client with no stored time who makes [n] requests within one
    window, [n] not above the limit, has every one of them let through,
    and is then told that the limit less [n] remain. *)
Theorem remaining_counts_down
    (l : limiter) (client_ip : string) (ts : list Z) (now : Z) :
  deque_of l client_ip = [] ->
  Forall (fun t => now - window_seconds l <= t <= now) ts ->
  Z.of_nat (length ts) <= max_requests l ->
  (admit_all l client_ip ts).1 = true
  /\ (get_remaining_requests (admit_all l client_ip ts).2 client_ip now).1
     = max_requests l - Z.of_nat (length ts).
Proof.
  intros Hq Hts Hlen.
  destruct (admit_all_from l client_ip ts [] now) as (H1 & H2 & H3 & H4);
    [done|constructor|done|simpl; lia|].
  split; [done|]. unfold get_remaining_requests. cbn [fst].
  rewrite H2, H3, H4. rewrite popleft_recent.
  - simpl. lia.
  - eapply Forall_impl; [exact Hts|]. simpl. intros; lia.
Qed.

Lemma remaining_counts_down_witness :
  (admit_all rate_limiter "1.2.3.4" [0; 1; 2]).1 = true
  /\ (get_remaining_requests (admit_all rate_limiter "1.2.3.4" [0; 1; 2]).2 "1.2.3.4" 5).1
     = 10 - 3.
Proof.
  apply (remaining_counts_down rate_limiter "1.2.3.4" [0; 1; 2] 5).
  - reflexivity.
  - repeat constructor; vm_compute; discriminate.
  - vm_compute. discriminate.
Defined.

End LimiterMore.

(** ** More on the duplicate detector *)

Module DetectorMore.
Import DuplicateDetector DetectorNotions Notions DetectorFacts.
Local Open Scope list_scope.

Section Facts.
Variable sha256 : list Byte.byte -> string.
Context {info : Type}.

Implicit Types (d : @detector info) (e : @entry info) (c : @call info).

Lemma forget_indexed d number : indexed d -> indexed (forget d number).
Proof.
  intros Hi n e He. unfold forget in *.
  destruct (processed_invoices d !! number) as [e0|] eqn:E0; [|by apply Hi].
  simpl in *.
  destruct (decide (number = n)) as [->|Hne]; [by rewrite lookup_delete_eq in He|].
  rewrite lookup_delete_ne in He by done.
  pose proof (Hi _ _ He) as Hin.
  destruct (client_invoices d !! client_ip e0) as [numbers|] eqn:Ec; [|done].
  destruct (decide (client_ip e0 = client_ip e)) as [Heq|Hip].
  - rewrite <- Heq in *. rewrite Ec in Hin. simpl in Hin.
    case_decide as Hempty.
    + exfalso. assert (n ∈ numbers ∖ {[number]}) by set_solver.
      rewrite Hempty in H. set_solver.
    + rewrite lookup_insert_eq. simpl. set_solver.
  - case_decide.
    + by rewrite lookup_delete_ne.
    + by rewrite lookup_insert_ne.
Qed.

Lemma foldl_forget_indexed numbers : forall d,
  indexed d -> indexed (foldl forget d numbers).
Proof.
  induction numbers as [|n numbers IH]; intros d Hi; [done|].
  simpl. by apply IH, forget_indexed.
Qed.

Lemma cleanup_indexed d now : indexed d -> indexed (_cleanup_old_entries d now).
Proof. apply foldl_forget_indexed. Qed.

Lemma remember_indexed d ip number hash invoice now :
  indexed d -> indexed (remember d ip number hash invoice now).
Proof.
  intros Hi n e He. unfold remember in *. simpl in *.
  destruct (decide (number = n)) as [->|Hne].
  - rewrite lookup_insert_eq in He. injection He as <-. simpl.
    rewrite lookup_insert_eq. simpl. set_solver.
  - rewrite lookup_insert_ne in He by done. pose proof (Hi _ _ He) as Hin.
    destruct (decide (ip = client_ip e)) as [->|Hip].
    + rewrite lookup_insert_eq. simpl. set_solver.
    + by rewrite lookup_insert_ne.
Qed.

Lemma check_duplicate_indexed d ip file_bytes invoice now :
  indexed d -> indexed (check_duplicate sha256 d ip file_bytes invoice now).2.
Proof.
  intros Hi.
  destruct (check_duplicate_state sha256 d ip file_bytes invoice now)
    as [->|(number & _ & _ & _ & ->)].
  - by apply cleanup_indexed.
  - by apply remember_indexed, cleanup_indexed.
Qed.

Lemma reachable_indexed d : reachable sha256 d -> indexed d.
Proof.
  induction 1 as [hours|d c _ IH].
  - intros number e He. unfold init in He. simpl in He.
    by rewrite lookup_empty in He.
  - by apply check_duplicate_indexed.
Qed.

Lemma indexed_by_invoice_number d number e :
  indexed d -> processed_invoices d !! number = Some e ->
  by_invoice_number d (client_ip e) number = Some e.
Proof.
  intros Hi He. unfold by_invoice_number.
  rewrite decide_True by (by apply Hi). rewrite He. simpl.
  by rewrite String.eqb_refl.
Qed.

Lemma consistent_by_content_hash d number e :
  consistent d -> processed_invoices d !! number = Some e ->
  by_content_hash d (content_hash e) = Some e.
Proof.
  intros Hc He. unfold by_content_hash. rewrite (Hc _ _ He). simpl. done.
Qed.

(** X6. In every detector that calls can make of a new one, an entry
    that is stored is found again both ways: through its content hash,
    and by its client through its invoice number. *)
Theorem stored_entries_are_found (d : @detector info) (number : string) (e : @entry info) :
  reachable sha256 d ->
  processed_invoices d !! number = Some e ->
  by_content_hash d (content_hash e) = Some e
  /\ by_invoice_number d (client_ip e) number = Some e.
Proof.
  intros Hr He. split.
  - eapply consistent_by_content_hash; [by eapply reachable_consistent|done].
  - apply indexed_by_invoice_number; [by eapply reachable_indexed|done].
Qed.

(** X7. After a call at time [now], no stored entry is older than the
    retention: the old ones have all been evicted, whatever the answer,
    and an entry that the call stores has the time [now]. *)
Theorem after_a_call_no_entry_is_expired
    (d : @detector info) (ip : string) (file_bytes : list Byte.byte)
    (invoice : @invoice_data info) (now : Z) (number : string) (e : @entry info) :
  0 <= retention_seconds d ->
  processed_invoices (check_duplicate sha256 d ip file_bytes invoice now).2 !! number
  = Some e ->
  now - retention_seconds d <= timestamp e.
Proof.
  intros HR.
  assert (Hd1 : forall n e', processed_invoices (_cleanup_old_entries d now) !! n = Some e' ->
                 now - retention_seconds d <= timestamp e').
  { intros n e'. rewrite cleanup_processed.
    destruct (processed_invoices d !! n) as [e0|]; [|done].
    case_decide; [done|]. intros [= <-]. lia. }
  destruct (check_duplicate_state sha256 d ip file_bytes invoice now)
    as [->|(n & _ & _ & _ & ->)]; [apply Hd1|].
  unfold remember. simpl.
  destruct (decide (n = number)) as [->|Hne].
  - rewrite lookup_insert_eq. intros [= <-]. simpl. lia.
  - rewrite lookup_insert_ne by done. apply Hd1.
Qed.

(** X8. The anatomy of an answer.  The answer is "duplicate" exactly
    when an entry comes with it.  A "duplicate" answer stores nothing:
    the detector is the one that eviction leaves, and the entry that is
    returned is one of its entries, reached through the content hash of
    the bytes, or else stored by the same client under the number of the
    invoice.  A "no duplicate" answer for an invoice whose number is not
    empty stores the invoice under that number. *)
Theorem anatomy_of_an_answer
    (d : @detector info) (ip : string) (file_bytes : list Byte.byte)
    (invoice : @invoice_data info) (now : Z) :
  let r := check_duplicate sha256 d ip file_bytes invoice now in
  let d1 := _cleanup_old_entries d now in
  match r.1 with
  | (true, Some previous) =>
      r.2 = d1
      /\ exists number,
           processed_invoices d1 !! number = Some previous
           /\ (invoice_hashes d1 !! sha256 file_bytes = Some number
               \/ (key_of invoice = Some number /\ client_ip previous = ip))
  | (false, None) =>
      by_content_hash d1 (sha256 file_bytes) = None
      /\ match key_of invoice with
         | Some number =>
             processed_invoices r.2 !! number
             = Some (new_entry ip (sha256 file_bytes) invoice now)
         | None => r.2 = d1
         end
  | _ => False
  end.
Proof.
  cbv zeta. unfold check_duplicate, generate_content_hash.
  destruct (by_content_hash _ _) as [previous|] eqn:Hh.
  - simpl. split; [done|]. unfold by_content_hash in Hh.
    destruct (invoice_hashes _ !! _) as [number|] eqn:En; [|done].
    simpl in Hh. exists number. split; [done|]. by left.
  - destruct (key_of invoice) as [number|] eqn:Hk; [|done].
    destruct (by_invoice_number _ _ _) as [previous|] eqn:Hn.
    + simpl. split; [done|]. unfold by_invoice_number in Hn.
      case_decide; [|done].
      destruct (processed_invoices _ !! number) as [e|] eqn:Ep; [|done].
      simpl in Hn. destruct (String.eqb_spec (client_ip e) ip); [|done].
      injection Hn as <-. exists number. split; [done|]. by right.
    + simpl. split; [done|]. by rewrite lookup_insert_eq.
Qed.

(** X9. The second check.  When a client still has an entry under an
    invoice number, a document of that client whose extraction gives the
    same number is answered "duplicate", whatever its bytes are. *)
Theorem same_client_same_number_is_duplicate
    (d : @detector info) (number : string) (e : @entry info)
    (file_bytes : list Byte.byte) (invoice : @invoice_data info) (now : Z) :
  reachable sha256 d ->
  processed_invoices d !! number = Some e ->
  now - retention_seconds d <= timestamp e ->
  key_of invoice = Some number ->
  let r := check_duplicate sha256 d (client_ip e) file_bytes invoice now in
  r.1.1 = true /\ r.2 = _cleanup_old_entries d now.
Proof.
  intros Hr He Hlive Hk. cbv zeta.
  assert (Hn : by_invoice_number (_cleanup_old_entries d now) (client_ip e) number = Some e).
  { apply indexed_by_invoice_number.
    - by apply cleanup_indexed, (reachable_indexed d).
    - rewrite cleanup_processed, He. case_decide; [lia|done]. }
  unfold check_duplicate. destruct (by_content_hash _ _); [done|].
  by rewrite Hk, Hn.
Qed.

(** X10. Invoice numbers are one key for all clients.  When a client
    sends new bytes under a number that another client still has an
    entry for, the answer is "no duplicate" and the new entry takes the
    place of the other client's: that client's own number is then no
    longer found for it, and the bytes it sent are answered with the
    entry of the newcomer. *)
Theorem number_of_another_client_is_overwritten
    (d : @detector info) (number ip : string) (e : @entry info)
    (file_bytes : list Byte.byte) (invoice : @invoice_data info) (now : Z) :
  reachable sha256 d ->
  processed_invoices d !! number = Some e ->
  now - retention_seconds d <= timestamp e ->
  client_ip e <> ip ->
  key_of invoice = Some number ->
  by_content_hash (_cleanup_old_entries d now) (sha256 file_bytes) = None ->
  let r := check_duplicate sha256 d ip file_bytes invoice now in
  let newcomer := new_entry ip (sha256 file_bytes) invoice now in
  r.1 = (false, None)
  /\ processed_invoices r.2 !! number = Some newcomer
  /\ by_invoice_number r.2 (client_ip e) number = None
  /\ by_content_hash r.2 (content_hash e) = Some newcomer.
Proof.
  intros Hr He Hlive Hip Hk Hmiss. cbv zeta.
  set (d1 := _cleanup_old_entries d now) in *.
  assert (He1 : processed_invoices d1 !! number = Some e).
  { unfold d1. rewrite cleanup_processed, He. case_decide; [lia|done]. }
  assert (Hc1 : consistent d1) by (by apply cleanup_consistent, (reachable_consistent sha256 d)).
  assert (Hn : by_invoice_number d1 ip number = None).
  { unfold by_invoice_number. case_decide; [|done]. rewrite He1. simpl.
    destruct (String.eqb_spec (client_ip e) ip); done. }
  assert (Hne : content_hash e <> sha256 file_bytes).
  { intros Heq. rewrite <- Heq in Hmiss.
    rewrite (consistent_by_content_hash d1 number e) in Hmiss; done. }
  unfold check_duplicate, generate_content_hash. fold d1.
  rewrite Hmiss, Hk, Hn. simpl. split; [done|].
  split; [by rewrite lookup_insert_eq|]. split.
  - unfold by_invoice_number. simpl. case_decide; [|done].
    rewrite lookup_insert_eq. simpl.
    destruct (String.eqb_spec ip (client_ip e)); [congruence|done].
  - unfold by_content_hash. simpl.
    rewrite lookup_insert_ne by done. rewrite (Hc1 _ _ He1). simpl.
    by rewrite lookup_insert_eq.
Qed.

End Facts.

Lemma detector_after_first_reachable : reachable bytes_as_text detector_after_first.
Proof.
  exact (reachable_call bytes_as_text (init 24)
           {| call_ip := "1.1.1.1"; call_bytes := document_1;
              call_invoice := invoice_A; call_time := 0 |}
           (reachable_init bytes_as_text 24)).
Qed.

Lemma detector_after_first_entry :
  processed_invoices detector_after_first !! "A" = Some first_entry.
Proof. vm_compute. reflexivity. Qed.

Lemma stored_entries_are_found_witness :
  by_content_hash detector_after_first (bytes_as_text document_1) = Some first_entry
  /\ by_invoice_number detector_after_first "1.1.1.1" "A" = Some first_entry.
Proof.
  exact (stored_entries_are_found bytes_as_text detector_after_first "A" first_entry
           detector_after_first_reachable detector_after_first_entry).
Defined.

Lemma after_a_call_no_entry_is_expired_witness :
  0 <= retention_seconds (@init unit 24)
  /\ 0 - retention_seconds (@init unit 24) <= timestamp first_entry.
Proof.
  assert (H : 0 <= retention_seconds (@init unit 24)) by (simpl; lia).
  split; [exact H|].
  exact (after_a_call_no_entry_is_expired bytes_as_text (init 24) "1.1.1.1"
           document_1 invoice_A 0 "A" first_entry H detector_after_first_entry).
Defined.

Lemma same_client_same_number_is_duplicate_witness :
  (check_duplicate bytes_as_text detector_after_first "1.1.1.1" document_2
     invoice_A 10).1.1 = true
  /\ (check_duplicate bytes_as_text detector_after_first "1.1.1.1" document_2
        invoice_A 10).2 = _cleanup_old_entries detector_after_first 10.
Proof.
  assert (H1 : 10 - retention_seconds detector_after_first <= timestamp first_entry)
    by (vm_compute; discriminate).
  assert (H2 : key_of invoice_A = Some "A") by reflexivity.
  exact (same_client_same_number_is_duplicate bytes_as_text detector_after_first
           "A" first_entry document_2 invoice_A 10
           detector_after_first_reachable detector_after_first_entry H1 H2).
Defined.

Lemma number_of_another_client_is_overwritten_witness :
  let r := check_duplicate bytes_as_text detector_after_first "2.2.2.2" document_2
             invoice_A 10 in
  let newcomer := new_entry "2.2.2.2" (bytes_as_text document_2) invoice_A 10 in
  r.1 = (false, None)
  /\ processed_invoices r.2 !! "A" = Some newcomer
  /\ by_invoice_number r.2 "1.1.1.1" "A" = None
  /\ by_content_hash r.2 (bytes_as_text document_1) = Some newcomer.
Proof.
  assert (H1 : 10 - retention_seconds detector_after_first <= timestamp first_entry)
    by (vm_compute; discriminate).
  assert (H2 : client_ip first_entry <> "2.2.2.2") by discriminate.
  assert (H3 : key_of invoice_A = Some "A") by reflexivity.
  assert (H4 : by_content_hash (_cleanup_old_entries detector_after_first 10)
                 (bytes_as_text document_2) = None) by (vm_compute; reflexivity).
  exact (number_of_another_client_is_overwritten bytes_as_text detector_after_first
           "A" "2.2.2.2" first_entry document_2 invoice_A 10
           detector_after_first_reachable detector_after_first_entry H1 H2 H3 H4).
Defined.

End DetectorMore.

(** ** More on the validation of a candidate map *)

Module InvoiceMore.
Import Float Py Invoice Notions InvoiceNotions PyFacts InvoiceFacts StrFacts ConfidenceFacts.
Local Open Scope Q_scope.

Lemma validate_field_kept field value v c :
  validate_field field value = (Some v, c) ->
  In c field_scores
  /\ (if mem field amount_fields then exists x, v = PFloat x
      else truthy v = true).
Proof.
  unfold validate_field, field_scores.
  destruct (truthy value) eqn:Ht; [|done]. cbn [negb].
  unfold validate_field_body.
  destruct (mem field amount_fields) eqn:Ha.
  { destruct (clean_number value) as [x|]; [|done].
    intros [= <- <-]. split; [simpl; tauto|eauto]. }
  destruct (mem field date_fields).
  { destruct value as [|text| |]; try (intros [= <- <-]; split; [simpl; tauto|done]).
    destruct (Re.match_ _ _ _); intros [= <- <-]; (split; [simpl; tauto|done]). }
  destruct (String.eqb field "invoice_number").
  { destruct value as [|text| |]; intros [= <- <-]; (split; [simpl; tauto|]); try done.
    simpl in *. by rewrite truthy_upper. }
  destruct (String.eqb field "vendor_name").
  { destruct value as [|text| |]; intros [= <- <-]; (split; [simpl; tauto|]); try done.
    simpl in *. by rewrite truthy_title. }
  intros [= <- <-]. split; [simpl; tauto|done].
Qed.

Lemma validate_items_cleaned items : forall validated confidence,
  cleaned validated -> scored confidence ->
  cleaned (validate_items items validated confidence).1
  /\ scored (validate_items items validated confidence).2.
Proof.
  induction items as [|[field value] items IH]; intros validated confidence Hc Hs;
    [done|].
  cbn [validate_items].
  destruct (String.eqb field "line_items") eqn:E.
  - apply String.eqb_eq in E. subst field. apply IH.
    + apply Forall_set; [done|]. simpl. by left.
    + apply Forall_set; [done|]. simpl.
      destruct (truthy value); [right; unfold field_scores; simpl; tauto|by left].
  - destruct (validate_field field value) as [[v|] c] eqn:Hv; [|by apply IH].
    apply validate_field_kept in Hv as [Hin Hval]. apply IH.
    + apply Forall_set; [done|]. cbn [fst snd].
      destruct (mem field amount_fields); [done|by right].
    + apply Forall_set; [done|]. by right.
Qed.

Lemma validate_extraction_cleaned data :
  cleaned (extracted_data (validate_extraction data))
  /\ scored (field_confidence (validate_extraction data)).
Proof.
  unfold validate_extraction.
  pose proof (validate_items_cleaned data [] [] (List.Forall_nil _) (List.Forall_nil _)) as H.
  by destruct (validate_items data [] []).
Qed.

Lemma validated_keys_agree data field :
  has_key (extracted_data (validate_extraction data)) field
  = has_key (field_confidence (validate_extraction data)) field.
Proof.
  unfold validate_extraction.
  pose proof (validate_items_keys data [] [] eq_refl) as Hk.
  destruct (validate_items data [] []) as [validated confidence].
  cbn [fst snd extracted_data field_confidence] in *.
  by rewrite !has_key_keys, Hk.
Qed.

(** X11. Whatever the candidate map, a score in [field_confidence] is
    one of 0.3, 0.5, 0.6, 0.7, 0.8 and 0.9, but for the score 0.0 of a
    [line_items] entry that is falsy; so every score lies between 0 and
    0.9. *)
Theorem every_score_is_a_field_score (data : dict pyval) (field : string) (c : Q) :
  get (field_confidence (validate_extraction data)) field = Some c ->
  (field = "line_items" /\ c = 0.0 \/ In c field_scores)
  /\ 0 <= c <= 0.9.
Proof.
  intros Hg. destruct (validate_extraction_cleaned data) as [_ Hs].
  pose proof (get_Forall _ _ _ _ Hs Hg) as H. cbn [fst snd] in H.
  split; [exact H|].
  destruct H as [[_ ->]|Hin]; [lra|].
  unfold field_scores in Hin. simpl in Hin.
  repeat (destruct Hin as [<-|Hin]; [lra|]). done.
Qed.

Lemma every_score_is_a_field_score_witness :
  (("total" = "line_items" /\ 0.9 = 0.0 \/ In 0.9 field_scores) /\ 0 <= 0.9 <= 0.9).
Proof.
  apply (every_score_is_a_field_score typed_example "total" 0.9).
  vm_compute. reflexivity.
Defined.

(** *** The overall confidence of a well scored map *)

Lemma validate_items_well_scored items : forall validated confidence,
  rows_not_empty items -> well_scored confidence ->
  well_scored (validate_items items validated confidence).2.
Proof.
  induction items as [|[field value] items IH]; intros validated confidence Hr Hs;
    [done|].
  inversion Hr as [|? ? Hfv Hr']; subst. cbn [validate_items].
  destruct (String.eqb field "line_items") eqn:E.
  - apply String.eqb_eq in E. subst field. apply IH; [done|].
    apply Forall_set; [done|]. cbn [fst snd] in *. rewrite Hfv by done.
    unfold field_scores. simpl. tauto.
  - destruct (validate_field field value) as [[v|] c] eqn:Hv; [|by apply IH].
    apply validate_field_kept in Hv as [Hin Hval]. apply IH; [done|].
    by apply Forall_set.
Qed.

Lemma round_half_even_ge q (n : Z) : inject_Z n <= q -> (n <= round_half_even q)%Z.
Proof.
  intros Hq. unfold round_half_even.
  assert (Hlow : (n <= Qfloor q)%Z).
  { rewrite <- (Qfloor_Z n). by apply Qfloor_resp_le. }
  destruct (Qcompare _ _); [destruct (Z.even _)| |]; lia.
Qed.

Lemma round2_ge_tenth q : 0.1 <= q -> 0.1 <= round2 q.
Proof.
  intros Hq. unfold round2. rewrite Qred_correct.
  assert (Hn : (10 <= round_half_even (q * 100))%Z).
  { apply round_half_even_ge. change (inject_Z 10) with 10. lra. }
  apply Qle_shift_div_l; [lra|]. rewrite Zle_Qle in Hn.
  change (inject_Z 10) with 10 in Hn. lra.
Qed.

Lemma sum_at_least (l : list Q) (c : Q) :
  Forall (fun x => c <= x) l -> c * inject_Z (Z.of_nat (length l)) <= sum l.
Proof.
  induction 1 as [|x l Hx Hl IH].
  - unfold sum. cbn [fold_left length]. change (inject_Z (Z.of_nat 0)) with 0. lra.
  - unfold sum. cbn [fold_left length].
    pose proof (sum_from l (0 + x)) as Hs.
    rewrite Nat2Z.inj_succ, <- Z.add_1_r, inject_Z_plus.
    change (inject_Z 1) with 1. lra.
Qed.

Lemma average_at_least (confidence : dict Q) (c : Q) :
  confidence <> [] -> Forall (fun kv => c <= kv.2) confidence ->
  c <= average confidence.
Proof.
  intros Hne Hall. unfold average.
  assert (Hn : 0 < inject_Z (Z.of_nat (length confidence))).
  { destruct confidence; [done|]. rewrite <- (Zlt_Qlt 0). simpl. lia. }
  apply Qle_shift_div_l; [done|].
  rewrite <- (length_map snd confidence). apply sum_at_least.
  unfold values. apply Forall_map. exact Hall.
Qed.

Lemma count_missing_le_4 (confidence : dict Q) : (count_missing confidence <= 4)%nat.
Proof.
  unfold count_missing.
  etransitivity; [apply List.filter_length_le|]. done.
Qed.

Lemma overall_confidence_raw confidence math :
  confidence <> [] ->
  calculate_overall_confidence confidence math
  = round2 (Qmin 1 (raw_score confidence (calculations_correct math))).
Proof.
  intros Hne. destruct confidence as [|kv confidence]; [done|].
  unfold calculate_overall_confidence. apply round2_comp.
  rewrite min_one_Qmin. by rewrite final_confidence_raw_score.
Qed.

Lemma well_scored_bounds confidence math :
  well_scored confidence ->
  0 <= calculate_overall_confidence confidence math <= 1
  /\ (confidence <> [] -> 0.1 <= calculate_overall_confidence confidence math).
Proof.
  intros Hs.
  destruct (decide (confidence = [])) as [->|Hne].
  { split; [|done]. unfold calculate_overall_confidence. lra. }
  rewrite overall_confidence_raw by done.
  assert (Hlow : 0.1 <= round2 (Qmin 1 (raw_score confidence (calculations_correct math)))).
  { apply round2_ge_tenth. apply Q.min_glb; [lra|].
    unfold raw_score.
    assert (Ha : 0.3 <= average confidence).
    { apply average_at_least; [done|]. eapply Forall_impl; [exact Hs|].
      intros kv Hin. unfold field_scores in Hin. simpl in Hin.
      repeat (destruct Hin as [<-|Hin]; [lra|]). done. }
    pose proof (count_missing_le_4 confidence) as Hm.
    assert (Hm' : inject_Z (Z.of_nat (count_missing confidence)) <= 4).
    { change 4 with (inject_Z 4). rewrite <- Zle_Qle. lia. }
    destruct (calculations_correct math); lra. }
  split; [|done]. split; [lra|]. apply round2_le_1. apply Q.le_min_l.
Qed.

(** X12. When what stands under [line_items] in the candidate map, if
    anything, is not empty, the overall confidence of the validation is
    a number between 0 and 1; it is 0 only when no field is kept, and at
    least 0.10 otherwise. *)
Theorem overall_confidence_between_0_and_1 (data : dict pyval) :
  rows_not_empty data ->
  let r := validate_extraction data in
  0 <= overall_confidence r <= 1
  /\ (field_confidence r = [] -> overall_confidence r = 0.0)
  /\ (field_confidence r <> [] -> 0.1 <= overall_confidence r).
Proof.
  intros Hr. cbv zeta. unfold validate_extraction.
  pose proof (validate_items_well_scored data [] [] Hr (List.Forall_nil _)) as Hs.
  destruct (validate_items data [] []) as [validated confidence].
  cbn [snd overall_confidence field_confidence] in *.
  destruct (well_scored_bounds confidence (validate_mathematics validated) Hs) as [Hb Hl].
  split; [done|]. split; [|done]. by intros ->.
Qed.

Lemma overall_confidence_between_0_and_1_witness :
  rows_not_empty typed_example
  /\ 0 <= overall_confidence (validate_extraction typed_example) <= 1.
Proof.
  assert (H : rows_not_empty typed_example).
  { unfold rows_not_empty, typed_example. repeat constructor; discriminate. }
  split; [exact H|].
  exact (proj1 (overall_confidence_between_0_and_1 typed_example H)).
Defined.

(** *** The arithmetic of [validate_mathematics] on a validated record *)

Lemma get_or_zero_cleaned validated key :
  cleaned validated -> mem key amount_fields = true ->
  get_or_zero validated key = PFloat (amount_of validated key).
Proof.
  intros Hc Hk. unfold get_or_zero, amount_of.
  destruct (get validated key) as [v|] eqn:Hg; [|done].
  pose proof (get_Forall _ _ _ _ Hc Hg) as H. cbn [fst snd] in H.
  rewrite Hk in H. destruct H as [x ->]. simpl. by destruct (Float.truthy x).
Qed.

Lemma totals_match_cleaned validated :
  cleaned validated ->
  totals_match validated
  = Some (PFloat (amount_of validated "subtotal"),
          Float.ltb
            (Float.abs
               (Float.sub
                  (Float.sub
                     (Float.add
                        (Float.add (amount_of validated "subtotal")
                                   (amount_of validated "tax_amount"))
                        (amount_of validated "shipping"))
                     (amount_of validated "discount"))
                  (amount_of validated "total")))
            tolerance).
Proof.
  intros Hc. unfold totals_match.
  rewrite !(get_or_zero_cleaned validated) by done. reflexivity.
Qed.

(** X13. On the record that [validate_extraction] makes of a candidate
    map, whatever the map holds, the first check of
    [validate_mathematics] never raises: each of the five amounts that
    it reads with [data.get(key, 0) or 0] is a float, so the sums, the
    differences, [abs] and the comparison are all defined, and the
    subtotal that it hands to the second check is a float. *)
Theorem total_check_never_raises (data : dict pyval) :
  let r := validate_extraction data in
  (forall key, In key amount_fields ->
     exists x, get_or_zero (extracted_data r) key = PFloat x)
  /\ exists x flag, totals_match (extracted_data r) = Some (PFloat x, flag).
Proof.
  cbv zeta. destruct (validate_extraction_cleaned data) as [Hc _].
  split.
  - intros key Hkey. eexists. apply get_or_zero_cleaned; [done|].
    unfold mem. apply existsb_exists. exists key. split; [done|].
    apply String.eqb_refl.
  - rewrite (totals_match_cleaned _ Hc). eauto.
Qed.

(** *** The missing fields and the penalties *)

Lemma has_key_get {V} (d : dict V) k : has_key d k = false <-> get d k = None.
Proof. unfold has_key. destruct (get d k); split; done. Qed.

(** X14. A required field is reported in [missing_required_fields]
    exactly when it has no score, and so is penalised in the overall
    confidence, or when it is [total] and the total that was kept is
    zero: a zero total has the score 0.9 and is reported missing. *)
Theorem missing_fields_are_the_penalised_ones (data : dict pyval) (field : string) :
  let r := validate_extraction data in
  In field (missing_required_fields r)
  <-> In field required_fields
      /\ (has_key (field_confidence r) field = false
          \/ field = "total"
             /\ exists x, get (extracted_data r) "total" = Some (PFloat x)
                          /\ Float.truthy x = false).
Proof.
  cbv zeta.
  destruct (validate_extraction_cleaned data) as [Hc _].
  pose proof (validated_keys_agree data field) as Hk.
  revert Hc Hk. unfold validate_extraction.
  destruct (validate_items data [] []) as [validated confidence].
  cbn [extracted_data field_confidence missing_required_fields]. intros Hc Hk.
  unfold get_missing_required_fields. rewrite filter_In.
  rewrite <- Hk.
  match goal with
  | |- ?A /\ ?B <-> ?A /\ ?C => enough (A -> (B <-> C)) by tauto
  end.
  intros Hreq.
  destruct (get validated field) as [v|] eqn:Hg.
  - assert (Hh : has_key validated field = true) by (unfold has_key; by rewrite Hg).
    rewrite Hh. pose proof (get_Forall _ _ _ _ Hc Hg) as H. cbn [fst snd] in H.
    unfold required_fields in Hreq. simpl in Hreq.
    destruct Hreq as [<-|[<-|[<-|[<-|[]]]]]; simpl in H.
    + destruct H as [[=]|H]. rewrite H. split; [done|]. intros [[=]|[[=] _]].
    + destruct H as [[=]|H]. rewrite H. split; [done|]. intros [[=]|[[=] _]].
    + destruct H as [x ->]. rewrite Hg. simpl. split.
      * intros Hx. right. split; [done|]. exists x. split; [done|].
        by destruct (Float.truthy x).
      * intros [[=]|[_ (y & [= <-] & ->)]]. done.
    + destruct H as [[=]|H]. rewrite H. split; [done|]. intros [[=]|[[=] _]].
  - assert (Hh : has_key validated field = false) by (unfold has_key; by rewrite Hg).
    rewrite Hh. split; [by left|done].
Qed.

End InvoiceMore.

(** ** What the regular expressions capture, and the shape of the candidate map *)

Module ReFacts.
Import Re ReNotions StrFacts.

Section Provenance.
Variable f : flags.
Context {R : Type}.
Variable p : ascii -> bool.
Variable Q : option R -> Prop.
Hypothesis Q_None : Q None.

Lemma orelse_inv (x y : option R) : Q x -> Q y -> Q (orelse x y).
Proof. by destruct x. Qed.

Lemma lit_inv s k : forall p0 g t,
  made_of p {| prev := p0; rest := t; grp := g |} ->
  (forall st, made_of p st -> Q (k st)) ->
  Q (lit f s k p0 g t).
Proof.
  induction s as [|l s IH]; intros p0 g t Hst Hk; simpl; [by apply Hk|].
  destruct t as [|c t]; [done|].
  destruct (lit_ok f l c); [|done]. apply IH; [|done].
  destruct Hst as [Ht Hg]. simpl in *. split; [|done].
  simpl. by apply andb_prop in Ht as [_ ?].
Qed.

Lemma rep_inv ok greedy k : forall t lo hi p0 g,
  made_of p {| prev := p0; rest := t; grp := g |} ->
  (forall st, made_of p st -> Q (k st)) ->
  Q (rep ok greedy lo hi k p0 g t).
Proof.
  induction t as [|c t IH]; intros lo hi p0 g Hst Hk.
  - simpl. destruct (exhausted hi); [by apply Hk|].
    destruct lo; [|done].
    destruct greedy; simpl;
      first [by apply Hk | apply orelse_inv; [by apply Hk|done]].
  - simpl. destruct (exhausted hi); [by apply Hk|].
    assert (Hmore : Q (if ok c then rep ok greedy (Nat.pred lo) (decr hi) k (Some c) g t
                       else None)).
    { destruct (ok c); [|done]. apply IH; [|done].
      destruct Hst as [Ht Hg]. simpl in *. split; [|done].
      simpl. by apply andb_prop in Ht as [_ ?]. }
    destruct lo; [|done].
    destruct greedy; apply orelse_inv; try done; by apply Hk.
Qed.

Lemma go_inv r : forall k st,
  made_of p st -> (forall st', made_of p st' -> Q (k st')) -> Q (go f r k st).
Proof.
  induction r as [s|a|greedy lo hi a|r IH|r1 IH1 r2 IH2|r1 IH1 r2 IH2|r IH| | ];
    intros k st Hst Hk; simpl.
  - apply lit_inv; [by destruct st|done].
  - apply rep_inv; [by destruct st|done].
  - apply rep_inv; [by destruct st|done].
  - apply orelse_inv; [by apply IH|by apply Hk].
  - apply IH1; [done|]. intros st' Hst'. by apply IH2.
  - apply orelse_inv; [by apply IH1|by apply IH2].
  - apply IH; [done|]. intros st' [Hr' _]. apply Hk. split; [done|].
    simpl. intros g [= <-]. unfold consumed. apply forallb_substring.
    by destruct Hst.
  - destruct (at_bol f st); [by apply Hk|done].
  - destruct (at_eol f st); [by apply Hk|done].
Qed.

End Provenance.

(** The text of group 1 of a match is made of characters of the
    subject. *)
Lemma search_from_made_of f r (p : ascii -> bool) : forall t p0 g,
  Str.forallb p t = true ->
  search_from f r p0 t = Some (Some g) -> Str.forallb p g = true.
Proof.
  induction t as [|c t IH]; intros p0 g Ht.
  - simpl. unfold orelse.
    pose proof (go_inv f p (fun res => forall g, res = Some (Some g) -> Str.forallb p g = true)
                  ltac:(done) r (fun st => Some (grp st))
                  {| prev := p0; rest := ""; grp := None |}) as H.
    destruct (go f r _ _) as [m|] eqn:E; [|done].
    intros [= ->]. apply H; [done| |done].
    intros st [_ Hg] g' [= Hgg]. by apply Hg.
  - cbn [search_from]. unfold orelse.
    pose proof (go_inv f p (fun res => forall g, res = Some (Some g) -> Str.forallb p g = true)
                  ltac:(done) r (fun st => Some (grp st))
                  {| prev := p0; rest := String c t; grp := None |}) as H.
    destruct (go f r _ _) as [m|] eqn:E.
    + intros [= ->]. apply H; [done| |done].
      intros st [_ Hg] g' [= Hgg]. by apply Hg.
    + apply IH. simpl in Ht. by apply andb_prop in Ht as [_ ?].
Qed.

Lemma search_made_of f r (p : ascii -> bool) t g :
  Str.forallb p t = true ->
  search f r t = Some (Some g) -> Str.forallb p g = true.
Proof. apply search_from_made_of. Qed.

End ReFacts.

Module ExtractionFacts.
Import Float Py Invoice Notions InvoiceNotions ExtractionNotions PyFacts InvoiceFacts StrFacts ReFacts.
Local Open Scope list_scope.

Lemma forallb_drop_while p q s :
  Str.forallb p s = true -> Str.forallb p (Str.drop_while q s) = true.
Proof.
  induction s as [|c s IH]; simpl; [done|].
  intros [Hc Hs]%andb_true_iff. destruct (q c); [by apply IH|].
  simpl. by rewrite Hc, Hs.
Qed.

Lemma forallb_rev p s : Str.forallb p (Str.rev s) = Str.forallb p s.
Proof. unfold Str.rev. rewrite forallb_rev_onto. simpl. by rewrite andb_true_r. Qed.

Lemma forallb_strip p s :
  Str.forallb p s = true -> Str.forallb p (Str.strip s) = true.
Proof.
  intros Hs. unfold Str.strip, Str.strip_with.
  rewrite forallb_rev. apply forallb_drop_while.
  rewrite forallb_rev. by apply forallb_drop_while.
Qed.

Lemma first_match_made_of (p : ascii -> bool) patterns text g :
  Str.forallb p text = true ->
  first_match patterns text = Some (Some g) -> Str.forallb p g = true.
Proof.
  intros Ht. induction patterns as [|r patterns IH]; simpl; [done|].
  destruct (Re.search Re.IM r text) as [m|] eqn:E; [|done].
  intros [= ->]. by eapply search_made_of.
Qed.

Lemma NoDup_keys_set {V} (d : dict V) k v :
  NoDup (keys d) -> NoDup (keys (set d k v)).
Proof.
  intros Hd. rewrite keys_set. destruct (mem k (keys d)) eqn:E; [done|].
  apply NoDup_app. split; [done|]. split; [|apply NoDup_singleton].
  intros x Hx ->%list_elem_of_singleton.
  assert (mem k (keys d) = true); [|congruence].
  unfold mem. apply existsb_exists. exists k. split.
  - by apply list_elem_of_In.
  - apply String.eqb_refl.
Qed.

Lemma extract_from_shape (p : ascii -> bool) text :
  Str.forallb p text = true ->
  forall table extracted data,
  incl (keys table) table_fields ->
  NoDup (keys extracted) ->
  Forall (fun kv => In kv.1 table_fields
                    /\ exists s, kv.2 = PStr s /\ Str.forallb p s = true) extracted ->
  extract_from table text extracted = Some data ->
  NoDup (keys data)
  /\ Forall (fun kv => In kv.1 table_fields
                       /\ exists s, kv.2 = PStr s /\ Str.forallb p s = true) data.
Proof.
  intros Ht. induction table as [|[field patterns] table IH];
    intros extracted data Hincl Hnd Hall; simpl.
  - by intros [= <-].
  - assert (Hincl' : incl (keys table) table_fields).
    { intros x Hx. apply Hincl. by right. }
    destruct (first_match patterns text) as [[g|]|] eqn:E; [|done|].
    + apply IH; [done|by apply NoDup_keys_set|].
      apply Forall_set; [done|]. simpl. split; [apply Hincl; by left|].
      eexists. split; [done|]. apply forallb_strip.
      by eapply first_match_made_of.
    + by apply IH.
Qed.

Lemma lower_char_not_upper c : Str.is_upper (Str.lower_char c) = false.
Proof.
  destruct c as [[] [] [] [] [] [] [] []]; vm_compute; reflexivity.
Qed.

Lemma lower_not_upper s :
  Str.forallb (fun c => negb (Str.is_upper c)) (Str.lower s) = true.
Proof.
  unfold Str.lower. induction s as [|c s IH]; simpl; [done|].
  by rewrite lower_char_not_upper, IH.
Qed.

Lemma lower_of_not_upper s :
  Str.forallb (fun c => negb (Str.is_upper c)) s = true -> Str.lower s = s.
Proof.
  unfold Str.lower. induction s as [|c s IH]; simpl; [done|].
  intros [Hc Hs]%andb_true_iff. rewrite (IH Hs).
  unfold Str.lower_char. by destruct (Str.is_upper c).
Qed.

Lemma extract_line_items_length text : (length (extract_line_items text) <= 10)%nat.
Proof. unfold extract_line_items. rewrite length_firstn. lia. Qed.

Lemma extract_fields_cases text data :
  extract_fields text = Some data ->
  exists extracted,
    extract_from Patterns.patterns (Str.lower text) [] = Some extracted
    /\ data = match extract_line_items text with
              | [] => extracted
              | _ => set extracted "line_items" (PItems (extract_line_items text))
              end.
Proof.
  unfold extract_fields.
  destruct (extract_from _ _ _) as [extracted|]; [|done]. simpl.
  intros [= <-]. exists extracted. split; [done|].
  by destruct (extract_line_items text).
Qed.

Lemma extract_fields_entries (p : ascii -> bool) text data :
  Str.forallb p (Str.lower text) = true ->
  extract_fields text = Some data ->
  NoDup (keys data)
  /\ Forall (fun kv => match kv.2 with
                       | PStr s => In kv.1 table_fields /\ Str.forallb p s = true
                       | PItems rows =>
                           kv.1 = "line_items" /\ rows <> []
                           /\ (length rows <= 10)%nat
                       | _ => False
                       end) data.
Proof.
  intros Hp (extracted & He & ->)%extract_fields_cases.
  destruct (extract_from_shape p (Str.lower text) Hp Patterns.patterns [] extracted)
    as [Hnd Hall]; [by intros x Hx|constructor|constructor|done|].
  assert (Hall' : Forall (fun kv => match kv.2 with
                       | PStr s => In kv.1 table_fields /\ Str.forallb p s = true
                       | PItems rows =>
                           kv.1 = "line_items" /\ rows <> []
                           /\ (length rows <= 10)%nat
                       | _ => False
                       end) extracted).
  { eapply Forall_impl; [exact Hall|]. intros [k v] [Hk (s & -> & Hs)]. done. }
  pose proof (extract_line_items_length text) as Hlen.
  destruct (extract_line_items text) as [|row rows] eqn:E; [done|].
  split; [by apply NoDup_keys_set|].
  apply Forall_set; [done|]. simpl. split; [done|]. split; [done|]. exact Hlen.
Qed.

(** X15. The shape of what [extract_fields] returns. No key occurs
    twice; a value is a string under a field of the pattern table, or,
    under [line_items], a list of between one and ten rows. So the map
    is one that [validate_extraction] is made for: what stands under
    [line_items] is a list of rows and is not empty. *)
Theorem extract_fields_is_well_formed (text : string) (data : dict pyval) :
  extract_fields text = Some data ->
  NoDup (keys data)
  /\ (forall field v, get data field = Some v -> well_formed field v)
  /\ rows_typed data
  /\ rows_not_empty data.
Proof.
  intros He.
  destruct (extract_fields_entries (fun _ => true) text data) as [Hnd Hall];
    [by induction (Str.lower text)|done|].
  split; [done|]. split; [|split].
  - intros field v Hg. pose proof (get_Forall _ _ _ _ Hall Hg) as H.
    cbn [fst snd] in H. unfold well_formed. destruct v; try done. tauto.
  - eapply Forall_impl; [exact Hall|]. intros [k v] H Hk. simpl in *.
    destruct v as [|s| |rows]; try done; [|by eauto].
    subst k. destruct H as [Hin _]. exfalso. revert Hin. vm_compute.
    intuition discriminate.
  - eapply Forall_impl; [exact Hall|]. intros [k v] H Hk. simpl in *.
    destruct v as [|s| |rows]; try done.
    + subst k. destruct H as [Hin _]. exfalso. revert Hin. vm_compute.
      intuition discriminate.
    + destruct H as (_ & Hne & _). by destruct rows.
Qed.

(** X16. A string that [extract_fields] returns is made of characters
    of the lower-cased text: whatever holds of every character of
    [text.lower()] holds of every character of the value. So the value
    has no upper-case letter: lower-casing it changes nothing. *)
Theorem extracted_strings_come_from_the_text
    (text : string) (data : dict pyval) (field s : string) :
  extract_fields text = Some data ->
  get data field = Some (PStr s) ->
  (forall p : ascii -> bool,
     Str.forallb p (Str.lower text) = true -> Str.forallb p s = true)
  /\ Str.lower s = s.
Proof.
  intros He Hg.
  assert (H : forall p : ascii -> bool,
            Str.forallb p (Str.lower text) = true -> Str.forallb p s = true).
  { intros p Hp. destruct (extract_fields_entries p text data Hp He) as [_ Hall].
    pose proof (get_Forall _ _ _ _ Hall Hg) as H. cbn [fst snd] in H. tauto. }
  split; [exact H|].
  apply lower_of_not_upper, H, lower_not_upper.
Qed.

Lemma extract_fields_is_well_formed_witness :
  exists data,
    extract_fields example_text = Some data
    /\ NoDup (keys data)
    /\ (forall field v, get data field = Some v -> well_formed field v)
    /\ rows_typed data
    /\ rows_not_empty data.
Proof.
  eexists. split; [vm_compute; reflexivity|].
  apply (extract_fields_is_well_formed example_text). vm_compute. reflexivity.
Defined.

Lemma extracted_strings_come_from_the_text_witness :
  exists data,
    extract_fields example_text = Some data
    /\ get data "invoice_number" = Some (PStr "inv-2024-001")
    /\ Str.lower "inv-2024-001" = "inv-2024-001".
Proof.
  eexists. split; [vm_compute; reflexivity|]. split; [vm_compute; reflexivity|].
  refine (proj2 (extracted_strings_come_from_the_text example_text _
                   "invoice_number" "inv-2024-001" _ _));
    vm_compute; reflexivity.
Defined.

End ExtractionFacts.

(** ** The analysis of a text, from the candidate map to the report *)

Module PipelineFacts.
Import Float Py Invoice Extractor Notions InvoiceNotions ExtractionNotions PyFacts InvoiceFacts
  StrFacts FloatFacts IdempotenceFacts InvoiceMore ExtractionFacts.
Local Open Scope Q_scope.

(** X17. What [clean_number] returns, it returns again when it is given
    that float, with one exception: zero. The float 0.0 is falsy, so
    [clean_number] gives [None] for it, whereas it reads the string
    ["0"] as 0.0. *)
Theorem clean_number_again (value : pyval) (x : pyfloat) :
  clean_number value = Some x ->
  clean_number (PFloat x) = if Float.truthy x then Some x else None.
Proof.
  intros Hx.
  assert (Hn : is_normal x).
  { revert Hx. unfold clean_number. destruct (truthy value); [|done]. cbn [negb].
    destruct (str value) as [text|]; [|done]. apply py_float_is_normal. }
  unfold clean_number. change (truthy (PFloat x)) with (Float.truthy x).
  destruct (Float.truthy x); [|done]. cbn [negb str].
  rewrite remove_dollar_comma_plain by apply all_plain_float_repr.
  by apply py_float_float_repr.
Qed.

Lemma clean_number_again_witness :
  clean_number (PStr "0") = Some zero
  /\ clean_number (PFloat zero) = None
  /\ clean_number (PFloat (Fin 11 1)) = Some (Fin 11 1).
Proof.
  assert (H0 : clean_number (PStr "0") = Some zero) by (vm_compute; reflexivity).
  assert (H1 : clean_number (PStr "$110.00") = Some (Fin 11 1)) by (vm_compute; reflexivity).
  split; [exact H0|]. split.
  - exact (clean_number_again (PStr "0") zero H0).
  - exact (clean_number_again (PStr "$110.00") (Fin 11 1) H1).
Defined.

Lemma present_missing data field :
  In field required_fields ->
  present data field = true <-> ~ In field (get_missing_required_fields data).
Proof.
  intros Hreq. unfold get_missing_required_fields, present.
  rewrite filter_In.
  destruct (get data field) as [v|] eqn:Hg.
  - destruct (truthy v) eqn:Ht; simpl; intuition discriminate.
  - intuition discriminate.
Qed.

Lemma validate_items_rows_not_empty items : forall validated confidence,
  rows_not_empty items -> rows_not_empty validated ->
  rows_not_empty (validate_items items validated confidence).1.
Proof.
  induction items as [|[field value] items IH]; intros validated confidence Hi Hv;
    [done|].
  inversion Hi as [|? ? Hfv Hi']; subst. cbn [validate_items].
  destruct (String.eqb field "line_items") eqn:E.
  - apply IH; [done|]. by apply Forall_set.
  - destruct (validate_field field value) as [[v|] c]; [|by apply IH].
    apply IH; [done|]. apply Forall_set; [done|]. cbn [fst].
    intros ->. by rewrite String.eqb_refl in E.
Qed.

(** X18. The result of the analysis of a text hangs together. The
    overall confidence is between 0 and 1. The flag
    [calculations_valid] is the flag [subtotal_tax_total_match].
    Vendor information and a financial summary are reported exactly when
    [vendor_name] and [total] are not among the missing required fields;
    and line items are reported exactly when they have a score, which is
    then 0.8. *)
Theorem analysis_is_coherent
    (raw_text : string) (r : validation_result) (q : data_quality) :
  analyse raw_text = Some (r, q) ->
  0 <= overall_confidence r <= 1
  /\ calculations_valid q = subtotal_tax_total_match (math_validation_of r)
  /\ (has_vendor_info q = true
      <-> ~ In "vendor_name" (missing_required_fields r))
  /\ (has_financial_summary q = true
      <-> ~ In "total" (missing_required_fields r))
  /\ (has_line_items q = true
      <-> has_key (field_confidence r) "line_items" = true)
  /\ (has_line_items q = true
      -> get (field_confidence r) "line_items" = Some 0.8).
Proof.
  unfold analyse. destruct (extract_fields raw_text) as [data|] eqn:He; [|done].
  intros [= <- <-].
  destruct (extract_fields_entries (fun _ => true) raw_text data) as [_ Hall];
    [by induction (Str.lower raw_text)|done|].
  assert (Htyped : rows_typed data).
  { eapply Forall_impl; [exact Hall|]. intros [k v] H Hk. simpl in *.
    destruct v as [|s| |rows]; try done; [|by eauto].
    subst k. destruct H as [Hin _]. exfalso. revert Hin. vm_compute.
    intuition discriminate. }
  assert (Hrows : rows_not_empty data).
  { eapply Forall_impl; [exact Hall|]. intros [k v] H Hk. simpl in *.
    destruct v as [|s| |rows]; try done.
    - subst k. destruct H as [Hin _]. exfalso. revert Hin. vm_compute.
      intuition discriminate.
    - destruct H as (_ & Hne & _). by destruct rows. }
  pose proof (validate_items_typed data [] [] Htyped (List.Forall_nil _)) as Hvt.
  pose proof (validate_items_well_scored data [] [] Hrows (List.Forall_nil _)) as Hws.
  pose proof (validate_items_rows data [] [] eq_refl) as Hrs.
  pose proof (validate_items_rows_not_empty data [] [] Hrows (List.Forall_nil _)) as Hne.
  pose proof (validate_items_keys data [] [] eq_refl) as Hks.
  destruct (validate_items_cleaned data [] [] (List.Forall_nil _) (List.Forall_nil _))
    as [Hcl _].
  unfold quality_of, validate_extraction.
  destruct (validate_items data [] []) as [validated confidence].
  cbn [fst snd extracted_data field_confidence math_validation_of overall_confidence
       missing_required_fields calculations_valid has_vendor_info
       has_financial_summary has_line_items] in *.
  split; [apply (well_scored_bounds confidence _ Hws)|].
  split; [by apply validate_mathematics_typed|].
  split; [apply present_missing; simpl; tauto|].
  split; [apply present_missing; simpl; tauto|].
  assert (Hpresent : present validated "line_items" = true ->
            get confidence "line_items" = Some 0.8).
  { unfold present, rows_scored in *.
    destruct (get validated "line_items") as [v|]; [|done].
    intros Ht. by rewrite Ht in Hrs. }
  split; [|exact Hpresent].
  split.
  - intros Hp. unfold has_key. by rewrite (Hpresent Hp).
  - rewrite has_key_keys, <- Hks, <- has_key_keys. unfold has_key, present.
    destruct (get validated "line_items") as [v|] eqn:Hg; [|done].
    intros _. exact (get_Forall _ _ _ _ Hne Hg eq_refl).
Qed.

Lemma analysis_is_coherent_witness :
  exists r q,
    analyse example_text = Some (r, q)
    /\ 0 <= overall_confidence r <= 1
    /\ calculations_valid q = subtotal_tax_total_match (math_validation_of r).
Proof.
  destruct (analyse example_text) as [[r q]|] eqn:E;
    [|vm_compute in E; discriminate].
  exists r, q. split; [reflexivity|].
  pose proof (analysis_is_coherent example_text r q E) as H.
  split; [exact (proj1 H)|exact (proj1 (proj2 H))].
Defined.

End PipelineFacts.

(** ** When [extract_fields] raises *)

Module GroupFacts.
Import Re ReNotions StrFacts.

Section Groups.
Variable f : flags.
Context {R : Type}.
Variable Q : option R -> Prop.
Hypothesis Q_None : Q None.

Lemma orelse_Q (x y : option R) : Q x -> Q y -> Q (orelse x y).
Proof. by destruct x. Qed.

Lemma lit_grp s k : forall p0 g t,
  (forall st, grp st = g -> Q (k st)) -> Q (lit f s k p0 g t).
Proof.
  induction s as [|l s IH]; intros p0 g t Hk; simpl; [by apply Hk|].
  destruct t as [|c t]; [done|].
  destruct (lit_ok f l c); [|done]. by apply IH.
Qed.

Lemma rep_grp ok greedy k : forall t lo hi p0 g,
  (forall st, grp st = g -> Q (k st)) -> Q (rep ok greedy lo hi k p0 g t).
Proof.
  induction t as [|c t IH]; intros lo hi p0 g Hk.
  - simpl. destruct (exhausted hi); [by apply Hk|].
    destruct lo; [|done].
    destruct greedy; simpl;
      first [by apply Hk | apply orelse_Q; [by apply Hk|done]].
  - simpl. destruct (exhausted hi); [by apply Hk|].
    assert (Hmore : Q (if ok c then rep ok greedy (Nat.pred lo) (decr hi) k (Some c) g t
                       else None)).
    { destruct (ok c); [|done]. by apply IH. }
    destruct lo; [|done].
    destruct greedy; apply orelse_Q; try done; by apply Hk.
Qed.

(** Once group 1 is set it stays set. *)
Lemma go_keeps_group r : forall k st,
  grp st <> None -> (forall st', grp st' <> None -> Q (k st')) -> Q (go f r k st).
Proof.
  induction r as [s|a|greedy lo hi a|r IH|r1 IH1 r2 IH2|r1 IH1 r2 IH2|r IH| | ];
    intros k st Hst Hk; simpl.
  - apply lit_grp. intros st' E. apply Hk. by rewrite E.
  - apply rep_grp. intros st' E. apply Hk. by rewrite E.
  - apply rep_grp. intros st' E. apply Hk. by rewrite E.
  - apply orelse_Q; [by apply IH|by apply Hk].
  - apply IH1; [done|]. intros st' Hst'. by apply IH2.
  - apply orelse_Q; [by apply IH1|by apply IH2].
  - apply IH; [done|]. intros st' _. by apply Hk.
  - destruct (at_bol f st); [by apply Hk|done].
  - destruct (at_eol f st); [by apply Hk|done].
Qed.

Lemma go_any r : forall k st, (forall st', Q (k st')) -> Q (go f r k st).
Proof.
  induction r as [s|a|greedy lo hi a|r IH|r1 IH1 r2 IH2|r1 IH1 r2 IH2|r IH| | ];
    intros k st Hk; simpl.
  - apply lit_grp. by intros.
  - apply rep_grp. by intros.
  - apply rep_grp. by intros.
  - apply orelse_Q; [by apply IH|by apply Hk].
  - apply IH1. intros st'. by apply IH2.
  - apply orelse_Q; [by apply IH1|by apply IH2].
  - apply IH. by intros.
  - destruct (at_bol f st); [by apply Hk|done].
  - destruct (at_eol f st); [by apply Hk|done].
Qed.

Lemma go_sets_group r : forall k st,
  sets_group r = true ->
  (forall st', grp st' <> None -> Q (k st')) -> Q (go f r k st).
Proof.
  induction r as [s|a|greedy lo hi a|r IH|r1 IH1 r2 IH2|r1 IH1 r2 IH2|r IH| | ];
    intros k st Hr Hk; simpl in *; try done.
  - apply orb_true_iff in Hr as [Hr|Hr].
    + apply IH1; [done|]. intros st' Hst'. by apply go_keeps_group.
    + apply go_any. intros st'. by apply IH2.
  - apply andb_true_iff in Hr as [Hr1 Hr2].
    apply orelse_Q; [by apply IH1|by apply IH2].
  - apply go_any. intros st'. by apply Hk.
Qed.

End Groups.

Lemma search_from_sets_group f r : forall t p0,
  sets_group r = true -> search_from f r p0 t <> Some None.
Proof.
  intros t p0 Hr. revert p0. induction t as [|c t IH]; intros p0.
  - simpl. unfold orelse.
    pose proof (go_sets_group f (fun res => res <> Some None) ltac:(done) r
                  (fun st => Some (grp st)) {| prev := p0; rest := ""; grp := None |} Hr) as H.
    destruct (go f r _ _) as [m|] eqn:E; [|done].
    apply H. intros st' Hst' [= E']. done.
  - cbn [search_from]. unfold orelse.
    pose proof (go_sets_group f (fun res => res <> Some None) ltac:(done) r
                  (fun st => Some (grp st))
                  {| prev := p0; rest := String c t; grp := None |} Hr) as H.
    destruct (go f r _ _) as [m|] eqn:E; [|apply IH].
    apply H. intros st' Hst' [= E']. done.
Qed.

End GroupFacts.

Module RaiseFacts.
Import Float Py Invoice Notions ReNotions ExtractionNotions PyFacts StrFacts GroupFacts ExtractionFacts.
Local Open Scope list_scope.

Lemma first_match_grouped patterns text :
  forallb sets_group patterns = true -> first_match patterns text <> Some None.
Proof.
  induction patterns as [|r patterns IH]; simpl; [done|].
  intros [Hr Hrs]%andb_true_iff.
  pose proof (search_from_sets_group Re.IM r text None Hr) as H.
  unfold Re.search. destruct (Re.search_from Re.IM r None text) as [m|]; [|by apply IH].
  intros [= ->]. done.
Qed.

Lemma extract_from_grouped table text : forall extracted,
  forallb (fun fp => forallb sets_group fp.2) table = true ->
  is_Some (extract_from table text extracted).
Proof.
  induction table as [|[field patterns] table IH]; intros extracted; simpl; [eauto|].
  intros [Hp Ht]%andb_true_iff.
  pose proof (first_match_grouped patterns text Hp) as H.
  destruct (first_match patterns text) as [[g|]|]; [by apply IH|done|by apply IH].
Qed.

Lemma extract_from_app table1 table2 text : forall extracted,
  extract_from (table1 ++ table2) text extracted
  = extract_from table1 text extracted ≫= extract_from table2 text.
Proof.
  induction table1 as [|[field patterns] table1 IH]; intros extracted; simpl; [done|].
  destruct (first_match patterns text) as [[g|]|]; [apply IH|done|apply IH].
Qed.

Lemma patterns_split :
  Patterns.patterns
  = removelast Patterns.patterns ++ [("payment_method", payment_method_patterns)].
Proof. reflexivity. Qed.

Lemma extract_fields_None text :
  extract_fields text = None
  <-> first_match payment_method_patterns (Str.lower text) = Some None.
Proof.
  unfold extract_fields. rewrite patterns_split, extract_from_app.
  destruct (extract_from_grouped (removelast Patterns.patterns) (Str.lower text) [])
    as [extracted ->]; [vm_compute; reflexivity|].
  cbn [mbind option_bind extract_from].
  destruct (first_match payment_method_patterns (Str.lower text)) as [[g|]|];
    simpl; split; done.
Qed.

(** *** The words of the second pattern *)

Lemma lower_char_fixed c : Str.is_upper c = false -> Str.lower_char c = c.
Proof. unfold Str.lower_char. by intros ->. Qed.

Lemma lit_prefix w : forall p0 t,
  Str.forallb (fun c => negb (Str.is_upper c)) w = true ->
  Str.forallb (fun c => negb (Str.is_upper c)) t = true ->
  Re.lit Re.IM w (fun st => Some (Re.grp st)) p0 None t
  = if String.prefix w t then Some None else None.
Proof.
  induction w as [|l w IH]; intros p0 t Hw Ht.
  - simpl. by destruct t.
  - simpl in Hw. apply andb_true_iff in Hw as [Hl Hw].
    destruct t as [|c t]; [done|].
    simpl in Ht. apply andb_true_iff in Ht as [Hc Ht].
    cbn [Re.lit String.prefix].
    unfold Re.lit_ok, Re.item_ok. cbn [Re.ignorecase Re.IM].
    rewrite !lower_char_fixed by (by apply negb_true_iff).
    destruct (ascii_dec l c) as [->|Hne].
    + rewrite Ascii.eqb_refl. by apply IH.
    + apply Ascii.eqb_neq in Hne. by rewrite Hne.
Qed.

Lemma contains_cons sub c t :
  Str.contains sub (String c t) = String.prefix sub (String c t) || Str.contains sub t.
Proof. reflexivity. Qed.

Lemma search_payment_words : forall t p0,
  Str.forallb (fun c => negb (Str.is_upper c)) t = true ->
  Re.search_from Re.IM (Re.alt (List.map Re.Lit payment_words)) p0 t
  = if existsb (fun w => Str.contains w t) payment_words then Some None else None.
Proof.
  assert (Hgo : forall t p0,
    Str.forallb (fun c => negb (Str.is_upper c)) t = true ->
    Re.go Re.IM (Re.alt (List.map Re.Lit payment_words)) (fun st => Some (Re.grp st))
      {| Re.prev := p0; Re.rest := t; Re.grp := None |}
    = if existsb (fun w => String.prefix w t) payment_words then Some None else None).
  { intros t p0 Ht. unfold payment_words.
    cbn [List.map Re.alt Re.go Re.prev Re.rest Re.grp existsb].
    rewrite !lit_prefix by done.
    by destruct (String.prefix "check" t), (String.prefix "cash" t),
      (String.prefix "credit" t), (String.prefix "wire" t), (String.prefix "ach" t). }
  induction t as [|c t IH]; intros p0 Ht.
  - cbn [Re.search_from]. rewrite Hgo by done. reflexivity.
  - cbn [Re.search_from]. rewrite Hgo by done.
    assert (Ht' : Str.forallb (fun c => negb (Str.is_upper c)) t = true).
    { simpl in Ht. by apply andb_true_iff in Ht as [_ ?]. }
    rewrite (IH (Some c) Ht').
    unfold payment_words. cbn [existsb]. rewrite !contains_cons.
    destruct (String.prefix "check" (String c t)), (String.prefix "cash" (String c t)),
      (String.prefix "credit" (String c t)), (String.prefix "wire" (String c t)),
      (String.prefix "ach" (String c t)),
      (Str.contains "check" t), (Str.contains "cash" t), (Str.contains "credit" t),
      (Str.contains "wire" t), (Str.contains "ach" t); reflexivity.
Qed.

(** X19. When [extract_fields] raises, on ASCII text. The second
    pattern of [payment_method] has no group, so [match.group(1)] raises
    an [IndexError] when that pattern is the one that matches; every
    other pattern of the table has its group. So for a text that is
    ASCII, [extract_fields] raises exactly when the lower-cased text has
    no payment phrase with its value (the first pattern) and holds one
    of the words check, cash, credit, wire and ach. Beyond ASCII,
    IGNORECASE lets other characters stand for a letter of these words,
    which the matcher here does not model. *)
Theorem extract_fields_raises_on_a_payment_word (text : string) :
  Str.isascii text = true ->
  extract_fields text = None
  <-> Re.search Re.IM payment_phrase (Str.lower text) = None
      /\ existsb (fun w => Str.contains w (Str.lower text)) payment_words = true.
Proof.
  intros _. rewrite extract_fields_None.
  change payment_method_patterns
    with [payment_phrase; Re.alt (List.map Re.Lit payment_words)].
  cbn [first_match]. unfold Re.search at 2.
  rewrite (search_payment_words (Str.lower text) None (lower_not_upper text)).
  pose proof (search_from_sets_group Re.IM payment_phrase (Str.lower text) None eq_refl) as Hg.
  unfold Re.search.
  destruct (Re.search_from Re.IM payment_phrase None (Str.lower text)) as [m|].
  - split; [intros [= ->]; done|intros [[=] _]].
  - destruct (existsb _ _); split; try done. by intros [_ [=]].
Qed.

(** A text that says that the invoice was paid in cash. *)
Lemma extract_fields_raises_on_a_payment_word_witness :
  extract_fields ("Invoice INV-7" ++ Patterns.nl ++ "Total: $5.00" ++ Patterns.nl
                  ++ "Paid in cash") = None.
Proof.
  apply (extract_fields_raises_on_a_payment_word
           ("Invoice INV-7" ++ Patterns.nl ++ "Total: $5.00" ++ Patterns.nl
            ++ "Paid in cash")).
  - vm_compute. reflexivity.
  - split; vm_compute; reflexivity.
Defined.

End RaiseFacts.

(** ** The checks on the uploaded file *)

Module FileValidatorFacts.
Import FileValidator Py StrFacts.
Local Open Scope list_scope.

#[local] Arguments String.append !_ _ / : simpl nomatch.

Lemma split_on_nonempty sep s : forall cur, Str.split_on sep cur s <> [].
Proof. induction s as [|c s IH]; intros cur; simpl; [done|]. by destruct (Ascii.eqb c sep). Qed.

Lemma last_cons_nonempty {A} (x : A) l : l <> [] -> last (x :: l) = last l.
Proof. by destruct l. Qed.

Lemma rev_onto_app s : forall acc, Str.rev_onto s acc = (Str.rev s ++ acc)%string.
Proof.
  unfold Str.rev. induction s as [|c s IH]; intros acc; simpl; [done|].
  rewrite IH, (IH (String c EmptyString)), append_assoc. done.
Qed.

Lemma last_split_on_plain sep s : forall cur,
  Str.forallb (fun c => negb (Ascii.eqb c sep)) s = true ->
  last (Str.split_on sep cur s) = Some (Str.rev cur ++ s)%string.
Proof.
  induction s as [|c s IH]; intros cur; simpl.
  - intros _. by rewrite append_nil_r.
  - intros [Hc Hs]%andb_true_iff. apply negb_true_iff in Hc. rewrite Hc.
    rewrite IH by done. f_equal. unfold Str.rev. simpl.
    rewrite rev_onto_app. by rewrite append_assoc.
Qed.

Lemma last_split_on_app sep base ext : forall cur,
  Str.forallb (fun c => negb (Ascii.eqb c sep)) ext = true ->
  last (Str.split_on sep cur (base ++ String sep ext)%string) = Some ext.
Proof.
  induction base as [|c base IH]; intros cur Hext; simpl.
  - rewrite Ascii.eqb_refl. rewrite last_cons_nonempty by apply split_on_nonempty.
    by rewrite last_split_on_plain.
  - destruct (Ascii.eqb c sep); [|by apply IH].
    rewrite last_cons_nonempty by apply split_on_nonempty. by apply IH.
Qed.

Lemma contains_point s :
  Str.contains "." s = negb (Str.forallb (fun c => negb (Ascii.eqb c ".")) s).
Proof.
  induction s as [|c s IH]; [done|].
  cbn [Str.contains Str.forallb]. rewrite IH.
  assert (Hp : String.prefix "." (String c s) = Ascii.eqb c ".").
  { cbn [String.prefix]. destruct (ascii_dec "." c) as [<-|Hne]; [by destruct s|].
    symmetry. apply Ascii.eqb_neq. congruence. }
  rewrite Hp. by destruct (Ascii.eqb c ".").
Qed.

Lemma contains_point_app base ext : Str.contains "." (base ++ "." ++ ext)%string = true.
Proof.
  rewrite contains_point, forallb_app. simpl. by rewrite andb_false_r.
Qed.

Lemma get_file_extension_app base ext :
  Str.contains "." ext = false ->
  get_file_extension (base ++ "." ++ ext)%string = ("." ++ ext)%string.
Proof.
  intros Hext. unfold get_file_extension. rewrite contains_point_app.
  unfold Str.split_char.
  change (base ++ "." ++ ext)%string with (base ++ String "." ext)%string.
  rewrite last_split_on_app; [done|].
  rewrite contains_point in Hext. by apply negb_false_iff in Hext.
Qed.

(** X20. The extension of a file name is what follows its last point,
    with the point: for a name [base.ext] whose [ext] has no point it is
    [.ext], whatever [base] is; and a name without a point has the empty
    extension. *)
Theorem extension_follows_the_last_point (base ext : string) :
  Str.contains "." ext = false ->
  get_file_extension (base ++ "." ++ ext)%string = ("." ++ ext)%string
  /\ get_file_extension ext = "".
Proof.
  intros Hext. split; [by apply get_file_extension_app|].
  unfold get_file_extension. by rewrite Hext.
Qed.

Lemma extension_follows_the_last_point_witness :
  get_file_extension "scan.2024.PDF" = ".PDF" /\ get_file_extension "PDF" = "".
Proof.
  apply (extension_follows_the_last_point "scan.2024" "PDF"). reflexivity.
Defined.

Lemma mem_In k l : mem k l = true <-> In k l.
Proof.
  unfold mem. rewrite existsb_exists. split.
  - intros (x & Hx & ->%String.eqb_eq). done.
  - intros Hk. exists k. split; [done|apply String.eqb_refl].
Qed.

(** X21. [validate_file] accepts a file named [base.ext] exactly when
    it is not empty, has at most 10 * 1024 * 1024 bytes, and [ext] is,
    in any mix of cases, one of pdf, jpg, jpeg, png, tiff and tif. The
    bytes count by their number alone: the content is not looked at. *)
Theorem validate_file_accepts
    (iteration_order : list string) (file_bytes : list Byte.byte)
    (base ext : string) :
  Str.contains "." ext = false ->
  validate_file iteration_order file_bytes (base ++ "." ++ ext)%string = (true, None)
  <-> (0 < length file_bytes)%nat
      /\ Z.of_nat (length file_bytes) <= 10 * 1024 * 1024
      /\ In (Str.lower ext) ["pdf"; "jpg"; "jpeg"; "png"; "tiff"; "tif"].
Proof.
  intros Hext. unfold validate_file. rewrite get_file_extension_app by done.
  unfold MAX_FILE_SIZE.
  destruct (Z.ltb_spec (10 * 1024 * 1024) (Z.of_nat (length file_bytes))) as [Hbig|Hok].
  { split; [done|]. intros (_ & H & _). lia. }
  destruct (Nat.eqb_spec (length file_bytes) 0) as [Hz|Hnz].
  { split; [done|]. intros (H & _). lia. }
  change (Str.lower ("." ++ ext)) with (String "." (Str.lower ext)).
  assert (Hmem : mem (String "." (Str.lower ext)) ALLOWED_EXTENSIONS = true
                 <-> In (Str.lower ext) ["pdf"; "jpg"; "jpeg"; "png"; "tiff"; "tif"]).
  { rewrite mem_In. unfold ALLOWED_EXTENSIONS. simpl.
    split; intros H; repeat (destruct H as [H|H]; [injection H as H; subst; tauto|]);
      try done.
    repeat (destruct H as [<-|H]; [tauto|]). done. }
  destruct (mem _ ALLOWED_EXTENSIONS).
  - simpl. split; [|done]. intros _. split; [lia|]. split; [done|]. by apply Hmem.
  - simpl. split; [done|]. intros (_ & _ & H). apply Hmem in H. done.
Qed.

Lemma validate_file_accepts_witness :
  validate_file [".pdf"] [Byte.x00] "scan.2024.PDF" = (true, None).
Proof.
  apply (validate_file_accepts [".pdf"] [Byte.x00] "scan.2024" "PDF"); [reflexivity|].
  split; [simpl; lia|]. split; [simpl; lia|]. simpl. tauto.
Defined.

(** X22. [get_file_type] answers pdf exactly when [is_pdf] holds, so
    the second test of [file_type == 'pdf' or is_pdf(file_data)] never
    decides; and the type is read off the first eight bytes. *)
Theorem file_type_pdf_iff_is_pdf (file_bytes : list Byte.byte) :
  (get_file_type file_bytes = "pdf" <-> is_pdf file_bytes = true)
  /\ get_file_type (firstn 8 file_bytes) = get_file_type file_bytes.
Proof.
  split.
  - unfold get_file_type, is_pdf.
    destruct (bytes_eqb (firstn 4 file_bytes) magic_pdf); [done|].
    destruct (bytes_eqb (firstn 2 file_bytes) magic_jpeg); [done|].
    destruct (bytes_eqb (firstn 8 file_bytes) magic_png); [done|].
    destruct (_ || _); done.
  - unfold get_file_type.
    rewrite !firstn_firstn. done.
Qed.

End FileValidatorFacts.

(** ** The confidence of [extractor.py] *)

Module ExtractorFacts.
Import Py Extractor.
Local Open Scope Q_scope.

Lemma calculate_confidence_weights (data : dict pyval) :
  data <> [] ->
  calculate_confidence data
  == (if present data "invoice_number" then 0.2 else 0)
     + (if present data "invoice_date" then 0.15 else 0)
     + (if present data "total" then 0.2 else 0)
     + (if present data "vendor_name" then 0.15 else 0)
     + (if present data "subtotal" then 0.1 else 0)
     + (if present data "tax_amount" then 0.1 else 0)
     + (if present data "line_items" then 0.1 else 0).
Proof.
  intros Hne. destruct data as [|kv data]; [done|].
  unfold calculate_confidence, field_weights, add_weights.
  cbn [fold_left fst snd].
  destruct (present _ "invoice_number"), (present _ "invoice_date"),
    (present _ "total"), (present _ "vendor_name"), (present _ "subtotal"),
    (present _ "tax_amount"), (present _ "line_items");
    vm_compute; reflexivity.
Qed.

Lemma present_nil field : present [] field = false.
Proof. reflexivity. Qed.

(** X23. [calculate_confidence] is the sum of the weights of the fields
    that are there with a truthy value, the weights adding up to one:
    it lies between 0 and 1, it is 1 exactly when all seven weighted
    fields are there, and 0 exactly when none is. *)
Theorem calculate_confidence_is_a_weighted_share (data : dict pyval) :
  0 <= calculate_confidence data <= 1
  /\ (calculate_confidence data == 1
      <-> forallb (present data) (keys field_weights) = true)
  /\ (calculate_confidence data == 0
      <-> existsb (present data) (keys field_weights) = false).
Proof.
  destruct (decide (data = [])) as [->|Hne].
  { vm_compute. intuition discriminate. }
  rewrite (calculate_confidence_weights data Hne).
  unfold field_weights. cbn [keys List.map fst forallb existsb].
  destruct (present data "invoice_number"), (present data "invoice_date"),
    (present data "total"), (present data "vendor_name"), (present data "subtotal"),
    (present data "tax_amount"), (present data "line_items");
    cbn [andb orb]; (split; [lra|]); split; split; intros H; try done; try lra;
    exfalso; revert H; vm_compute; discriminate.
Qed.

End ExtractorFacts.

(** ** The handlers of [main.py] *)

Module ApiFacts.
Import RateLimiter DuplicateDetector DetectorNotions Api Notions ApiNotions RateLimiterFacts
  DetectorFacts LimiterMore.
Local Open Scope list_scope.

Section Facts.
Context {body : Type}.
Variable sha256 : list Byte.byte -> string.
Variable renders : @invoice body -> bool.

Implicit Types (s : @state body) (extraction : option (@invoice body))
  (read : option (list Byte.byte)) (r : @request body).

Lemma check_duplicate_previous (d : @detector (@payload body)) ip contents data now :
  let answer := (check_duplicate sha256 d ip contents data now).1 in
  answer.1 = true -> is_Some answer.2.
Proof.
  cbv zeta. unfold check_duplicate.
  destruct (by_content_hash _ _); [simpl; eauto|].
  destruct (key_of data); [|done].
  destruct (by_invoice_number _ _ _); [simpl; eauto|done].
Qed.

Lemma check_duplicate_new (d : @detector (@payload body)) ip contents data now :
  let answer := (check_duplicate sha256 d ip contents data now).1 in
  answer.1 = false -> answer.2 = None.
Proof.
  cbv zeta. unfold check_duplicate.
  destruct (by_content_hash _ _); [done|].
  destruct (key_of data); [|done].
  by destruct (by_invoice_number _ _ _).
Qed.

Lemma is_allowed_true l ip now :
  (is_allowed l ip now).1.1 = true ->
  is_allowed l ip now
  = ((true, None),
     store l ip (popleft_while_old (now - window_seconds l) (deque_of l ip) ++ [now])).
Proof. unfold is_allowed. by destruct (_ <=? _). Qed.

Lemma is_allowed_false l ip now :
  (is_allowed l ip now).1.1 = false ->
  is_allowed l ip now
  = ((false, Some (limit_message l)),
     store l ip (popleft_while_old (now - window_seconds l) (deque_of l ip))).
Proof. unfold is_allowed. by destruct (_ <=? _). Qed.

(** X24. The status of an answer of [extract_invoice]. It is 429
    exactly when the limiter refuses the request, and then the detector
    is not touched; it is never 400. When the request is let through:
    if reading the upload or the extraction raises, the answer is 500;
    otherwise the detector decides, and its "duplicate" always comes
    with the previous entry, so that the handler itself does not raise.
    A duplicate is answered with the stored record and its time, a new
    document with its own record and the requests that remain; in both
    cases the answer is 500 instead when no response can be made of the
    record. *)
Theorem extract_invoice_status
    s (client_ip : string) read extraction (t_limit t_check t_remaining : Z) :
  let allowed := (is_allowed (the_limiter s) client_ip t_limit).1.1 in
  let l1 := (is_allowed (the_limiter s) client_ip t_limit).2 in
  let out := extract_invoice sha256 renders s client_ip read extraction
               t_limit t_check t_remaining in
  (allowed = false
   <-> out.1 = Http429 (Some (limit_message (the_limiter s))))
  /\ (allowed = false -> the_detector out.2 = the_detector s)
  /\ (forall detail, out.1 <> Http400 detail)
  /\ (allowed = true ->
      match read, extraction with
      | Some contents, Some data =>
          match (check_duplicate sha256 (the_detector s) client_ip contents data
                   t_check).1 with
          | (true, Some previous) =>
              out.1 = if renders (DuplicateDetector.data previous)
                      then DuplicateDetected (DuplicateDetector.data previous)
                             (timestamp previous)
                      else Http500
          | (false, None) =>
              let answered :=
                with_rate_limit_info data
                  (get_remaining_requests l1 client_ip t_remaining).1 in
              out.1 = if renders answered then Extracted answered else Http500
          | _ => False
          end
      | _, _ => out.1 = Http500
      end).
Proof.
  cbv zeta. unfold extract_invoice.
  destruct ((is_allowed (the_limiter s) client_ip t_limit).1.1) eqn:Ha.
  - rewrite (is_allowed_true _ _ _ Ha). cbn [negb fst snd].
    destruct read as [contents|], extraction as [data|];
      try (simpl; repeat split; try done; intros H; by destruct H).
    pose proof (check_duplicate_previous (the_detector s) client_ip contents data
                  t_check) as Hp.
    pose proof (check_duplicate_new (the_detector s) client_ip contents data
                  t_check) as Hn.
    cbv zeta in Hp, Hn.
    destruct (check_duplicate sha256 (the_detector s) client_ip contents data t_check)
      as [[dup previous] d1]. cbn [fst snd] in Hp, Hn.
    destruct dup.
    + destruct (Hp eq_refl) as [e ->]. cbn [fst snd].
      destruct (renders (DuplicateDetector.data e));
        repeat split; try done; intros H; by destruct H.
    + rewrite (Hn eq_refl).
      destruct (get_remaining_requests _ _ _) as [remaining l2]. cbn [fst snd].
      destruct (renders _); repeat split; try done; intros H; by destruct H.
  - rewrite (is_allowed_false _ _ _ Ha). simpl.
    repeat split; try done; intros H; try done; by destruct H.
Qed.

Lemma last_snoc_popleft cutoff q t :
  cutoff <= t -> last (popleft_while_old cutoff (q ++ [t])) = Some t.
Proof.
  intros Ht. rewrite popleft_keeps_recent by (constructor; [done|constructor]).
  by rewrite last_snoc.
Qed.

(** X25. A request that the limiter lets through is counted, whatever
    comes of it: after [extract_invoice] and after [export_data] the
    time of the request is the last of the client's deque, also when
    reading or extracting raises or no response can be made (500), when
    the document is a duplicate, and when the export format is refused
    (400). *)
Theorem allowed_request_is_counted
    s (client_ip : string) read extraction
    (export_to : string -> @invoice body -> option string) (format : string)
    (t_limit t_check t_remaining : Z) :
  (is_allowed (the_limiter s) client_ip t_limit).1.1 = true ->
  t_remaining - window_seconds (the_limiter s) <= t_limit ->
  last (deque_of
          (the_limiter (extract_invoice sha256 renders s client_ip read extraction
                          t_limit t_check t_remaining).2) client_ip)
  = Some t_limit
  /\ last (deque_of
             (the_limiter (export_data export_to s client_ip format read extraction
                             t_limit).2) client_ip)
     = Some t_limit.
Proof.
  intros Ha Ht. split.
  - unfold extract_invoice. rewrite (is_allowed_true _ _ _ Ha). cbn [negb].
    set (l1 := store _ _ _).
    assert (Hl1 : last (deque_of l1 client_ip) = Some t_limit).
    { unfold l1. rewrite deque_of_store. by rewrite last_snoc. }
    destruct read as [contents|]; [|done].
    destruct extraction as [data|]; [|done].
    destruct (check_duplicate sha256 (the_detector s) client_ip contents data t_check)
      as [[dup previous] d1].
    destruct dup; [by destruct previous|].
    unfold get_remaining_requests. cbn [the_limiter snd].
    rewrite deque_of_store. unfold l1 at 2. rewrite deque_of_store.
    by apply last_snoc_popleft.
  - unfold export_data. rewrite (is_allowed_true _ _ _ Ha). cbn [negb].
    set (l1 := store _ _ _).
    assert (Hl1 : last (deque_of l1 client_ip) = Some t_limit).
    { unfold l1. rewrite deque_of_store. by rewrite last_snoc. }
    destruct (negb (Py.mem _ _)); [done|].
    destruct read as [contents|]; [|done].
    destruct extraction as [data|]; [|done].
    by destruct (export_to _ _).
Qed.








End Facts.

Lemma allowed_request_is_counted_witness :
  last (deque_of
          (the_limiter (extract_invoice bytes_as_text all_render fresh_state "1.1.1.1"
                          None None 0 1 2).2) "1.1.1.1") = Some 0
  /\ last (deque_of
             (the_limiter (export_data (fun _ _ => None) fresh_state "1.1.1.1" "pdf"
                             None None 0).2) "1.1.1.1") = Some 0.
Proof.
  apply (allowed_request_is_counted bytes_as_text all_render fresh_state "1.1.1.1"
           None None (fun _ _ => None) "pdf" 0 1 2).
  - vm_compute. reflexivity.
  - vm_compute. discriminate.
Defined.


End ApiFacts.
